(** * Verification of the Twilio/RIVA voice agent core

    Shallow embedding of the per-call orchestrator of the voice agent:
    - [ResponseBuffer] (src/services/openai_client.py), the sentence segmenter;
    - [AudioChunker] and [AudioOutputManager] (src/services/riva_tts_client.py);
    - [ConversationManager] (src/services/openai_client.py);
    - [RivaASRClient.streaming_recognize] (src/services/riva_asr_client.py);
    - [VoiceAgent] (src/main.py).

    Python exceptions are modelled by the [result] type, dictionaries by
    stdpp's [gmap], [bytes] by [list byte] and [str] by [string] (characters
    are code points below 256). *)

From Stdlib Require Import ZArith Lia Ascii String List.
From Stdlib Require Import Strings.Byte.
From stdpp Require Import base option list gmap strings.

Local Open Scope string_scope.
Local Open Scope list_scope.

(** ** Python runtime conventions *)

Inductive exn : Type :=
| TypeError        (* wrong operand type, e.g. a str used as a str index *)
| KeyError         (* missing dictionary key *)
| AttributeError   (* attribute access on None *)
| AudioopError     (* audioop.error *)
| ConnectionClosed (* websockets.exceptions.ConnectionClosed *)
| ServiceError.    (* failure reported by an external service *)

Inductive result (A : Type) : Type :=
| Ok (a : A)
| Raise (e : exn).
Arguments Ok {A} a.
Arguments Raise {A} e.

Global Instance result_ret : MRet result := fun A a => Ok a.
Global Instance result_bind : MBind result := fun A B k r =>
  match r with
  | Ok a => k a
  | Raise e => Raise e
  end.

Definition bytes := list byte.

(** ** Python strings *)
Module PyStr.

Definition code (c : ascii) : N := N_of_ascii c.

(** [str.isspace] on one character, which is also what [\s] matches in a
    [str] pattern: TAB..CR, FS..US, SPACE, NEL and NBSP below 256. *)
Definition is_space (c : ascii) : bool :=
  let n := code c in
  ((9 <=? n) && (n <=? 13) || (28 <=? n) && (n <=? 32)
   || (n =? 133) || (n =? 160))%N.

(** The character class [[.!?]]. *)
Definition is_end (c : ascii) : bool :=
  let n := code c in ((n =? 46) || (n =? 33) || (n =? 63))%N.

(** [''.join(l)] *)
Definition join (l : list string) : string := foldr String.append "" l.

Fixpoint lstrip (s : string) : string :=
  match s with
  | String c rest => if is_space c then lstrip rest else s
  | EmptyString => EmptyString
  end.

(** Truth value of [s.strip()]: stripping both ends leaves a non-empty
    string exactly when stripping the left end does. *)
Definition strip_nonempty (s : string) : bool :=
  match lstrip s with
  | EmptyString => false
  | String _ _ => true
  end.

(** Head of the remaining text is whitespace. *)
Definition starts_with_space (s : string) : bool :=
  match s with
  | String c _ => is_space c
  | EmptyString => false
  end.

(** Longest whitespace prefix, as matched by [\s+]. *)
Fixpoint take_spaces (s : string) : string :=
  match s with
  | String c rest => if is_space c then String c (take_spaces rest) else ""
  | EmptyString => ""
  end.

(** [re.compile(r'[.!?]\s+').search(s)], returning [group(0)] of the
    leftmost match. *)
Fixpoint re_search (s : string) : option string :=
  match s with
  | EmptyString => None
  | String c rest =>
      if is_end c && starts_with_space rest
      then Some (String c (take_spaces rest))
      else re_search rest
  end.

(** [re.compile(r'[.!?]\s+').split(s)].  The scanner walks the text once:
    [cur] holds the current part (reversed), [skipping] is set while the
    whitespace run of a match is consumed. *)
Fixpoint split_go (skipping : bool) (cur : list ascii) (s : string)
  : list string :=
  match s with
  | EmptyString => [string_of_list_ascii (rev cur)]
  | String c rest =>
      if skipping && is_space c then split_go true cur rest
      else if is_end c && starts_with_space rest
           then string_of_list_ascii (rev cur) :: split_go true [] rest
           else split_go false (c :: cur) rest
  end.

Definition re_split (s : string) : list string := split_go false [] s.

(** [text[key]] where [key] is a [str]: string indices must be integers. *)
Definition getitem_str (text key : string) : result string :=
  Raise TypeError.

End PyStr.

(** ** ResponseBuffer (src/services/openai_client.py) *)
Module ResponseBuffer.
Import PyStr.

Record t : Type := mk { buffer : list string; complete : bool }.

Definition init : t := mk [] false.

Definition add_chunk (rb : t) (chunk : string) : t :=
  mk (buffer rb ++ [chunk]) (complete rb).

(** The body of [for i in range(len(parts) - 1)]: [heads] are
    [parts[0] .. parts[len-2]]. *)
Fixpoint collect (text : string) (heads : list string)
    (sentences : list string) : result (list string) :=
  match heads with
  | [] => Ok sentences
  | p :: ps =>
      match re_search text with
      | None => Raise AttributeError
      | Some g =>
          sep ← getitem_str text g;
          collect text ps (sentences ++ [p +:+ sep])
      end
  end.

Definition get_complete_sentences (rb : t) : result (list string * t) :=
  let text := join (buffer rb) in
  let parts := re_split text in
  if (1 <? length parts)%nat then
    sentences ← collect text (removelast parts) [];
    Ok (sentences, mk [List.last parts ""] (complete rb))
  else Ok ([], rb).

Definition get_remaining (rb : t) : string := join (buffer rb).

Definition clear (rb : t) : t := mk [] false.

(** The segmenter driven over a whole token stream: [add_chunk] then
    [get_complete_sentences] for each increment, collecting the sentences. *)
Fixpoint feed (rb : t) (increments : list string) (acc : list string)
  : result (list string * t) :=
  match increments with
  | [] => Ok (acc, rb)
  | chunk :: more =>
      let rb1 := add_chunk rb chunk in
      '(sentences, rb2) ← get_complete_sentences rb1;
      feed rb2 more (acc ++ sentences)
  end.

(** Sentences returned over the stream and the remainder at stream end. *)
Definition segment_stream (increments : list string)
  : result (list string * string) :=
  '(sentences, rb) ← feed init increments [];
  Ok (sentences, get_remaining rb).

End ResponseBuffer.

(** ** AudioChunker (src/services/riva_tts_client.py) *)
Module AudioChunker.

Record t : Type := mk { chunk_size : Z; buffer : bytes }.

(** [AudioChunker(chunk_size)]; the default size is 160. *)
Definition init (chunk_size : Z) : t := mk chunk_size [].
Definition fresh : t := init 160.

(** [len(b)] *)
Definition len (b : bytes) : Z := Z.of_nat (length b).

(** [b[:k]]: a negative bound counts from the end, clamped at 0. *)
Definition slice_to (k : Z) (b : bytes) : bytes :=
  if (0 <=? k)%Z then take (Z.to_nat k) b
  else take (length b - Z.to_nat (- k)) b.

(** [b[k:]] *)
Definition slice_from (k : Z) (b : bytes) : bytes :=
  if (0 <=? k)%Z then drop (Z.to_nat k) b
  else drop (length b - Z.to_nat (- k)) b.

(** The loop [while len(self.buffer) >= self.chunk_size].  [fuel] bounds the
    number of iterations; [None] means the loop is still running. *)
Fixpoint drain (fuel : nat) (size : Z) (buf : bytes) (chunks : list bytes)
  : option (list bytes * bytes) :=
  match fuel with
  | O => None
  | S fuel' =>
      if (size <=? len buf)%Z
      then drain fuel' size (slice_from size buf) (chunks ++ [slice_to size buf])
      else Some (chunks, buf)
  end.

Definition add_audio (fuel : nat) (ck : t) (audio_data : bytes)
  : option (list bytes * t) :=
  '(chunks, buf) ← drain fuel (chunk_size ck) (buffer ck ++ audio_data) [];
  Some (chunks, mk (chunk_size ck) buf).

Definition get_remaining (ck : t) : bytes * t :=
  match buffer ck with
  | [] => ([], ck)
  | _ :: _ =>
      let padding_needed := (chunk_size ck - len (buffer ck))%Z in
      let buf :=
        if (0 <? padding_needed)%Z
        then buffer ck ++ replicate (Z.to_nat padding_needed) x00
        else buffer ck in
      (buf, mk (chunk_size ck) [])
  end.

(** [add_audio] run with one more unit of fuel than there are buffered bytes,
    which is enough for every positive chunk size; for the other sizes the
    loop never ends and no value is meaningful. *)
Definition add_audio_total (ck : t) (audio_data : bytes) : list bytes * t :=
  default ([], mk (chunk_size ck) (buffer ck ++ audio_data))
    (add_audio (S (length (buffer ck ++ audio_data))) ck audio_data).

(** A sequence of writes: every chunk returned by [add_audio], in order. *)
Fixpoint feed (fuel : nat) (ck : t) (writes : list bytes) (acc : list bytes)
  : option (list bytes * t) :=
  match writes with
  | [] => Some (acc, ck)
  | w :: more =>
      '(chunks, ck') ← add_audio fuel ck w;
      feed fuel ck' more (acc ++ chunks)
  end.

End AudioChunker.

(** ** ConversationManager and OpenAIClient (src/services/openai_client.py) *)
Module ConversationManager.

Inductive role : Type := System | User | Assistant.

Record message : Type := Msg { msg_role : role; content : string }.

(** What the chat-completions service does for one request.  With
    [stream=True] it delivers [deltas] (a delta may carry no content) and then
    either ends or fails with [stream_error]; a failure of the [create] call
    itself is a [stream_error] after no delta.  With [stream=False] it
    returns [completion]. *)
Record api_reply : Type := Reply {
  deltas : list (option string);
  stream_error : option exn;
  completion : result string
}.

(** One call of [chat.completions.create] as the service sees it. *)
Record api_call : Type := Call { call_messages : list message; call_stream : bool }.

Record t : Type := mk {
  conversations : gmap string (list message);   (* defaultdict(list) *)
  api_calls : list api_call                     (* requests received by the service *)
}.

Definition init : t := mk ∅ [].

Definition system_prompt : string :=
"You are a helpful AI assistant on a phone call. 
        Keep your responses concise and natural for voice conversation.
        Be friendly, professional, and helpful.
        Avoid using markdown, special characters, or formatting that doesn't work well with speech.
        If you need to provide lists, speak them naturally.
        Remember this is a phone conversation, so responses should be conversational.".

Definition apology : string :=
  "I apologize, but I'm having trouble processing that right now.".

(** [self.conversations[caller_id]] on the defaultdict. *)
Definition history (cm : t) (caller_id : string) : list message :=
  default [] (conversations cm !! caller_id).

(** [self.conversations[caller_id].append(m)] *)
Definition append_turn (cm : t) (caller_id : string) (m : message) : t :=
  mk (<[caller_id := history cm caller_id ++ [m]]> (conversations cm))
     (api_calls cm).

(** [l[-10:]] *)
Definition last10 (l : list message) : list message :=
  drop (length l - 10) l.

(** The context built for a request, after the user turn was appended. *)
Definition build_messages (cm : t) (caller_id : string) : list message :=
  [Msg System system_prompt] ++ last10 (history cm caller_id).

(** First part of [get_response], up to the [create] call: the user turn is
    recorded and the service receives the context. *)
Definition begin_request (cm : t) (text caller_id : string) (stream : bool)
  : t * list message :=
  let cm1 := append_turn cm caller_id (Msg User text) in
  let messages := build_messages cm1 caller_id in
  (mk (conversations cm1) (api_calls cm1 ++ [Call messages stream]), messages).

(** Contents of the deltas that carry some. *)
Definition contents (ds : list (option string)) : list string :=
  omap id ds.

(** The chunks [get_response] yields, in order.  A failure is caught by the
    [except Exception] clause, which yields the apology. *)
Definition yields (stream : bool) (r : api_reply) : list string :=
  if stream then
    match stream_error r with
    | None => contents (deltas r)
    | Some _ => contents (deltas r) ++ [apology]
    end
  else
    match completion r with
    | Ok c => [c]
    | Raise _ => [apology]
    end.

(** State once the generator has run to its end. *)
Definition finish (cm1 : t) (caller_id : string) (stream : bool) (r : api_reply)
  : t :=
  if stream then
    match stream_error r with
    | None => append_turn cm1 caller_id
                (Msg Assistant (PyStr.join (contents (deltas r))))
    | Some _ => cm1
    end
  else
    match completion r with
    | Ok c => append_turn cm1 caller_id (Msg Assistant c)
    | Raise _ => cm1
    end.

(** [get_response] consumed to exhaustion: context sent, chunks yielded,
    final state. *)
Definition get_response (cm : t) (text caller_id : string) (stream : bool)
    (r : api_reply) : list message * list string * t :=
  let '(cm1, messages) := begin_request cm text caller_id stream in
  (messages, yields stream r, finish cm1 caller_id stream r).

Definition clear_conversation (cm : t) (caller_id : string) : t :=
  if decide (is_Some (conversations cm !! caller_id))
  then mk (delete caller_id (conversations cm)) (api_calls cm)
  else cm.

(** [OpenAIClient.clear_caller_history] *)
Definition clear_caller_history (cm : t) (caller_id : string) : t :=
  clear_conversation cm caller_id.

(** A caller-side history of requests; each may be a new transcript or a
    teardown clearing the caller's history. *)
Inductive request : Type :=
| Ask (text caller_id : string) (r : api_reply)
| Forget (caller_id : string).

Definition serve (cm : t) (q : request) : t :=
  match q with
  | Ask text caller_id r => (get_response cm text caller_id true r).2
  | Forget caller_id => clear_caller_history cm caller_id
  end.

Definition serve_all (cm : t) (qs : list request) : t := foldl serve cm qs.

(** A request whose context is the system prompt and at most ten turns. *)
Definition bounded_call (c : api_call) : Prop :=
  exists ctx, call_messages c = Msg System system_prompt :: ctx
              /\ (length ctx <= 10)%nat.

End ConversationManager.

(** ** RivaASRClient.streaming_recognize (src/services/riva_asr_client.py) *)
Module RivaASRClient.

Record transcript_result : Type := Transcript {
  transcript : string;
  is_final : bool;
  confidence : Z        (* the source only ever produces 0.0 *)
}.

Definition placeholder : transcript_result :=
  Transcript "[Processing audio...]" false 0.

(** What the consumer of the generator observes, in order: a frame pulled
    from the audio stream, or a result yielded together with the combined
    audio it was computed for. *)
Inductive event : Type :=
| Pull (audio_chunk : bytes)
| Emit (r : transcript_result) (combined_audio : bytes).

Section Recognize.

(** [audioop.ratecv(fragment, width, nchannels, inrate, outrate, None)[0]];
    the library raises on a fragment that is not a whole number of frames. *)
Variable ratecv : bytes -> Z -> Z -> Z -> Z -> result bytes.

Definition resample_audio (audio_data : bytes) (from_rate to_rate : Z)
  : result bytes :=
  ratecv audio_data 2 1 from_rate to_rate.

(** The body of the [try] block.  [stream_end] is how the audio stream ends:
    normally, or by raising. *)
Fixpoint recognize_loop (audio_buffer : list bytes) (audio_stream : list bytes)
    (stream_end : option exn) : list event * result unit :=
  match audio_stream with
  | [] =>
      match stream_end with
      | None => ([], Ok ())
      | Some e => ([], Raise e)
      end
  | audio_chunk :: rest =>
      match resample_audio audio_chunk 8000 16000 with
      | Raise e => ([Pull audio_chunk], Raise e)
      | Ok resampled_audio =>
          let audio_buffer := audio_buffer ++ [resampled_audio] in
          if (50 <=? length audio_buffer)%nat then
            let combined_audio := concat audio_buffer in
            let '(tr, st) := recognize_loop [] rest stream_end in
            (Pull audio_chunk :: Emit placeholder combined_audio :: tr, st)
          else
            let '(tr, st) := recognize_loop audio_buffer rest stream_end in
            (Pull audio_chunk :: tr, st)
      end
  end.

(** [except Exception as e: logger.error(...)] *)
Definition streaming_recognize (audio_stream : list bytes)
    (stream_end : option exn) : list event * result unit :=
  let '(tr, st) := recognize_loop [] audio_stream stream_end in
  (tr, match st with
       | Ok u => Ok u
       | Raise _ => Ok ()
       end).




End Recognize.



(** Frames pulled, in order. *)
Fixpoint pulled (tr : list event) : list bytes :=
  match tr with
  | [] => []
  | Pull audio_chunk :: tr' => audio_chunk :: pulled tr'
  | Emit _ _ :: tr' => pulled tr'
  end.


End RivaASRClient.

(** ** The parts of CPython's audioop used on the inbound path *)
Module Audioop.

(** One mu-law byte to a 16-bit linear sample (the table
    [_st_ulaw2linear16] of the library, in closed form). *)
Definition ulaw2linear16 (u_val : Z) : Z :=
  let u := Z.lxor u_val 255 in
  let t := (Z.shiftl (Z.land u 15) 3 + 132)%Z in
  let t := Z.shiftl t (Z.shiftr (Z.land u 112) 4) in
  if Z.testbit u 7 then (132 - t)%Z else (t - 132)%Z.

Definition byte_of_Z (z : Z) : byte :=
  default x00 (Byte.of_N (Z.to_N (z mod 256))).

Definition Z_of_byte (b : byte) : Z := Z.of_N (Byte.to_N b).

(** A sample as two bytes, little endian, two's complement. *)
Definition int16_le (v : Z) : bytes :=
  let w := (v mod 65536)%Z in [byte_of_Z w; byte_of_Z (w / 256)].

(** [audioop.ulaw2lin(fragment, 2)] *)
Definition ulaw2lin (fragment : bytes) : bytes :=
  flat_map (fun b => int16_le (ulaw2linear16 (Z_of_byte b))) fragment.

Definition signed16 (w : Z) : Z :=
  if (w <? 32768)%Z then w else (w - 65536)%Z.

(** The 16-bit samples of a fragment. *)
Fixpoint samples16 (fragment : bytes) : list Z :=
  match fragment with
  | lo :: hi :: rest =>
      signed16 (Z_of_byte lo + 256 * Z_of_byte hi) :: samples16 rest
  | _ => []
  end.

Definition sum_squares (xs : list Z) : Z :=
  foldr (fun x acc => (x * x + acc)%Z) 0%Z xs.

(** [audioop.rms(fragment, 2)]: the integer part of the root of the mean
    square, 0 on the empty fragment.  The fragments measured by the agent
    come out of [ulaw2lin] and are whole numbers of samples. *)
Definition rms (fragment : bytes) : Z :=
  match samples16 fragment with
  | [] => 0%Z
  | xs => Z.sqrt (sum_squares xs / Z.of_nat (length xs))
  end.

End Audioop.

(** ** VoiceAgent (src/main.py) *)
Module VoiceAgent.

Definition conn_id : Type := nat.   (* id(websocket) *)
Definition loc : Type := nat.       (* object identity *)

(** Entry of [self.connections]; the websocket is identified with its
    connection, the start time is not modelled. *)
Record connection : Type := Connection {
  stream_sid : option string;
  call_sid : option string;
  caller_number : string;
  websocket : conn_id
}.

(** Messages written to the transport; payloads are kept before base64. *)
Inductive out_msg : Type :=
| MediaMsg (streamSid : option string) (payload : bytes)
| ClearMsg (streamSid : option string).

(** The [start] object of a start event: absent fields are [None]. *)
Record start_data : Type := StartData {
  sd_streamSid : option string;
  sd_callSid : option string;
  sd_from : option string
}.

(** Inbound transport messages.  A media payload is [None] when the field is
    missing or the empty string, otherwise the bytes it decodes to. *)
Inductive event : Type :=
| EvStart (d : start_data)
| EvMedia (payload : option bytes)
| EvStop
| EvOther.

(** What the other tasks do while the running task is suspended: the
    connection tasks handle transport input, and the event loop closes an
    asynchronous generator that was left before its end. *)
Inductive incoming : Type :=
| Message (c : conn_id) (ev : event)
| Closed (c : conn_id)             (* the peer closed the websocket *)
| Finalize.                        (* the oldest abandoned generator is closed *)

Inductive task : Type :=
| AsrTask (c : conn_id)
| GreetingTask (c : conn_id).

Record AudioProcessor : Type := Processor {
  audio_queue : list bytes;
  is_processing : bool
}.

Record AudioOutputManager : Type := OutputManager {
  is_playing : bool;
  om_audio_queue : list bytes
}.

Record t : Type := mk {
  connections : gmap conn_id connection   (* self.connections *);
  audio_buffers : gmap conn_id bytes   (* defaultdict(bytearray) *);
  stream_sids : gmap conn_id (option string);
  call_sids : gmap conn_id (option string);
  caller_numbers : gmap conn_id string;
  openai_client : ConversationManager.t   (* conversation manager of the OpenAI client *);
  audio_processors : gmap conn_id loc;
  output_managers : gmap conn_id loc;
  audio_chunkers : gmap conn_id loc;
  response_buffers : gmap conn_id loc;
  is_speaking : gmap conn_id bool   (* defaultdict(bool) *);
  last_transcript : gmap conn_id string   (* defaultdict(str) *);
  heap_processors : list AudioProcessor   (* objects, by location *);
  heap_outputs : list AudioOutputManager;
  heap_chunkers : list bytes   (* buffer of each AudioChunker(); chunk_size stays 160 *);
  heap_buffers : list ResponseBuffer.t;
  tasks : list task   (* asyncio.create_task calls, in order *);
  tts_requests : list string   (* texts submitted to the synthesis service *);
  sent : list (conn_id * out_msg)   (* websocket.send calls, in order *);
  closed : gset conn_id   (* websockets closed by the peer *);
  inbox : list (list incoming)   (* what the other tasks do at each suspension point *);
  abandoned : list loc   (* generators of synthesize_and_queue left at their yield, oldest first *)
}.

Definition set_connections (v : gmap conn_id connection) (s : t) : t :=
  mk v (audio_buffers s) (stream_sids s) (call_sids s) (caller_numbers s) (openai_client s) (audio_processors s) (output_managers s) (audio_chunkers s) (response_buffers s) (is_speaking s) (last_transcript s) (heap_processors s) (heap_outputs s) (heap_chunkers s) (heap_buffers s) (tasks s) (tts_requests s) (sent s) (closed s) (inbox s) (abandoned s).

Definition set_audio_buffers (v : gmap conn_id bytes) (s : t) : t :=
  mk (connections s) v (stream_sids s) (call_sids s) (caller_numbers s) (openai_client s) (audio_processors s) (output_managers s) (audio_chunkers s) (response_buffers s) (is_speaking s) (last_transcript s) (heap_processors s) (heap_outputs s) (heap_chunkers s) (heap_buffers s) (tasks s) (tts_requests s) (sent s) (closed s) (inbox s) (abandoned s).

Definition set_stream_sids (v : gmap conn_id (option string)) (s : t) : t :=
  mk (connections s) (audio_buffers s) v (call_sids s) (caller_numbers s) (openai_client s) (audio_processors s) (output_managers s) (audio_chunkers s) (response_buffers s) (is_speaking s) (last_transcript s) (heap_processors s) (heap_outputs s) (heap_chunkers s) (heap_buffers s) (tasks s) (tts_requests s) (sent s) (closed s) (inbox s) (abandoned s).

Definition set_call_sids (v : gmap conn_id (option string)) (s : t) : t :=
  mk (connections s) (audio_buffers s) (stream_sids s) v (caller_numbers s) (openai_client s) (audio_processors s) (output_managers s) (audio_chunkers s) (response_buffers s) (is_speaking s) (last_transcript s) (heap_processors s) (heap_outputs s) (heap_chunkers s) (heap_buffers s) (tasks s) (tts_requests s) (sent s) (closed s) (inbox s) (abandoned s).

Definition set_caller_numbers (v : gmap conn_id string) (s : t) : t :=
  mk (connections s) (audio_buffers s) (stream_sids s) (call_sids s) v (openai_client s) (audio_processors s) (output_managers s) (audio_chunkers s) (response_buffers s) (is_speaking s) (last_transcript s) (heap_processors s) (heap_outputs s) (heap_chunkers s) (heap_buffers s) (tasks s) (tts_requests s) (sent s) (closed s) (inbox s) (abandoned s).

Definition set_openai_client (v : ConversationManager.t) (s : t) : t :=
  mk (connections s) (audio_buffers s) (stream_sids s) (call_sids s) (caller_numbers s) v (audio_processors s) (output_managers s) (audio_chunkers s) (response_buffers s) (is_speaking s) (last_transcript s) (heap_processors s) (heap_outputs s) (heap_chunkers s) (heap_buffers s) (tasks s) (tts_requests s) (sent s) (closed s) (inbox s) (abandoned s).

Definition set_audio_processors (v : gmap conn_id loc) (s : t) : t :=
  mk (connections s) (audio_buffers s) (stream_sids s) (call_sids s) (caller_numbers s) (openai_client s) v (output_managers s) (audio_chunkers s) (response_buffers s) (is_speaking s) (last_transcript s) (heap_processors s) (heap_outputs s) (heap_chunkers s) (heap_buffers s) (tasks s) (tts_requests s) (sent s) (closed s) (inbox s) (abandoned s).

Definition set_output_managers (v : gmap conn_id loc) (s : t) : t :=
  mk (connections s) (audio_buffers s) (stream_sids s) (call_sids s) (caller_numbers s) (openai_client s) (audio_processors s) v (audio_chunkers s) (response_buffers s) (is_speaking s) (last_transcript s) (heap_processors s) (heap_outputs s) (heap_chunkers s) (heap_buffers s) (tasks s) (tts_requests s) (sent s) (closed s) (inbox s) (abandoned s).

Definition set_audio_chunkers (v : gmap conn_id loc) (s : t) : t :=
  mk (connections s) (audio_buffers s) (stream_sids s) (call_sids s) (caller_numbers s) (openai_client s) (audio_processors s) (output_managers s) v (response_buffers s) (is_speaking s) (last_transcript s) (heap_processors s) (heap_outputs s) (heap_chunkers s) (heap_buffers s) (tasks s) (tts_requests s) (sent s) (closed s) (inbox s) (abandoned s).

Definition set_response_buffers (v : gmap conn_id loc) (s : t) : t :=
  mk (connections s) (audio_buffers s) (stream_sids s) (call_sids s) (caller_numbers s) (openai_client s) (audio_processors s) (output_managers s) (audio_chunkers s) v (is_speaking s) (last_transcript s) (heap_processors s) (heap_outputs s) (heap_chunkers s) (heap_buffers s) (tasks s) (tts_requests s) (sent s) (closed s) (inbox s) (abandoned s).

Definition set_is_speaking (v : gmap conn_id bool) (s : t) : t :=
  mk (connections s) (audio_buffers s) (stream_sids s) (call_sids s) (caller_numbers s) (openai_client s) (audio_processors s) (output_managers s) (audio_chunkers s) (response_buffers s) v (last_transcript s) (heap_processors s) (heap_outputs s) (heap_chunkers s) (heap_buffers s) (tasks s) (tts_requests s) (sent s) (closed s) (inbox s) (abandoned s).

Definition set_last_transcript (v : gmap conn_id string) (s : t) : t :=
  mk (connections s) (audio_buffers s) (stream_sids s) (call_sids s) (caller_numbers s) (openai_client s) (audio_processors s) (output_managers s) (audio_chunkers s) (response_buffers s) (is_speaking s) v (heap_processors s) (heap_outputs s) (heap_chunkers s) (heap_buffers s) (tasks s) (tts_requests s) (sent s) (closed s) (inbox s) (abandoned s).

Definition set_heap_processors (v : list AudioProcessor) (s : t) : t :=
  mk (connections s) (audio_buffers s) (stream_sids s) (call_sids s) (caller_numbers s) (openai_client s) (audio_processors s) (output_managers s) (audio_chunkers s) (response_buffers s) (is_speaking s) (last_transcript s) v (heap_outputs s) (heap_chunkers s) (heap_buffers s) (tasks s) (tts_requests s) (sent s) (closed s) (inbox s) (abandoned s).

Definition set_heap_outputs (v : list AudioOutputManager) (s : t) : t :=
  mk (connections s) (audio_buffers s) (stream_sids s) (call_sids s) (caller_numbers s) (openai_client s) (audio_processors s) (output_managers s) (audio_chunkers s) (response_buffers s) (is_speaking s) (last_transcript s) (heap_processors s) v (heap_chunkers s) (heap_buffers s) (tasks s) (tts_requests s) (sent s) (closed s) (inbox s) (abandoned s).

Definition set_heap_chunkers (v : list bytes) (s : t) : t :=
  mk (connections s) (audio_buffers s) (stream_sids s) (call_sids s) (caller_numbers s) (openai_client s) (audio_processors s) (output_managers s) (audio_chunkers s) (response_buffers s) (is_speaking s) (last_transcript s) (heap_processors s) (heap_outputs s) v (heap_buffers s) (tasks s) (tts_requests s) (sent s) (closed s) (inbox s) (abandoned s).

Definition set_heap_buffers (v : list ResponseBuffer.t) (s : t) : t :=
  mk (connections s) (audio_buffers s) (stream_sids s) (call_sids s) (caller_numbers s) (openai_client s) (audio_processors s) (output_managers s) (audio_chunkers s) (response_buffers s) (is_speaking s) (last_transcript s) (heap_processors s) (heap_outputs s) (heap_chunkers s) v (tasks s) (tts_requests s) (sent s) (closed s) (inbox s) (abandoned s).

Definition set_tasks (v : list task) (s : t) : t :=
  mk (connections s) (audio_buffers s) (stream_sids s) (call_sids s) (caller_numbers s) (openai_client s) (audio_processors s) (output_managers s) (audio_chunkers s) (response_buffers s) (is_speaking s) (last_transcript s) (heap_processors s) (heap_outputs s) (heap_chunkers s) (heap_buffers s) v (tts_requests s) (sent s) (closed s) (inbox s) (abandoned s).

Definition set_tts_requests (v : list string) (s : t) : t :=
  mk (connections s) (audio_buffers s) (stream_sids s) (call_sids s) (caller_numbers s) (openai_client s) (audio_processors s) (output_managers s) (audio_chunkers s) (response_buffers s) (is_speaking s) (last_transcript s) (heap_processors s) (heap_outputs s) (heap_chunkers s) (heap_buffers s) (tasks s) v (sent s) (closed s) (inbox s) (abandoned s).

Definition set_sent (v : list (conn_id * out_msg)) (s : t) : t :=
  mk (connections s) (audio_buffers s) (stream_sids s) (call_sids s) (caller_numbers s) (openai_client s) (audio_processors s) (output_managers s) (audio_chunkers s) (response_buffers s) (is_speaking s) (last_transcript s) (heap_processors s) (heap_outputs s) (heap_chunkers s) (heap_buffers s) (tasks s) (tts_requests s) v (closed s) (inbox s) (abandoned s).

Definition set_closed (v : gset conn_id) (s : t) : t :=
  mk (connections s) (audio_buffers s) (stream_sids s) (call_sids s) (caller_numbers s) (openai_client s) (audio_processors s) (output_managers s) (audio_chunkers s) (response_buffers s) (is_speaking s) (last_transcript s) (heap_processors s) (heap_outputs s) (heap_chunkers s) (heap_buffers s) (tasks s) (tts_requests s) (sent s) v (inbox s) (abandoned s).

Definition set_inbox (v : list (list incoming)) (s : t) : t :=
  mk (connections s) (audio_buffers s) (stream_sids s) (call_sids s) (caller_numbers s) (openai_client s) (audio_processors s) (output_managers s) (audio_chunkers s) (response_buffers s) (is_speaking s) (last_transcript s) (heap_processors s) (heap_outputs s) (heap_chunkers s) (heap_buffers s) (tasks s) (tts_requests s) (sent s) (closed s) v (abandoned s).

Definition set_abandoned (v : list loc) (s : t) : t :=
  mk (connections s) (audio_buffers s) (stream_sids s) (call_sids s) (caller_numbers s) (openai_client s) (audio_processors s) (output_managers s) (audio_chunkers s) (response_buffers s) (is_speaking s) (last_transcript s) (heap_processors s) (heap_outputs s) (heap_chunkers s) (heap_buffers s) (tasks s) (tts_requests s) (sent s) (closed s) (inbox s) v.

Definition init : t :=
  mk ∅ ∅ ∅ ∅ ∅ ConversationManager.init ∅ ∅ ∅ ∅ ∅ ∅ [] [] [] [] [] [] [] ∅ [] [].

(** *** State and exception monad *)

Definition M (A : Type) : Type := t -> t * result A.

Definition ret {A : Type} (a : A) : M A := fun s => (s, Ok a).

Definition raise {A : Type} (e : exn) : M A := fun s => (s, Raise e).

Definition mbind_M {A B : Type} (m : M A) (k : A -> M B) : M B := fun s =>
  match m s with
  | (s', Ok a) => k a s'
  | (s', Raise e) => (s', Raise e)
  end.

Notation "x <~ m ; k" := (mbind_M m (fun x => k))
  (at level 100, m at next level, k at level 200, right associativity,
   format "x  <~  m ; '/' k").
Notation "m ;; k" := (mbind_M m (fun _ => k))
  (at level 100, k at level 200, right associativity, format "m ;; '/' k").

Definition gets {A : Type} (f : t -> A) : M A := fun s => (s, Ok (f s)).

Definition modify (f : t -> t) : M unit := fun s => (f s, Ok ()).

Definition lift {A : Type} (r : result A) : M A := fun s => (s, r).

(** [try: body except Exception as e: handler] *)
Definition try_except {A : Type} (body : M A) (handler : exn -> M A) : M A :=
  fun s =>
    match body s with
    | (s', Ok a) => (s', Ok a)
    | (s', Raise e) => handler e s'
    end.

(** [try: body finally: fin] *)
Definition try_finally {A : Type} (body : M A) (fin : M unit) : M A :=
  fun s =>
    match body s with
    | (s', r) =>
        match fin s' with
        | (s'', Ok _) => (s'', r)
        | (s'', Raise e) => (s'', Raise e)
        end
    end.

(** *** Dictionaries *)

(** [k in d] *)
Definition mem {V : Type} (k : conn_id) (d : gmap conn_id V) : bool :=
  match d !! k with
  | Some _ => true
  | None => false
  end.

(** [d[k]] *)
Definition getitem {V : Type} (k : conn_id) (d : gmap conn_id V) : result V :=
  match d !! k with
  | Some v => Ok v
  | None => Raise KeyError
  end.

(** [del d[k]] *)
Definition delitem {V : Type} (k : conn_id) (d : gmap conn_id V)
  : result (gmap conn_id V) :=
  match d !! k with
  | Some _ => Ok (delete k d)
  | None => Raise KeyError
  end.

(** [d[k]] on a defaultdict: a missing key is inserted with the default. *)
Definition dd_getitem {V : Type} (dflt : V) (k : conn_id) (d : gmap conn_id V)
  : V * gmap conn_id V :=
  match d !! k with
  | Some v => (v, d)
  | None => (dflt, <[k := dflt]> d)
  end.

(** [if k in d: del d[k]] on one of the agent's dictionaries. *)
Definition discard {V : Type} (k : conn_id) (get : t -> gmap conn_id V)
    (set : gmap conn_id V -> t -> t) : M unit :=
  d <~ gets get;
  if mem k d then (d' <~ lift (delitem k d); modify (set d')) else ret ().

(** *** Objects *)

Definition processor_at (l : loc) (s : t) : AudioProcessor :=
  default (Processor [] false) (heap_processors s !! l).

Definition output_at (l : loc) (s : t) : AudioOutputManager :=
  default (OutputManager false []) (heap_outputs s !! l).

Definition chunker_at (l : loc) (s : t) : AudioChunker.t :=
  AudioChunker.mk 160 (default [] (heap_chunkers s !! l)).

Definition buffer_at (l : loc) (s : t) : ResponseBuffer.t :=
  default ResponseBuffer.init (heap_buffers s !! l).

Definition store_processor (l : loc) (p : AudioProcessor) : M unit :=
  modify (fun s => set_heap_processors (<[l := p]> (heap_processors s)) s).

Definition store_output (l : loc) (o : AudioOutputManager) : M unit :=
  modify (fun s => set_heap_outputs (<[l := o]> (heap_outputs s)) s).

Definition store_chunker (l : loc) (ck : AudioChunker.t) : M unit :=
  modify (fun s =>
    set_heap_chunkers (<[l := AudioChunker.buffer ck]> (heap_chunkers s)) s).

Definition store_buffer (l : loc) (rb : ResponseBuffer.t) : M unit :=
  modify (fun s => set_heap_buffers (<[l := rb]> (heap_buffers s)) s).

(** [AudioProcessor.stop_processing] *)
Definition stop_processing (l : loc) : M unit :=
  p <~ gets (processor_at l);
  store_processor l (Processor (audio_queue p) false).

(** [AudioProcessor.add_audio]: the queue is unbounded. *)
Definition processor_add_audio (l : loc) (audio_chunk : bytes) : M unit :=
  p <~ gets (processor_at l);
  store_processor l (Processor (audio_queue p ++ [audio_chunk]) (is_processing p)).

(** [AudioOutputManager.interrupt]: playback flag down, queue drained. *)
Definition interrupt (l : loc) : M unit :=
  store_output l (OutputManager false []).

Definition set_playing (l : loc) (b : bool) : M unit :=
  o <~ gets (output_at l);
  store_output l (OutputManager b (om_audio_queue o)).

(** [finally: self.is_playing = False] of [synthesize_and_queue]: it runs
    when the generator returns or raises, and, for a generator left at its
    [yield], when the event loop closes it. *)
Definition generator_exit (l : loc) : M unit := set_playing l false.

(** The consumer leaves the [async for] while the generator of
    [synthesize_and_queue] is suspended at its [yield]: the generator is not
    resumed any more, and the event loop closes it at a later suspension
    point. *)
Definition abandon (l : loc) : M unit :=
  modify (fun s => set_abandoned (abandoned s ++ [l]) s).

(** *** Per-connection resources created by [handle_connection] *)
Definition handle_connection_init (c : conn_id) : M unit :=
  modify (fun s =>
    set_audio_processors (<[c := length (heap_processors s)]> (audio_processors s))
      (set_heap_processors (heap_processors s ++ [Processor [] false]) s));;
  modify (fun s =>
    set_output_managers (<[c := length (heap_outputs s)]> (output_managers s))
      (set_heap_outputs (heap_outputs s ++ [OutputManager false []]) s));;
  modify (fun s =>
    set_audio_chunkers (<[c := length (heap_chunkers s)]> (audio_chunkers s))
      (set_heap_chunkers (heap_chunkers s ++ [[]]) s));;
  modify (fun s =>
    set_response_buffers (<[c := length (heap_buffers s)]> (response_buffers s))
      (set_heap_buffers (heap_buffers s ++ [ResponseBuffer.init]) s)).

(** *** Event handlers *)

Definition cleanup_connection (c : conn_id) : M unit :=
  (* Stop audio processing *)
  aps <~ gets audio_processors;
  (if mem c aps then
     (l <~ lift (getitem c aps);
      stop_processing l;;
      aps' <~ lift (delitem c aps);
      modify (set_audio_processors aps'))
   else ret ());;
  (* Clear conversation history *)
  caller_id <~ gets (fun s => caller_numbers s !! c);
  (match caller_id with
   | Some (String a rest) =>
       modify (fun s =>
         set_openai_client
           (ConversationManager.clear_caller_history (openai_client s)
              (String a rest)) s)
   | _ => ret ()
   end);;
  (* Clean up other resources *)
  discard c connections set_connections;;
  discard c audio_buffers set_audio_buffers;;
  discard c stream_sids set_stream_sids;;
  discard c call_sids set_call_sids;;
  discard c caller_numbers set_caller_numbers;;
  discard c output_managers set_output_managers;;
  discard c audio_chunkers set_audio_chunkers;;
  discard c response_buffers set_response_buffers;;
  discard c is_speaking set_is_speaking;;
  discard c last_transcript set_last_transcript.

Definition handle_start (d : start_data) (c : conn_id) : M unit :=
  let stream_sid := sd_streamSid d in
  let call_sid := sd_callSid d in
  let caller_number := default "Unknown" (sd_from d) in
  modify (fun s => set_stream_sids (<[c := stream_sid]> (stream_sids s)) s);;
  modify (fun s => set_call_sids (<[c := call_sid]> (call_sids s)) s);;
  modify (fun s => set_caller_numbers (<[c := caller_number]> (caller_numbers s)) s);;
  modify (fun s =>
    set_connections
      (<[c := Connection stream_sid call_sid caller_number c]> (connections s)) s);;
  modify (fun s => set_tasks (tasks s ++ [AsrTask c]) s);;
  modify (fun s => set_tasks (tasks s ++ [GreetingTask c]) s).

(** [self.is_speaking[connection_id]] *)
Definition read_is_speaking (c : conn_id) : M bool :=
  d <~ gets is_speaking;
  let '(b, d') := dd_getitem false c d in
  modify (set_is_speaking d');;
  ret b.

Definition write_is_speaking (c : conn_id) (b : bool) : M unit :=
  modify (fun s => set_is_speaking (<[c := b]> (is_speaking s)) s).

Definition handle_media (payload : option bytes) (c : conn_id) : M unit :=
  aps <~ gets audio_processors;
  match payload with
  | Some audio_bytes =>
      if mem c aps then
        let pcm_audio := Audioop.ulaw2lin audio_bytes in
        speaking <~ read_is_speaking c;
        (if speaking then
           let audio_level := Audioop.rms pcm_audio in
           if (500 <? audio_level)%Z then
             oms <~ gets output_managers;
             om <~ lift (getitem c oms);
             interrupt om;;
             write_is_speaking c false
           else ret ()
         else ret ());;
        l <~ lift (getitem c aps);
        processor_add_audio l pcm_audio
      else ret ()
  | None => ret ()
  end.

Definition handle_stop (c : conn_id) : M unit := cleanup_connection c.

Definition process_message (ev : event) (c : conn_id) : M unit :=
  try_except
    (match ev with
     | EvStart d => handle_start d c
     | EvMedia payload => handle_media payload c
     | EvStop => handle_stop c
     | EvOther => ret ()
     end)
    (fun _ => ret ()).

(** What the connection tasks do with one piece of transport input, and
    what closing the oldest abandoned generator does. *)
Definition deliver (s : t) (i : incoming) : t :=
  match i with
  | Message c ev => (process_message ev c s).1
  | Closed c =>
      (cleanup_connection c (set_closed ({[c]} ∪ closed s) s)).1
  | Finalize =>
      match abandoned s with
      | [] => s
      | l :: later => (generator_exit l (set_abandoned later s)).1
      end
  end.

(** A suspension point of the running task: the transport input that
    arrives meanwhile is handled by the connection tasks, and abandoned
    generators may be closed. *)
Definition await : M unit := fun s =>
  match inbox s with
  | [] => (s, Ok ())
  | batch :: later => (foldl deliver (set_inbox later s) batch, Ok ())
  end.

(** [await websocket.send(json.dumps(message))] *)
Definition send (ws : conn_id) (m : out_msg) : M unit :=
  cl <~ gets closed;
  if decide (ws ∈ cl) then raise ConnectionClosed
  else (modify (fun s => set_sent (sent s ++ [(ws, m)]) s);; await).

Definition apology : string :=
  "I apologize, but I'm having trouble processing that.".

Definition greeting : string :=
  "Hello! I'm your AI assistant. How can I help you today?".

Section Pipeline.

(** The synthesis service: the linear-PCM chunks produced for a text. *)
Variable synthesize : string -> list bytes.

(** [audioop.lin2ulaw(fragment, 2)] *)
Variable lin2ulaw : bytes -> result bytes.

(** [for chunk in chunks]: one media message per chunk, then the 20 ms
    sleep. *)
Fixpoint send_chunks (ws : conn_id) (sid : option string) (chunks : list bytes)
  : M unit :=
  match chunks with
  | [] => ret ()
  | chunk :: more =>
      send ws (MediaMsg sid chunk);;
      await;;
      send_chunks ws sid more
  end.

(** [async for audio_chunk in output_manager.synthesize_and_queue(text)]
    with the loop body of [synthesize_and_send]; [pcm] is what the synthesis
    service still has to deliver.  The generator runs its [finally] clause
    when it ends by itself: the synthesis is exhausted, playback was
    interrupted, or the conversion raises.  When the consumer leaves the
    loop, by its [break] or by an exception of its body, the generator is
    left suspended at its [yield]. *)
Fixpoint speak_loop (c ws : conn_id) (sid : option string) (om ck : loc)
    (pcm : list bytes) : M unit :=
  match pcm with
  | [] => await;; generator_exit om
  | audio_chunk :: rest =>
      await;;
      o <~ gets (output_at om);
      if negb (is_playing o) then generator_exit om   (* TTS playback interrupted *)
      else
        ulaw_audio <~ try_except (lift (lin2ulaw audio_chunk))
                        (fun e => generator_exit om;; raise e);
        speaking <~ read_is_speaking c;
        if negb speaking then abandon om              (* Interrupted *)
        else
          k <~ gets (chunker_at ck);
          let '(chunks, k') := AudioChunker.add_audio_total k ulaw_audio in
          store_chunker ck k';;
          try_except (send_chunks ws sid chunks)
            (fun e => abandon om;; raise e);;
          speak_loop c ws sid om ck rest
  end.

Definition synthesize_and_send (c : conn_id) (text : string) : M unit :=
  conns <~ gets connections;
  if negb (mem c conns) then ret ()
  else
    conn <~ lift (getitem c conns);
    let ws := websocket conn in
    sids <~ gets stream_sids;
    sid <~ lift (getitem c sids);
    oms <~ gets output_managers;
    output_manager <~ lift (getitem c oms);
    cks <~ gets audio_chunkers;
    chunker <~ lift (getitem c cks);
    try_finally
      (try_except
         (write_is_speaking c true;;
          (* the generator starts: playback flag up, text submitted *)
          set_playing output_manager true;;
          modify (fun s => set_tts_requests (tts_requests s ++ [text]) s);;
          speak_loop c ws sid output_manager chunker (synthesize text);;
          (* Send any remaining audio *)
          k <~ gets (chunker_at chunker);
          let '(remaining, k') := AudioChunker.get_remaining k in
          store_chunker chunker k';;
          match remaining with
          | [] => ret ()
          | _ :: _ => send ws (MediaMsg sid remaining)
          end)
         (fun _ => ret ()))
      (write_is_speaking c false).

(** [for sentence in complete_sentences] *)
Fixpoint speak_all (c : conn_id) (sentences : list string) : M unit :=
  match sentences with
  | [] => ret ()
  | sentence :: more => synthesize_and_send c sentence;; speak_all c more
  end.

(** The body of [async for chunk in process_transcript(...)], for the chunks
    the generator yields. *)
Fixpoint consume (c : conn_id) (rb : loc) (chunks : list string) : M unit :=
  match chunks with
  | [] => ret ()
  | chunk :: more =>
      b <~ gets (buffer_at rb);
      store_buffer rb (ResponseBuffer.add_chunk b chunk);;
      b1 <~ gets (buffer_at rb);
      r <~ lift (ResponseBuffer.get_complete_sentences b1);
      store_buffer rb r.2;;
      speak_all c r.1;;
      await;;
      consume c rb more
  end.

(** The [try] block of [process_with_ai]. *)
Definition respond (c : conn_id) (transcript caller_id : string) (rb : loc)
    (r : ConversationManager.api_reply) : M unit :=
  modify (fun s =>
    set_openai_client
      (ConversationManager.begin_request (openai_client s) transcript
         caller_id true).1 s);;
  await;;
  consume c rb (ConversationManager.yields true r);;
  modify (fun s =>
    set_openai_client
      (ConversationManager.finish (openai_client s) caller_id true r) s);;
  (* Send any remaining text *)
  b <~ gets (buffer_at rb);
  let remaining := ResponseBuffer.get_remaining b in
  if PyStr.strip_nonempty remaining then synthesize_and_send c remaining
  else ret ().

Definition process_with_ai (c : conn_id) (transcript : string)
    (r : ConversationManager.api_reply) : M unit :=
  conns <~ gets connections;
  if negb (mem c conns) then ret ()
  else
    caller_id <~ gets (fun s => default "unknown" (caller_numbers s !! c));
    rbs <~ gets response_buffers;
    response_buffer <~ lift (getitem c rbs);
    b <~ gets (buffer_at response_buffer);
    store_buffer response_buffer (ResponseBuffer.clear b);;
    try_except
      (respond c transcript caller_id response_buffer r)
      (fun _ => synthesize_and_send c apology).

(** The callback [handle_transcript] of [start_asr_processing]. *)
Definition handle_transcript (c : conn_id)
    (result : RivaASRClient.transcript_result)
    (r : ConversationManager.api_reply) : M unit :=
  let transcript := RivaASRClient.transcript result in
  if RivaASRClient.is_final result && PyStr.strip_nonempty transcript then
    modify (fun s => set_last_transcript (<[c := transcript]> (last_transcript s)) s);;
    process_with_ai c transcript r
  else ret ().

(** [async for result in streaming_recognize(...)]: the callback on each
    result. *)
Fixpoint transcripts (c : conn_id)
    (results : list (RivaASRClient.transcript_result * ConversationManager.api_reply))
  : M unit :=
  match results with
  | [] => ret ()
  | (result, r) :: more => handle_transcript c result r;; transcripts c more
  end.

Definition start_asr_processing (c : conn_id)
    (results : list (RivaASRClient.transcript_result * ConversationManager.api_reply))
  : M unit :=
  aps <~ gets audio_processors;
  if negb (mem c aps) then ret ()
  else
    l <~ lift (getitem c aps);
    p <~ gets (processor_at l);
    store_processor l (Processor (audio_queue p) true);;
    try_finally
      (try_except (transcripts c results) (fun _ => ret ()))
      (p' <~ gets (processor_at l);
       store_processor l (Processor (audio_queue p') false)).

Definition send_greeting (c : conn_id) : M unit :=
  await;;
  synthesize_and_send c greeting.

End Pipeline.

End VoiceAgent.


(** ** Notions used in the statements about the agent *)
Module AgentSpec.
Import VoiceAgent.

(** [m] relates every state to the state it leaves, whatever it returns. *)
Definition preserves {A : Type} (R : relation t) (m : M A) : Prop :=
  forall s, R s (m s).1.

(** The two states agree on what [f] observes. *)
Definition same {X : Type} (f : t -> X) : relation t :=
  fun s s' => f s' = f s.

(** What the connection tasks never touch: the transport output, the
    requests made to the synthesis and generation services, the segmenter
    and chunker objects. *)
Definition env_view (s : t) :=
  (sent s, tts_requests s, ConversationManager.api_calls (openai_client s),
   heap_buffers s, heap_chunkers s).

(** The requests made to the two services. *)
Definition service_view (s : t) :=
  (tts_requests s, ConversationManager.api_calls (openai_client s)).

(** The requests received by the generation service. *)
Definition calls_view (s : t) : list ConversationManager.api_call :=
  ConversationManager.api_calls (openai_client s).

(** The registry entries of the sessions. *)
Definition session_view (s : t) :=
  (connections s, stream_sids s, output_managers s, audio_chunkers s,
   response_buffers s, caller_numbers s).

(** What can happen at a suspension point other than a start, a stop or a
    close of a connection: audio and unknown messages, and the closing of an
    abandoned generator. *)
Definition media_input (i : incoming) : Prop :=
  match i with
  | Message _ (EvMedia _) | Message _ EvOther | Finalize => True
  | _ => False
  end.

(** Everything still to happen at the suspension points is of that kind. *)
Definition media_only (s : t) : Prop :=
  Forall (Forall media_input) (inbox s).

(** A step during which, if only audio arrives, the sessions stay
    registered. *)
Definition calm : relation t :=
  fun s s' => media_only s -> session_view s' = session_view s /\ media_only s'.

(** The value of [self.is_speaking[connection_id]]. *)
Definition speaking (c : conn_id) (s : t) : bool :=
  default false (is_speaking s !! c).

(** The session of a connection is live: the registry entries read at the
    start of [synthesize_and_send] are there. *)
Definition live (c : conn_id) (s : t) : Prop :=
  is_Some (connections s !! c) /\ is_Some (stream_sids s !! c)
  /\ is_Some (output_managers s !! c) /\ is_Some (audio_chunkers s !! c).

(** The speaking flag is only ever up for a live session. *)
Definition flag_sound (c : conn_id) (s : t) : Prop :=
  speaking c s = true -> live c s.

(** A step that keeps the speaking flag sound. *)
Definition sound_step (c : conn_id) : relation t :=
  fun s s' => flag_sound c s -> flag_sound c s'.

(** Nothing is sent, and an output manager that is not playing stays so. *)
Definition quiet (om : loc) : relation t :=
  fun s s' =>
    sent s' = sent s
    /\ heap_chunkers s' = heap_chunkers s
    /\ (is_playing (output_at om s) = false ->
        is_playing (output_at om s') = false).

(** No dictionary of the agent has an entry for the connection. *)
Definition released (c : conn_id) (s : t) : Prop :=
  audio_processors s !! c = None /\ caller_numbers s !! c = None
  /\ connections s !! c = None /\ audio_buffers s !! c = None
  /\ stream_sids s !! c = None /\ call_sids s !! c = None
  /\ output_managers s !! c = None /\ audio_chunkers s !! c = None
  /\ response_buffers s !! c = None /\ is_speaking s !! c = None
  /\ last_transcript s !! c = None.

(** First part of the cleanup: the audio processor is stopped and its entry
    removed. *)
Definition stop_audio (c : conn_id) (s : t) : t :=
  match audio_processors s !! c with
  | Some l =>
      set_audio_processors (delete c (audio_processors s))
        (set_heap_processors
           (<[l := Processor (audio_queue (processor_at l s)) false]>
              (heap_processors s)) s)
  | None => s
  end.

(** Second part: the history of the caller is cleared when the connection
    has a non-empty caller number. *)
Definition forget_caller (c : conn_id) (s : t) : t :=
  match caller_numbers s !! c with
  | Some (String a rest) =>
      set_openai_client
        (ConversationManager.clear_caller_history (openai_client s)
           (String a rest)) s
  | _ => s
  end.

(** Third part: the ten guarded deletions. *)
Definition drop_entries (c : conn_id) (s : t) : t :=
  let s := set_connections (delete c (connections s)) s in
  let s := set_audio_buffers (delete c (audio_buffers s)) s in
  let s := set_stream_sids (delete c (stream_sids s)) s in
  let s := set_call_sids (delete c (call_sids s)) s in
  let s := set_caller_numbers (delete c (caller_numbers s)) s in
  let s := set_output_managers (delete c (output_managers s)) s in
  let s := set_audio_chunkers (delete c (audio_chunkers s)) s in
  let s := set_response_buffers (delete c (response_buffers s)) s in
  let s := set_is_speaking (delete c (is_speaking s)) s in
  set_last_transcript (delete c (last_transcript s)) s.

(** The cleanup path invoked [n] times in sequence. *)
Fixpoint cleanup_times (n : nat) (c : conn_id) : M unit :=
  match n with
  | O => ret ()
  | S n' => cleanup_connection c;; cleanup_times n' c
  end.

End AgentSpec.

(** ** Concrete calls used to exercise the model *)
Module Scenario.
Import VoiceAgent.

Definition caller : string := "+15551234567".

(** A connection accepted by [handle_connection] and started by a start
    event from [caller]. *)
Definition started (c : conn_id) (s : t) : t :=
  (handle_start (StartData (Some "MZ0001") (Some "CA0001") (Some caller)) c
     (handle_connection_init c s).1).1.

(** One live call on connection 7. *)
Definition one_call : t := started 7 init.

(** Two live calls from the same caller, on connections 7 and 8, after one
    exchange with the generation service. *)
Definition two_calls : t :=
  let s := started 8 (started 7 init) in
  set_openai_client
    (ConversationManager.serve (openai_client s)
       (ConversationManager.Ask "hi" caller
          (ConversationManager.Reply [Some "Hello there"] None (Ok ""))))
    s.

(** The call on connection 7 while a fragment is being played. *)
Definition speaking_call : t :=
  ((write_is_speaking 7 true;; set_playing 0 true) one_call).1.

(** A frame of 160 mu-law bytes at full negative amplitude. *)
Definition loud_frame : bytes := replicate 160 x00.

(** A synthesis service that answers every text with two and a half frames
    of silence, and the mu-law encoding of silence. *)
Definition silence (text : string) : list bytes :=
  [replicate 320 x00; replicate 320 x00; replicate 160 x00].

Definition encode_silence (fragment : bytes) : result bytes :=
  Ok (replicate (length fragment / 2) xff).

(** The call on connection 7 with text of an earlier response still in its
    pending-response buffer. *)
Definition pending_call : t :=
  (store_buffer 0 (ResponseBuffer.mk ["Earlier "; "words"] false) one_call).1.

(** A call whose start message carried an empty caller number, after one
    exchange with the generation service. *)
Definition anonymous_call : t :=
  let s := (handle_start (StartData (Some "MZ0003") (Some "CA0003") (Some "")) 7
              (handle_connection_init 7 init).1).1 in
  (process_with_ai silence encode_silence 7 "hi"
     (ConversationManager.Reply [Some "Hello"] None (Ok "")) s).1.

End Scenario.

(** ** Notions used in the further properties *)
Module ConversationSpec.
Import ConversationManager.

(** Requests of one caller that all end without error. *)
Definition answered (caller_id : string) (q : request) : Prop :=
  match q with
  | Ask _ c r => c = caller_id /\ stream_error r = None
  | Forget _ => False
  end.

End ConversationSpec.

Module RecognitionSpec.
Import RivaASRClient.

(** The results yielded, in order. *)
Fixpoint emitted (tr : list event) : list transcript_result :=
  match tr with
  | [] => []
  | Pull _ :: tr' => emitted tr'
  | Emit r _ :: tr' => r :: emitted tr'
  end.

End RecognitionSpec.

(** ** RivaTTSClient.synthesize (src/services/riva_tts_client.py) *)
Module RivaTTSClient.

(** [range(0, stop, step)] for a positive step. *)
Definition py_range (stop step : nat) : list nat :=
  map (fun k => k * step)%nat (seq 0 ((stop + step - 1) / step)).

(** The placeholder synthesis: [sample_count * 2] zero bytes, yielded in
    slices of 320 bytes.  [sample_count] is the value of
    [int(8000 * (len(text) * 0.05))], a floating-point computation that is
    left to the caller. *)
Definition synthesize (sample_count : nat) : list bytes :=
  let silence := replicate (sample_count * 2) x00 in
  let chunk_size := 320%nat in
  map (fun i => take chunk_size (drop i silence))
      (py_range (length silence) chunk_size).

End RivaTTSClient.

(** ** Notions used in the further properties of the agent *)
Module AgentMore.
Import VoiceAgent AgentSpec.

(** The dictionary entries of one connection. *)
Definition entries (c : conn_id) (s : t) :=
  (connections s !! c, audio_buffers s !! c, stream_sids s !! c,
   call_sids s !! c, caller_numbers s !! c, audio_processors s !! c,
   output_managers s !! c, audio_chunkers s !! c, response_buffers s !! c,
   is_speaking s !! c, last_transcript s !! c).

(** Media messages of one connection, one per payload. *)
Definition media_batch (c : conn_id) (payloads : list bytes) : list incoming :=
  map (fun p => Message c (EvMedia (Some p))) payloads.

(** The audio put on the queue of the audio processor at a location, in
    the order of the puts; what the recognizer takes is not removed. *)
Definition queue_at (l : loc) (s : t) : list bytes :=
  audio_queue (processor_at l s).

(** The bytes left in the chunker at a location. *)
Definition residual (ck : loc) (s : t) : bytes :=
  default [] (heap_chunkers s !! ck).

(** A media message of 160 payload bytes for the given websocket and
    stream. *)
Definition frame_for (ws : conn_id) (sid : option string)
    (m : conn_id * out_msg) : Prop :=
  exists payload, m = (ws, MediaMsg sid payload) /\ length payload = 160%nat.

(** A step that only adds whole frames to the transport output and keeps
    less than one frame in the chunker. *)
Definition emits_frames (ws : conn_id) (sid : option string) (ck : loc)
  : relation t :=
  fun s s' =>
    (length (residual ck s) < 160)%nat ->
    (length (residual ck s') < 160)%nat
    /\ exists l, sent s' = sent s ++ l /\ Forall (frame_for ws sid) l.

(** Playback at an output manager is settled: the manager is not playing,
    or a generator of its [synthesize_and_queue] was left at its [yield]
    and is still waiting to be closed by the event loop, which will lower
    the flag. *)
Definition settled (om : loc) (s : t) : Prop :=
  is_playing (output_at om s) = false \/ om ∈ abandoned s.

(** A step that keeps the playback at an output manager settled. *)
Definition stays_settled (om : loc) : relation t :=
  fun s s' => settled om s -> settled om s'.

(** A step during which, if only audio arrives, the sessions stay
    registered and the conversations are not touched. *)
Definition steady : relation t :=
  fun s s' =>
    media_only s ->
    session_view s' = session_view s
    /\ openai_client s' = openai_client s
    /\ media_only s'.

End AgentMore.

Module ScenarioMore.
Import VoiceAgent.

(** The call on connection 7 after its stop message. *)
Definition stopped_call : t := (cleanup_connection 7 Scenario.one_call).1.

(** The call on connection 7 when audio arrives at the next suspension
    point and the stop message at the one after. *)
Definition greeted_call : t :=
  set_inbox [[Message 7 (EvMedia (Some Scenario.loud_frame))];
             [Message 7 EvStop]] Scenario.one_call.

(** The call on connection 7 when the peer has closed the websocket and the
    connection task has not handled the close yet. *)
Definition hung_up_call : t := set_closed {[7%nat]} Scenario.one_call.

End ScenarioMore.
(** * Properties *)

(** ** Sentence segmenter *)
Section SegmenterFacts.
Import PyStr ResponseBuffer.

Lemma space_not_end (c : ascii) : is_space c = true -> is_end c = false.
Proof.
  destruct c as [b0 b1 b2 b3 b4 b5 b6 b7].
  destruct b0, b1, b2, b3, b4, b5, b6, b7; vm_compute; congruence.
Qed.

Lemma split_go_nonempty (sk : bool) (cur : list ascii) (s : string) :
  (1 <= length (split_go sk cur s))%nat.
Proof.
  revert sk cur; induction s as [|c rest IH]; intros sk cur; simpl; [lia|].
  destruct (sk && is_space c); [apply IH|].
  destruct (is_end c && starts_with_space rest); simpl; [lia|apply IH].
Qed.

(** A text in which the pattern matches is split into at least two parts. *)
Lemma split_go_search (s : string) (g : string) :
  re_search s = Some g ->
  forall sk cur, (1 < length (split_go sk cur s))%nat.
Proof.
  induction s as [|c rest IH]; simpl; [discriminate|].
  intros Hs sk cur.
  destruct (is_space c) eqn:Hsp.
  - rewrite (space_not_end c Hsp) in Hs |- *; simpl in *.
    destruct sk; simpl; apply IH; exact Hs.
  - rewrite andb_false_r.
    destruct (is_end c && starts_with_space rest).
    + simpl. pose proof (split_go_nonempty true [] rest). lia.
    + apply IH; exact Hs.
Qed.

Lemma collect_raises (text p : string) (ps acc : list string) :
  exists e, collect text (p :: ps) acc = Raise e.
Proof.
  simpl. destruct (re_search text); [exists TypeError|exists AttributeError];
    reflexivity.
Qed.

Lemma removelast_cons2 {A : Type} (l : list A) :
  (1 < length l)%nat -> exists x xs, removelast l = x :: xs.
Proof.
  destruct l as [|a [|b l]]; simpl; try lia. intros _.
  eexists; eexists; reflexivity.
Qed.

(** Whenever the buffered text holds a complete sentence, the extraction
    stops with a TypeError and the buffer is left as it was. *)
Lemma get_complete_sentences_raises (rb : ResponseBuffer.t) (g : string) :
  re_search (join (buffer rb)) = Some g ->
  get_complete_sentences rb = Raise TypeError.
Proof.
  intros Hs. unfold get_complete_sentences.
  pose proof (split_go_search _ _ Hs false []) as Hlen.
  fold (re_split (join (buffer rb))) in Hlen.
  destruct (Nat.ltb_spec 1 (length (re_split (join (buffer rb))))); [|lia].
  destruct (removelast_cons2 _ Hlen) as (x & xs & ->).
  simpl. rewrite Hs. reflexivity.
Qed.

(** The extraction never returns a sentence: it returns the empty list and
    keeps the buffer, or it raises. *)
Lemma get_complete_sentences_ok (rb rb' : ResponseBuffer.t) (ss : list string) :
  get_complete_sentences rb = Ok (ss, rb') -> ss = [] /\ rb' = rb.
Proof.
  unfold get_complete_sentences.
  destruct (Nat.ltb_spec 1 (length (re_split (join (buffer rb))))) as [Hlen|].
  - destruct (removelast_cons2 _ Hlen) as (x & xs & ->).
    destruct (collect_raises (join (buffer rb)) x xs []) as [e ->].
    discriminate.
  - intros [= <- <-]; auto.
Qed.

Lemma append_cons (a : ascii) (s u : string) :
  String a s +:+ u = String a (s +:+ u).
Proof. reflexivity. Qed.

Lemma append_assoc (s u v : string) : (s +:+ u) +:+ v = s +:+ (u +:+ v).
Proof.
  induction s as [|a s IH]; [reflexivity|].
  rewrite !append_cons, IH. reflexivity.
Qed.

Lemma append_nil_r (s : string) : s +:+ "" = s.
Proof.
  induction s as [|a s IH]; [reflexivity|]. rewrite append_cons, IH. reflexivity.
Qed.

Lemma join_app (l1 l2 : list string) : join (l1 ++ l2) = join l1 +:+ join l2.
Proof.
  induction l1 as [|x l1 IH]; simpl; [reflexivity|].
  rewrite IH, append_assoc. reflexivity.
Qed.

Lemma feed_ok (incs : list string) :
  forall rb acc acc' rb',
    feed rb incs acc = Ok (acc', rb') ->
    acc' = acc /\ buffer rb' = buffer rb ++ incs /\ complete rb' = complete rb.
Proof.
  induction incs as [|chunk more IH]; simpl; intros rb acc acc' rb'.
  - intros [= <- <-]. rewrite app_nil_r. auto.
  - destruct (get_complete_sentences (add_chunk rb chunk)) as [[ss rb2]|e] eqn:Hg;
      simpl; [|discriminate].
    apply get_complete_sentences_ok in Hg as [-> ->].
    intros H. apply IH in H as (-> & -> & ->). simpl.
    rewrite app_nil_r, <- app_assoc. auto.
Qed.

(** When the stream is segmented without an exception, no sentence was
    returned and the remainder is the whole text. *)
Lemma segment_stream_ok (incs ss : list string) (rest : string) :
  segment_stream incs = Ok (ss, rest) -> ss = [] /\ rest = join incs.
Proof.
  unfold segment_stream.
  destruct (feed init incs []) as [[acc rb]|e] eqn:Hf; simpl; [|discriminate].
  apply feed_ok in Hf as (-> & Hb & _). intros [= <- <-].
  unfold get_remaining. rewrite Hb. auto.
Qed.

(** C1 (the code fails the claim): feeding the increments "Hello. " and
    "How are you?" does not return the sentence "Hello. " with the remainder
    "How are you?": the call of get_complete_sentences that sees the
    sentence boundary raises TypeError, because the text is indexed with the
    matched separator string.  The same happens for every buffer whose text
    holds a sentence boundary, and a stream that is segmented without an
    exception has returned no sentence at all (its remainder is the whole
    text). *)
Theorem segment_stream_sentence_raises :
  segment_stream ["Hello. "; "How are you?"] = Raise TypeError
  /\ (forall (rb : ResponseBuffer.t) (g : string),
         re_search (join (buffer rb)) = Some g ->
         get_complete_sentences rb = Raise TypeError)
  /\ (forall (incs ss : list string) (rest : string),
         segment_stream incs = Ok (ss, rest) -> ss = [] /\ rest = join incs).
Proof.
  split; [reflexivity|]. split.
  - intros rb g Hs. eapply get_complete_sentences_raises, Hs.
  - intros incs ss rest Hok. apply segment_stream_ok, Hok.
Qed.

End SegmenterFacts.

(** ** Framing of outbound audio *)
Section ChunkerFacts.
Import AudioChunker.

Lemma slice_to_nonneg (k : Z) (b : bytes) :
  (0 <= k)%Z -> slice_to k b = take (Z.to_nat k) b.
Proof. intros H. unfold slice_to. destruct (Z.leb_spec 0 k); [reflexivity|lia]. Qed.

Lemma slice_from_nonneg (k : Z) (b : bytes) :
  (0 <= k)%Z -> slice_from k b = drop (Z.to_nat k) b.
Proof. intros H. unfold slice_from. destruct (Z.leb_spec 0 k); [reflexivity|lia]. Qed.

Lemma drain_positive (size : Z) (fuel : nat) :
  (0 < size)%Z ->
  forall buf chunks, (length buf < fuel)%nat ->
    exists cs buf',
      drain fuel size buf chunks = Some (chunks ++ cs, buf')
      /\ concat cs ++ buf' = buf
      /\ Forall (fun c => len c = size) cs
      /\ (len buf' < size)%Z.
Proof.
  intros Hsize. induction fuel as [|fuel IH]; intros buf chunks Hfuel; [lia|].
  simpl. unfold len in *.
  destruct (Z.leb_spec size (Z.of_nat (length buf))) as [Hle|Hlt].
  - rewrite slice_to_nonneg, slice_from_nonneg by lia.
    destruct (IH (drop (Z.to_nat size) buf)
                 (chunks ++ [take (Z.to_nat size) buf]))
      as (cs & buf' & He & Hc & Hall & Hr).
    { rewrite length_drop. lia. }
    exists (take (Z.to_nat size) buf :: cs), buf'.
    rewrite <- app_assoc in He.
    split; [exact He|]. split; [|split; [|exact Hr]].
    + simpl. rewrite <- app_assoc.
      transitivity (take (Z.to_nat size) buf ++ drop (Z.to_nat size) buf);
        [f_equal; exact Hc|apply take_drop].
    + constructor; [|exact Hall]. rewrite length_take. lia.
  - exists [], buf. rewrite app_nil_r. repeat split; [constructor|lia].
Qed.

(** For a chunk size that is not positive the loop never ends. *)
Lemma drain_diverges (size : Z) (fuel : nat) :
  (size <= 0)%Z -> forall buf chunks, drain fuel size buf chunks = None.
Proof.
  intros Hsize. induction fuel as [|fuel IH]; intros buf chunks; [reflexivity|].
  simpl. unfold len. destruct (Z.leb_spec size (Z.of_nat (length buf))); [|lia].
  apply IH.
Qed.

Lemma add_audio_positive (ck : t) (data : bytes) (fuel : nat) :
  (0 < chunk_size ck)%Z -> (length (buffer ck ++ data) < fuel)%nat ->
  exists cs ck',
    add_audio fuel ck data = Some (cs, ck')
    /\ chunk_size ck' = chunk_size ck
    /\ concat cs ++ buffer ck' = buffer ck ++ data
    /\ Forall (fun c => len c = chunk_size ck) cs
    /\ (len (buffer ck') < chunk_size ck)%Z.
Proof.
  intros Hsize Hfuel. unfold add_audio.
  destruct (drain_positive _ fuel Hsize (buffer ck ++ data) [] Hfuel)
    as (cs & buf' & -> & Hc & Hall & Hr).
  simpl. exists cs, (mk (chunk_size ck) buf'). simpl. auto.
Qed.

Lemma feed_positive (writes : list bytes) :
  forall (ck : t) (acc : list bytes) (fuel : nat),
    (0 < chunk_size ck)%Z ->
    (len (buffer ck) < chunk_size ck)%Z ->
    (length (buffer ck ++ concat writes) < fuel)%nat ->
    exists cs ck',
      feed fuel ck writes acc = Some (acc ++ cs, ck')
      /\ chunk_size ck' = chunk_size ck
      /\ concat cs ++ buffer ck' = buffer ck ++ concat writes
      /\ Forall (fun c => len c = chunk_size ck) cs
      /\ (len (buffer ck') < chunk_size ck)%Z.
Proof.
  induction writes as [|w more IH]; intros ck acc fuel Hsize Hbuf Hfuel; simpl.
  - exists [], ck. rewrite !app_nil_r. repeat split; [constructor|exact Hbuf].
  - simpl in Hfuel. rewrite !length_app in Hfuel.
    destruct (add_audio_positive ck w fuel Hsize)
      as (cs & ck1 & -> & Hs1 & Hc1 & Hall1 & Hr1).
    { rewrite length_app. lia. }
    simpl.
    assert (length (concat cs) + length (buffer ck1)
            = length (buffer ck) + length w)%nat as Hl.
    { rewrite <- !length_app, Hc1. reflexivity. }
    destruct (IH ck1 (acc ++ cs) fuel) as (cs2 & ck2 & -> & Hs2 & Hc2 & Hall2 & Hr2).
    { lia. }
    { lia. }
    { rewrite length_app. lia. }
    exists (cs ++ cs2), ck2. rewrite <- app_assoc.
    repeat split.
    + congruence.
    + rewrite concat_app, <- app_assoc, Hc2, app_assoc, Hc1, <- app_assoc.
      reflexivity.
    + apply Forall_app; split; [exact Hall1|]. rewrite <- Hs1. exact Hall2.
    + rewrite <- Hs1. exact Hr2.
Qed.

(** The final flush: the residual bytes, zero-padded to a whole frame. *)
Lemma get_remaining_pads (ck : t) :
  (len (buffer ck) < chunk_size ck)%Z ->
  exists pad,
    (get_remaining ck).1 = buffer ck ++ replicate pad x00
    /\ (Z.of_nat pad < chunk_size ck)%Z
    /\ ((get_remaining ck).1 = [] \/ len (get_remaining ck).1 = chunk_size ck)
    /\ buffer (get_remaining ck).2 = [].
Proof.
  intros Hlt. unfold get_remaining, len in *.
  destruct (buffer ck) as [|b bs] eqn:Hb.
  - exists 0%nat. simpl. rewrite Hb. repeat split; [simpl in Hlt; lia|auto].
  - destruct (Z.ltb_spec 0 (chunk_size ck - Z.of_nat (length (b :: bs)))); [|lia].
    exists (Z.to_nat (chunk_size ck - Z.of_nat (length (b :: bs)))).
    simpl fst. simpl snd. repeat split.
    + simpl length. lia.
    + right. simpl length in *. rewrite length_app, length_replicate. lia.
Qed.

(** C2: for a positive frame size and any sequence of writes to a new
    chunker, the writes are processed to the end; every chunk returned by
    add_audio has exactly the frame size and the chunks are, in order, a
    prefix of the written bytes; the chunks followed by the final
    get_remaining output are the written bytes followed by less than one
    frame of zero padding, and the flushed frame is empty or exactly one
    frame long. *)
Theorem chunker_roundtrip (size : Z) (writes : list bytes) (fuel : nat) :
  (0 < size)%Z ->
  (length (concat writes) < fuel)%nat ->
  exists (chunks : list bytes) (ck : t) (pad : nat),
    feed fuel (init size) writes [] = Some (chunks, ck)
    /\ Forall (fun c => len c = size) chunks
    /\ concat chunks ++ buffer ck = concat writes
    /\ concat chunks ++ (get_remaining ck).1 = concat writes ++ replicate pad x00
    /\ (Z.of_nat pad < size)%Z
    /\ ((get_remaining ck).1 = [] \/ len (get_remaining ck).1 = size).
Proof.
  intros Hsize Hfuel.
  destruct (feed_positive writes (init size) [] fuel Hsize)
    as (cs & ck & Hf & Hs & Hc & Hall & Hr).
  { exact Hsize. }
  { exact Hfuel. }
  simpl in *.
  destruct (get_remaining_pads ck) as (pad & Hrem & Hpad & Hlen & _); [lia|].
  exists cs, ck, pad. rewrite Hs in *.
  repeat split; try assumption.
  rewrite Hrem, app_assoc, Hc. reflexivity.
Qed.

Lemma chunker_roundtrip_witness :
  exists (chunks : list bytes) (ck : t) (pad : nat),
    feed 6 (init 2) [[x01; x02; x03]; [x04; x05]] [] = Some (chunks, ck)
    /\ Forall (fun c => len c = 2%Z) chunks
    /\ concat chunks ++ buffer ck = concat [[x01; x02; x03]; [x04; x05]]
    /\ concat chunks ++ (get_remaining ck).1
       = concat [[x01; x02; x03]; [x04; x05]] ++ replicate pad x00
    /\ (Z.of_nat pad < 2)%Z
    /\ ((get_remaining ck).1 = [] \/ len (get_remaining ck).1 = 2%Z).
Proof. apply (chunker_roundtrip 2 [[x01; x02; x03]; [x04; x05]] 6); simpl; lia. Defined.

(** With the default frame size the total variant used by the agent agrees
    with the loop. *)
Lemma add_audio_total_spec (ck : t) (data : bytes) :
  (0 < chunk_size ck)%Z ->
  add_audio (S (length (buffer ck ++ data))) ck data
  = Some (add_audio_total ck data).
Proof.
  intros Hsize. unfold add_audio_total.
  destruct (add_audio_positive ck data (S (length (buffer ck ++ data))) Hsize)
    as (cs & ck' & -> & _); [lia|reflexivity].
Qed.

End ChunkerFacts.

(** ** Conversation context *)
Section ConversationFacts.
Import ConversationManager.

Lemma last10_length (l : list message) : (length (last10 l) <= 10)%nat.
Proof. unfold last10. rewrite length_drop. lia. Qed.

Lemma last10_suffix (l : list message) : suffix (last10 l) l.
Proof. apply suffix_drop. Qed.

Lemma history_append_turn (cm : t) (caller_id : string) (m : message) :
  history (append_turn cm caller_id m) caller_id = history cm caller_id ++ [m].
Proof. unfold history at 1, append_turn. simpl. rewrite lookup_insert_eq. reflexivity. Qed.

(** The context of one request: the system prompt, then the last ten turns
    of the caller's history, the new user turn included. *)
Lemma begin_request_messages (cm : t) (text caller_id : string) (stream : bool) :
  (begin_request cm text caller_id stream).2
  = Msg System system_prompt
      :: last10 (history cm caller_id ++ [Msg User text]).
Proof.
  unfold begin_request, build_messages. simpl.
  rewrite history_append_turn. reflexivity.
Qed.

Lemma begin_request_calls (cm : t) (text caller_id : string) (stream : bool) :
  api_calls (begin_request cm text caller_id stream).1
  = api_calls cm
      ++ [Call (Msg System system_prompt
                  :: last10 (history cm caller_id ++ [Msg User text])) stream].
Proof.
  unfold begin_request, build_messages. simpl.
  rewrite history_append_turn. reflexivity.
Qed.

Lemma finish_calls (cm : t) (caller_id : string) (stream : bool) (r : api_reply) :
  api_calls (finish cm caller_id stream r) = api_calls cm.
Proof.
  unfold finish. destruct stream, (stream_error r), (completion r); reflexivity.
Qed.

Lemma get_response_calls (cm : t) (text caller_id : string) (stream : bool)
    (r : api_reply) :
  api_calls (get_response cm text caller_id stream r).2
  = api_calls cm
      ++ [Call (Msg System system_prompt
                  :: last10 (history cm caller_id ++ [Msg User text])) stream].
Proof.
  unfold get_response.
  pose proof (begin_request_calls cm text caller_id stream) as Hb.
  destruct (begin_request cm text caller_id stream) as [cm1 msgs].
  cbn [fst snd] in *. rewrite finish_calls. exact Hb.
Qed.

Lemma clear_caller_history_calls (cm : t) (caller_id : string) :
  api_calls (clear_caller_history cm caller_id) = api_calls cm.
Proof.
  unfold clear_caller_history, clear_conversation.
  destruct (decide _); reflexivity.
Qed.

Lemma serve_calls (cm : t) (q : request) :
  Forall bounded_call (api_calls cm) ->
  Forall bounded_call (api_calls (serve cm q)).
Proof.
  intros Hall. destruct q as [text caller_id r|caller_id]; cbn [serve].
  - rewrite get_response_calls.
    apply Forall_app; split; [exact Hall|].
    constructor; [|constructor].
    eexists; split; [reflexivity|apply last10_length].
  - rewrite clear_caller_history_calls. exact Hall.
Qed.

(** C4: the context passed to the generation service for a request is the
    fixed system prompt followed by the last ten turns of the caller's
    history (the new user turn included), hence never more than ten
    role-tagged turns; and after any sequence of transcripts and history
    clearings, for any callers, every request the service has received
    obeys that bound. *)
Theorem context_window_bounded :
  (forall (cm : t) (text caller_id : string) (stream : bool) (r : api_reply),
      let turns := last10 (history cm caller_id ++ [Msg User text]) in
      (get_response cm text caller_id stream r).1.1
      = Msg System system_prompt :: turns
      /\ (length turns <= 10)%nat
      /\ suffix turns (history cm caller_id ++ [Msg User text]))
  /\ (forall qs : list request,
         Forall bounded_call (api_calls (serve_all init qs))).
Proof.
  split.
  - intros cm text caller_id stream r turns. split; [|split].
    + unfold get_response.
      destruct (begin_request cm text caller_id stream) as [cm1 msgs] eqn:Hb.
      simpl. change msgs with (cm1, msgs).2.
      rewrite <- Hb. apply begin_request_messages.
    + apply last10_length.
    + apply last10_suffix.
  - intros qs. unfold serve_all.
    assert (Forall bounded_call (api_calls init)) as Hinit by constructor.
    revert Hinit. generalize init.
    induction qs as [|q qs IH]; intros cm Hcm; simpl; [exact Hcm|].
    apply IH, serve_calls, Hcm.
Qed.

End ConversationFacts.

(** ** Recognition adapter *)
Section RecognitionFacts.
Import RivaASRClient.

Variable ratecv : bytes -> Z -> Z -> Z -> Z -> result bytes.

Lemma recognize_loop_cons (audio_buffer : list bytes) (frame : bytes)
    (rest : list bytes) (stream_end : option exn) :
  recognize_loop ratecv audio_buffer (frame :: rest) stream_end
  = match resample_audio ratecv frame 8000 16000 with
    | Raise e => ([Pull frame], Raise e)
    | Ok x =>
        if (50 <=? length (audio_buffer ++ [x]))%nat then
          let '(tr, st) := recognize_loop ratecv [] rest stream_end in
          (Pull frame :: Emit placeholder (concat (audio_buffer ++ [x])) :: tr, st)
        else
          let '(tr, st) := recognize_loop ratecv (audio_buffer ++ [x]) rest stream_end in
          (Pull frame :: tr, st)
    end.
Proof. reflexivity. Qed.






End RecognitionFacts.

(** ** The agent: reasoning about the state and exception monad *)
Section MonadFacts.
Import VoiceAgent AgentSpec.

Context (R : relation t) `{!PreOrder R}.

Lemma preserves_ret {A : Type} (a : A) : preserves R (ret a).
Proof. intros s. reflexivity. Qed.

Lemma preserves_raise {A : Type} (e : exn) : preserves R (@raise A e).
Proof. intros s. reflexivity. Qed.

Lemma preserves_gets {A : Type} (f : t -> A) : preserves R (gets f).
Proof. intros s. reflexivity. Qed.

Lemma preserves_lift {A : Type} (r : result A) : preserves R (lift r).
Proof. intros s. reflexivity. Qed.

Lemma preserves_modify (f : t -> t) :
  (forall s, R s (f s)) -> preserves R (modify f).
Proof. intros H s. apply H. Qed.

Lemma preserves_bind {A B : Type} (m : M A) (k : A -> M B) :
  preserves R m -> (forall a, preserves R (k a)) -> preserves R (mbind_M m k).
Proof.
  intros Hm Hk s. unfold mbind_M. specialize (Hm s).
  destruct (m s) as [s' [a|e]]; simpl in *; [|exact Hm].
  etrans; [exact Hm|apply Hk].
Qed.

Lemma preserves_try_except {A : Type} (body : M A) (handler : exn -> M A) :
  preserves R body -> (forall e, preserves R (handler e)) ->
  preserves R (try_except body handler).
Proof.
  intros Hb Hh s. unfold try_except. specialize (Hb s).
  destruct (body s) as [s' [a|e]]; simpl in *; [exact Hb|].
  etrans; [exact Hb|apply Hh].
Qed.

Lemma preserves_try_finally {A : Type} (body : M A) (fin : M unit) :
  preserves R body -> preserves R fin -> preserves R (try_finally body fin).
Proof.
  intros Hb Hf s. unfold try_finally. specialize (Hb s).
  destruct (body s) as [s' r]. specialize (Hf s').
  destruct (fin s') as [s'' [u|e]]; simpl in *; etrans; eauto.
Qed.

End MonadFacts.

(** Structural steps of a [preserves] goal; the obligations left are the
    state updates of [modify] and the calls of other functions. *)
Ltac preserves_step :=
  lazymatch goal with
  | |- AgentSpec.preserves _ (VoiceAgent.mbind_M _ _) =>
      apply preserves_bind; [typeclasses eauto| |intros ?]
  | |- AgentSpec.preserves _ (VoiceAgent.ret _) =>
      apply preserves_ret; typeclasses eauto
  | |- AgentSpec.preserves _ (VoiceAgent.raise _) =>
      apply preserves_raise; typeclasses eauto
  | |- AgentSpec.preserves _ (VoiceAgent.gets _) =>
      apply preserves_gets; typeclasses eauto
  | |- AgentSpec.preserves _ (VoiceAgent.lift _) =>
      apply preserves_lift; typeclasses eauto
  | |- AgentSpec.preserves _ (VoiceAgent.try_except _ _) =>
      apply preserves_try_except; [typeclasses eauto| |intros ?]
  | |- AgentSpec.preserves _ (VoiceAgent.try_finally _ _) =>
      apply preserves_try_finally; [typeclasses eauto| |]
  | |- AgentSpec.preserves _ (VoiceAgent.modify _) =>
      apply preserves_modify; intros ?
  | |- AgentSpec.preserves _ (if ?b then _ else _) => destruct b
  | |- AgentSpec.preserves _ (match ?x with _ => _ end) => destruct x
  end.

Section CleanupFacts.
Import VoiceAgent AgentSpec.

Lemma bind_ok {A B : Type} (m : M A) (k : A -> M B) (s s' : t) (a : A) :
  m s = (s', Ok a) -> mbind_M m k s = k a s'.
Proof. intros H. unfold mbind_M. rewrite H. reflexivity. Qed.

Lemma bind_raise {A B : Type} (m : M A) (k : A -> M B) (s s' : t) (e : exn) :
  m s = (s', Raise e) -> mbind_M m k s = (s', Raise e).
Proof. intros H. unfold mbind_M. rewrite H. reflexivity. Qed.

(** [if k in d: del d[k]] removes the key and never raises. *)
Lemma discard_spec {V : Type} (k : conn_id) (get : t -> gmap conn_id V)
    (set : gmap conn_id V -> t -> t) (s : t) :
  (forall s0, set (get s0) s0 = s0) ->
  discard k get set s = (set (delete k (get s)) s, Ok ()).
Proof.
  intros Hid. unfold discard, mbind_M, gets, mem, lift, delitem.
  destruct (get s !! k) eqn:Hk; [reflexivity|].
  rewrite delete_id by exact Hk. rewrite Hid. reflexivity.
Qed.

Lemma set_connections_id (s : t) : set_connections (connections s) s = s.
Proof. destruct s; reflexivity. Qed.
Lemma set_audio_buffers_id (s : t) : set_audio_buffers (audio_buffers s) s = s.
Proof. destruct s; reflexivity. Qed.
Lemma set_stream_sids_id (s : t) : set_stream_sids (stream_sids s) s = s.
Proof. destruct s; reflexivity. Qed.
Lemma set_call_sids_id (s : t) : set_call_sids (call_sids s) s = s.
Proof. destruct s; reflexivity. Qed.
Lemma set_caller_numbers_id (s : t) : set_caller_numbers (caller_numbers s) s = s.
Proof. destruct s; reflexivity. Qed.
Lemma set_output_managers_id (s : t) : set_output_managers (output_managers s) s = s.
Proof. destruct s; reflexivity. Qed.
Lemma set_audio_chunkers_id (s : t) : set_audio_chunkers (audio_chunkers s) s = s.
Proof. destruct s; reflexivity. Qed.
Lemma set_response_buffers_id (s : t) : set_response_buffers (response_buffers s) s = s.
Proof. destruct s; reflexivity. Qed.
Lemma set_is_speaking_id (s : t) : set_is_speaking (is_speaking s) s = s.
Proof. destruct s; reflexivity. Qed.
Lemma set_last_transcript_id (s : t) : set_last_transcript (last_transcript s) s = s.
Proof. destruct s; reflexivity. Qed.

(** The cleanup never raises, and this is the state it leaves. *)
Lemma cleanup_connection_unfold (c : conn_id) (s : t) :
  cleanup_connection c s
  = (drop_entries c (forget_caller c (stop_audio c s)), Ok ()).
Proof.
  unfold cleanup_connection.
  unfold mbind_M at 1. cbn [gets].
  erewrite (bind_ok _ _ s (stop_audio c s) ()).
  2:{ unfold stop_audio, mem, mbind_M, lift, getitem, delitem,
        stop_processing, store_processor, modify, ret, mbind_M, gets.
      destruct (audio_processors s !! c) eqn:Hl; reflexivity. }
  unfold mbind_M at 1. cbn [gets].
  erewrite (bind_ok _ _ _ (forget_caller c (stop_audio c s)) ()).
  2:{ unfold forget_caller, modify, ret.
      destruct (caller_numbers (stop_audio c s) !! c) as [[|a rest]|];
        reflexivity. }
  unfold drop_entries.
  repeat (erewrite bind_ok;
          [|rewrite discard_spec;
            [reflexivity
            |first [apply set_connections_id | apply set_audio_buffers_id
                   | apply set_stream_sids_id | apply set_call_sids_id
                   | apply set_caller_numbers_id | apply set_output_managers_id
                   | apply set_audio_chunkers_id | apply set_response_buffers_id
                   | apply set_is_speaking_id | apply set_last_transcript_id]]]).
  rewrite discard_spec by apply set_last_transcript_id.
  reflexivity.
Qed.

Lemma cleanup_connection_released (c : conn_id) (s : t) :
  released c (cleanup_connection c s).1.
Proof.
  rewrite cleanup_connection_unfold. cbn [fst].
  unfold released, drop_entries. cbn.
  rewrite !lookup_delete_eq.
  assert (audio_processors (forget_caller c (stop_audio c s)) !! c = None) as ->.
  { unfold forget_caller, stop_audio.
    destruct (audio_processors s !! c) eqn:Hl; cbn;
      repeat match goal with |- context [match ?x with _ => _ end] => destruct x end;
      cbn; rewrite ?lookup_delete_eq; auto. }
  repeat split.
Qed.

(** On a connection that has no entries left the cleanup changes nothing. *)
Lemma cleanup_connection_noop (c : conn_id) (s : t) :
  released c s -> cleanup_connection c s = (s, Ok ()).
Proof.
  intros (Hap & Hcn & Hco & Hab & Hss & Hcs & Hom & Hck & Hrb & Hsp & Hlt).
  rewrite cleanup_connection_unfold. f_equal.
  unfold stop_audio. rewrite Hap.
  unfold forget_caller. rewrite Hcn.
  unfold drop_entries. cbn.
  rewrite !delete_id by assumption.
  destruct s; reflexivity.
Qed.

Lemma cleanup_times_released (n : nat) (c : conn_id) (s : t) :
  released c s -> cleanup_times n c s = (s, Ok ()).
Proof.
  intros Hrel. induction n as [|n IH]; [reflexivity|].
  cbn [cleanup_times]. erewrite bind_ok by (apply cleanup_connection_noop, Hrel).
  exact IH.
Qed.

Lemma processor_at_drop_entries (l : loc) (c : conn_id) (s : t) :
  processor_at l (drop_entries c s) = processor_at l s.
Proof. reflexivity. Qed.

Lemma processor_at_forget_caller (l : loc) (c : conn_id) (s : t) :
  processor_at l (forget_caller c s) = processor_at l s.
Proof.
  unfold forget_caller. destruct (caller_numbers s !! c) as [[|a rest]|];
    reflexivity.
Qed.

Lemma caller_numbers_stop_audio (c : conn_id) (s : t) :
  caller_numbers (stop_audio c s) = caller_numbers s.
Proof. unfold stop_audio. destruct (audio_processors s !! c); reflexivity. Qed.

Lemma openai_client_stop_audio (c : conn_id) (s : t) :
  openai_client (stop_audio c s) = openai_client s.
Proof. unfold stop_audio. destruct (audio_processors s !! c); reflexivity. Qed.

Lemma clear_caller_history_conversations (cm : ConversationManager.t)
    (caller_id : string) :
  ConversationManager.conversations
    (ConversationManager.clear_caller_history cm caller_id)
  = delete caller_id (ConversationManager.conversations cm).
Proof.
  unfold ConversationManager.clear_caller_history,
    ConversationManager.clear_conversation.
  destruct (decide _) as [Hs|Hn]; [reflexivity|].
  symmetry. apply delete_id. destruct (_ !! caller_id) eqn:E; [|reflexivity].
  exfalso. apply Hn. eauto.
Qed.

(** The histories after a cleanup. *)
Lemma cleanup_clears_caller_history_eq (c : conn_id) (s : t) :
  ConversationManager.conversations (openai_client (cleanup_connection c s).1)
  = match caller_numbers s !! c with
    | Some (String a rest) =>
        delete (String a rest)
          (ConversationManager.conversations (openai_client s))
    | _ => ConversationManager.conversations (openai_client s)
    end.
Proof.
  rewrite cleanup_connection_unfold. cbn [fst].
  change (openai_client (drop_entries c ?x)) with (openai_client x).
  unfold forget_caller. rewrite caller_numbers_stop_audio.
  destruct (caller_numbers s !! c) as [[|a rest]|];
    cbn [openai_client set_openai_client];
    rewrite ?clear_caller_history_conversations, openai_client_stop_audio;
    reflexivity.
Qed.

(** C8 (as the code has it): tearing a session down clears the history of
    its caller identity whenever the connection has a non-empty caller
    number, whether or not another live session has the same caller; the
    histories of all other caller identities are left as they were. *)
Theorem cleanup_clears_caller_history (c : conn_id) (s : t) (other : string) :
  let before := ConversationManager.conversations (openai_client s) in
  let after :=
    ConversationManager.conversations (openai_client (cleanup_connection c s).1) in
  match caller_numbers s !! c with
  | Some (String a rest) =>
      after !! String a rest = None
      /\ (other <> String a rest -> after !! other = before !! other)
  | _ => after = before
  end.
Proof.
  cbv zeta. rewrite cleanup_clears_caller_history_eq.
  destruct (caller_numbers s !! c) as [[|a rest]|]; try reflexivity.
  split; [apply lookup_delete_eq|].
  intros Hne. apply lookup_delete_ne. congruence.
Qed.

(** C8 (the claim fails): with two live sessions of the same caller, tearing
    one down clears the caller's history although the other session is still
    registered with that caller identity. *)
Lemma shared_caller_history_cleared :
  let s' := (cleanup_connection 7 Scenario.two_calls).1 in
  caller_numbers Scenario.two_calls !! 7 = Some Scenario.caller
  /\ caller_numbers s' !! 8 = Some Scenario.caller
  /\ is_Some (connections s' !! 8)
  /\ is_Some (ConversationManager.conversations
               (openai_client Scenario.two_calls) !! Scenario.caller)
  /\ ConversationManager.conversations (openai_client s') !! Scenario.caller
     = None.
Proof.
  cbv zeta. repeat split; vm_compute; eauto.
Qed.

(** C7 (as the code has it): the cleanup path never raises and removes the
    connection from every dictionary of the agent; the audio processor of
    the connection is stopped; the history of its caller identity is
    cleared when the caller number is not empty, and no history is touched
    when the caller number is empty or absent; invoking the cleanup any
    further number of times gives the same state and the same normal return
    as invoking it once. *)
Theorem cleanup_idempotent (c : conn_id) (s : t) (n : nat) :
  let once := cleanup_connection c s in
  once.2 = Ok ()
  /\ cleanup_times (S n) c s = once
  /\ cleanup_connection c once.1 = (once.1, Ok ())
  /\ released c once.1
  /\ (forall l, audio_processors s !! c = Some l ->
               is_processing (processor_at l once.1) = false)
  /\ (forall a rest, caller_numbers s !! c = Some (String a rest) ->
         ConversationManager.conversations (openai_client once.1)
           !! String a rest = None)
  /\ (caller_numbers s !! c = Some "" \/ caller_numbers s !! c = None ->
      ConversationManager.conversations (openai_client once.1)
      = ConversationManager.conversations (openai_client s)).
Proof.
  cbv zeta.
  pose proof (cleanup_connection_released c s) as Hrel.
  split; [rewrite cleanup_connection_unfold; reflexivity|].
  split; [|split; [apply cleanup_connection_noop, Hrel|
                   split; [exact Hrel|split; [|split]]]].
  - cbn [cleanup_times].
    rewrite (bind_ok _ _ s (cleanup_connection c s).1 ()).
    + rewrite cleanup_times_released by exact Hrel.
      rewrite cleanup_connection_unfold. reflexivity.
    + rewrite cleanup_connection_unfold. reflexivity.
  - intros l Hl. rewrite cleanup_connection_unfold. cbn [fst].
    rewrite processor_at_drop_entries, processor_at_forget_caller.
    unfold stop_audio. rewrite Hl. unfold processor_at at 1.
    cbn [heap_processors set_audio_processors set_heap_processors].
    destruct (decide (l < length (heap_processors s))%nat) as [Hlt|Hge].
    + rewrite list_lookup_insert_eq by exact Hlt. reflexivity.
    + rewrite list_insert_ge by lia.
      rewrite lookup_ge_None_2 by lia. reflexivity.
  - intros a rest Hc. pose proof (cleanup_clears_caller_history_eq c s) as He.
    rewrite Hc in He. rewrite He. apply lookup_delete_eq.
  - intros Hc. pose proof (cleanup_clears_caller_history_eq c s) as He.
    destruct Hc as [Hc|Hc]; rewrite Hc in He; exact He.
Qed.

(** C7 (the claim fails): a session whose start message carried an empty
    caller number has its exchanges recorded under the empty caller
    identity; its cleanup releases every entry of the connection but leaves
    that history in place. *)
Lemma empty_caller_history_survives :
  let s := Scenario.anonymous_call in
  let once := cleanup_connection 7 s in
  caller_numbers s !! 7 = Some ""
  /\ ConversationManager.history (openai_client s) ""
     = [ConversationManager.Msg ConversationManager.User "hi";
        ConversationManager.Msg ConversationManager.Assistant "Hello"]
  /\ once.2 = Ok ()
  /\ released 7 once.1
  /\ ConversationManager.history (openai_client once.1) ""
     = [ConversationManager.Msg ConversationManager.User "hi";
        ConversationManager.Msg ConversationManager.Assistant "Hello"].
Proof.
  cbv zeta. repeat split; vm_compute; reflexivity.
Qed.

End CleanupFacts.

(** ** Transport input handled while a task is suspended *)
Section DeliverFacts.
Import VoiceAgent AgentSpec.

Global Instance same_preorder {X : Type} (f : t -> X) : PreOrder (same f).
Proof.
  split; [intros s; reflexivity|].
  intros s1 s2 s3 H1 H2. unfold same in *. congruence.
Qed.

Global Instance quiet_preorder (om : loc) : PreOrder (quiet om).
Proof.
  split; [intros s; repeat split; auto|].
  intros s1 s2 s3 (H1 & H1' & H1'') (H2 & H2' & H2''). unfold quiet.
  repeat split; [congruence|congruence|auto].
Qed.

Lemma preserves_weaken {A : Type} (R R' : relation t) (m : M A) :
  (forall s s', R s s' -> R' s s') -> preserves R m -> preserves R' m.
Proof. intros H Hm s. apply H, Hm. Qed.

Lemma foldl_preserves (R : relation t) `{!PreOrder R} {B : Type}
    (step : t -> B -> t) (l : list B) :
  (forall s b, R s (step s b)) -> forall s, R s (foldl step s l).
Proof.
  intros Hstep. induction l as [|b l IH]; intros s; simpl; [reflexivity|].
  etrans; [apply Hstep|apply IH].
Qed.

End DeliverFacts.

(** Decomposition of a [preserves] goal down to its state updates. *)
Ltac preserves_all := repeat preserves_step.

Ltac same_updates :=
  unfold AgentSpec.same, AgentSpec.env_view, AgentSpec.service_view; cbn;
  rewrite ?clear_caller_history_calls; try reflexivity.

Section DeliverFrame.
Import VoiceAgent AgentSpec.

Lemma cleanup_connection_env (c : conn_id) :
  preserves (same (fun s => (env_view s, inbox s, closed s)))
    (cleanup_connection c).
Proof.
  unfold cleanup_connection, discard, stop_processing, store_processor.
  preserves_all; same_updates.
Qed.

Lemma process_message_env (ev : event) (c : conn_id) :
  preserves (same (fun s => (env_view s, inbox s, closed s)))
    (process_message ev c).
Proof.
  unfold process_message, handle_stop, handle_start, handle_media,
    read_is_speaking, write_is_speaking, interrupt, processor_add_audio,
    store_output, store_processor.
  preserves_all; try apply cleanup_connection_env; same_updates.
Qed.

Lemma deliver_env (s : t) (i : incoming) :
  same (fun s => (env_view s, inbox s)) s (deliver s i).
Proof.
  destruct i as [c ev|c|]; cbn [deliver].
  - pose proof (process_message_env ev c s) as H.
    apply (f_equal fst) in H. exact H.
  - pose proof (cleanup_connection_env c (set_closed ({[c]} ∪ closed s) s)) as H.
    apply (f_equal fst) in H. exact H.
  - destruct (abandoned s); reflexivity.
Qed.

(** Nothing that happens while a task is suspended writes to the transport,
    to a service, or to the segmenter and chunker objects. *)
Lemma await_env : preserves (same env_view) await.
Proof.
  intros s. unfold await. destruct (inbox s) as [|batch later]; [reflexivity|].
  cbn [fst].
  transitivity (set_inbox later s); [reflexivity|].
  apply (foldl_preserves (same env_view)). intros s0 i.
  pose proof (deliver_env s0 i) as H. apply (f_equal fst) in H. exact H.
Qed.

Lemma await_inbox (s : t) : inbox (await s).1 = tail (inbox s).
Proof.
  unfold await. destruct (inbox s) as [|batch later] eqn:Hi; [exact Hi|].
  cbn [fst tail].
  assert (forall l s0, inbox (foldl deliver s0 l) = inbox s0) as Hf.
  { intros l. induction l as [|i l IH]; intros s0; simpl; [reflexivity|].
    rewrite IH. pose proof (deliver_env s0 i) as H.
    apply (f_equal snd) in H. exact H. }
  rewrite Hf. reflexivity.
Qed.

Lemma await_ok (s : t) : (await s).2 = Ok ().
Proof. unfold await. destruct (inbox s); reflexivity. Qed.

End DeliverFrame.

(** ** Barge-in *)
Section BargeInFacts.
Import VoiceAgent AgentSpec.








Section Loop.
Variable lin2ulaw : bytes -> result bytes.

Lemma await_eq (s : t) : await s = ((await s).1, Ok ()).
Proof. rewrite <- (await_ok s). destruct (await s); reflexivity. Qed.

Lemma speak_loop_cons (c ws : conn_id) (sid : option string) (om ck : loc)
    (audio_chunk : bytes) (rest : list bytes) :
  speak_loop lin2ulaw c ws sid om ck (audio_chunk :: rest)
  = (await;;
     o <~ gets (output_at om);
     if negb (is_playing o) then generator_exit om
     else
       ulaw_audio <~ try_except (lift (lin2ulaw audio_chunk))
                       (fun e => generator_exit om;; raise e);
       speaking <~ read_is_speaking c;
       if negb speaking then abandon om
       else
         k <~ gets (chunker_at ck);
         let '(chunks, k') := AudioChunker.add_audio_total k ulaw_audio in
         store_chunker ck k';;
         try_except (send_chunks ws sid chunks) (fun e => abandon om;; raise e);;
         speak_loop lin2ulaw c ws sid om ck rest).
Proof. reflexivity. Qed.



End Loop.





End BargeInFacts.

(** ** The speaking flag *)
Section SpeakingFlagFacts.
Import VoiceAgent AgentSpec.

Variable synthesize : string -> list bytes.
Variable lin2ulaw : bytes -> result bytes.

Lemma classic_live (c : conn_id) (s : t) : live c s \/ ~ live c s.
Proof.
  unfold live.
  destruct (connections s !! c), (stream_sids s !! c),
    (output_managers s !! c), (audio_chunkers s !! c);
    first [left; repeat split; eauto; fail
          |right; intros (H1 & H2 & H3 & H4);
           first [destruct H1 as [? H1]; discriminate
                 |destruct H2 as [? H2]; discriminate
                 |destruct H3 as [? H3]; discriminate
                 |destruct H4 as [? H4]; discriminate]].
Qed.

(** A body guarded by [except Exception] and followed by the [finally]
    clause that lowers the flag returns normally with the flag down. *)
Lemma try_finally_lowers_flag (c : conn_id) (body : M unit) (s : t) :
  exists s',
    try_finally (try_except body (fun _ => ret ())) (write_is_speaking c false) s
    = (set_is_speaking (<[c := false]> (is_speaking s')) s', Ok ()).
Proof.
  unfold try_finally, try_except, write_is_speaking, modify, ret.
  destruct (body s) as [s' [[]|e]]; exists s'; reflexivity.
Qed.

(** On a live session the function runs its [try] block. *)
Lemma synthesize_and_send_live (c : conn_id) (text : string) (s : t)
    (conn : connection) (sid : option string) (om ck : loc) :
  connections s !! c = Some conn ->
  stream_sids s !! c = Some sid ->
  output_managers s !! c = Some om ->
  audio_chunkers s !! c = Some ck ->
  synthesize_and_send synthesize lin2ulaw c text s
  = try_finally
      (try_except
         (write_is_speaking c true;;
          set_playing om true;;
          modify (fun s => set_tts_requests (tts_requests s ++ [text]) s);;
          speak_loop lin2ulaw c (websocket conn) sid om ck (synthesize text);;
          k <~ gets (chunker_at ck);
          let '(remaining, k') := AudioChunker.get_remaining k in
          store_chunker ck k';;
          match remaining with
          | [] => ret ()
          | _ :: _ => send (websocket conn) (MediaMsg sid remaining)
          end)
         (fun _ => ret ()))
      (write_is_speaking c false) s.
Proof.
  intros Hc Hs Ho Hk.
  unfold synthesize_and_send, mbind_M at 1, gets, mem. rewrite Hc. cbn [negb].
  unfold mbind_M at 1, lift, getitem. rewrite Hc.
  unfold mbind_M at 1. unfold mbind_M at 1. rewrite Hs.
  unfold mbind_M at 1. unfold mbind_M at 1. rewrite Ho.
  unfold mbind_M at 1. unfold mbind_M at 1. rewrite Hk.
  reflexivity.
Qed.

(** When a registry entry is missing the state is left as it was. *)
Lemma synthesize_and_send_not_live (c : conn_id) (text : string) (s : t) :
  ~ live c s ->
  (synthesize_and_send synthesize lin2ulaw c text s).1 = s.
Proof.
  intros Hn.
  unfold synthesize_and_send, mbind_M at 1, gets, mem.
  destruct (connections s !! c) as [conn|] eqn:Hc; [|reflexivity]. cbn [negb].
  unfold mbind_M at 1, lift, getitem. rewrite Hc.
  unfold mbind_M at 1. unfold mbind_M at 1.
  destruct (stream_sids s !! c) as [sid|] eqn:Hs; [|reflexivity].
  unfold mbind_M at 1. unfold mbind_M at 1.
  destruct (output_managers s !! c) as [om|] eqn:Ho; [|reflexivity].
  unfold mbind_M at 1. unfold mbind_M at 1.
  destruct (audio_chunkers s !! c) as [ck|] eqn:Hk; [|reflexivity].
  exfalso. apply Hn. unfold live. rewrite Hc, Hs, Ho, Hk. eauto.
Qed.

(** C10: from any state in which the speaking flag is sound (it is up only
    for a live session, as in every state the agent reaches), every
    invocation of synthesize_and_send leaves the flag of its connection
    down; on a live session the invocation returns normally, whether the
    fragment was played to its end, interrupted, or stopped by an exception
    of the encoder or of the transport, and the flag is stored as false. *)
Theorem synthesize_and_send_resets_flag (c : conn_id) (text : string) (s : t) :
  flag_sound c s ->
  let out := synthesize_and_send synthesize lin2ulaw c text s in
  speaking c out.1 = false
  /\ (live c s -> out.2 = Ok () /\ is_speaking out.1 !! c = Some false).
Proof.
  intros Hsound out.
  assert (live c s -> out.2 = Ok () /\ is_speaking out.1 !! c = Some false) as Hlive.
  { intros ([conn Hc] & [sid Hs] & [om Ho] & [ck Hk]). unfold out.
    rewrite (synthesize_and_send_live c text s conn sid om ck Hc Hs Ho Hk).
    destruct (try_finally_lowers_flag c
      (write_is_speaking c true;;
       set_playing om true;;
       modify (fun s => set_tts_requests (tts_requests s ++ [text]) s);;
       speak_loop lin2ulaw c (websocket conn) sid om ck (synthesize text);;
       k <~ gets (chunker_at ck);
       let '(remaining, k') := AudioChunker.get_remaining k in
       store_chunker ck k';;
       match remaining with
       | [] => ret ()
       | _ :: _ => send (websocket conn) (MediaMsg sid remaining)
       end) s) as [s' ->].
    split; [reflexivity|]. cbn. apply lookup_insert_eq. }
  split; [|exact Hlive].
  destruct (speaking c s) eqn:Hsp.
  - destruct (Hlive (Hsound Hsp)) as [_ Hf]. unfold speaking. rewrite Hf.
    reflexivity.
  - destruct (classic_live c s) as [Hl|Hn].
    + destruct (Hlive Hl) as [_ Hf]. unfold speaking. rewrite Hf. reflexivity.
    + unfold out. rewrite synthesize_and_send_not_live by exact Hn. exact Hsp.
Qed.

End SpeakingFlagFacts.

(** ** The speaking flag stays sound *)
Section FlagSoundFacts.
Import VoiceAgent AgentSpec.

Global Instance sound_step_preorder (c : conn_id) : PreOrder (sound_step c).
Proof.
  split; [intros s H; exact H|].
  intros s1 s2 s3 H1 H2 H. apply H2, H1, H.
Qed.

Lemma insert_keeps_some {V : Type} (m : gmap conn_id V) (k c : conn_id) (v : V) :
  is_Some (m !! c) -> is_Some (<[k := v]> m !! c).
Proof.
  intros H. destruct (decide (k = c)) as [->|Hne].
  - rewrite lookup_insert_eq. eauto.
  - rewrite lookup_insert_ne by assumption. exact H.
Qed.

Lemma lowered_flag_was_up (m : gmap conn_id bool) (k c : conn_id) :
  default false (<[k := false]> m !! c) = true -> default false (m !! c) = true.
Proof.
  destruct (decide (k = c)) as [->|Hne].
  - rewrite lookup_insert_eq. discriminate.
  - rewrite lookup_insert_ne by assumption. auto.
Qed.

Lemma init_flag_sound (c : conn_id) : flag_sound c init.
Proof. intros H. vm_compute in H. discriminate. Qed.

(** Updates that keep the flag sound: the flag is lowered or kept, registry
    entries are added or kept. *)
Ltac sound_updates :=
  intros; unfold sound_step, flag_sound, speaking, live; cbn;
  let Hs := fresh "Hs" in let Hsp := fresh "Hsp" in
  intros Hs Hsp; try apply lowered_flag_was_up in Hsp;
  destruct (Hs Hsp) as (? & ? & ? & ?);
  repeat split; auto using insert_keeps_some.

Lemma read_is_speaking_sound (c c' : conn_id) :
  preserves (sound_step c) (read_is_speaking c').
Proof.
  intros s. unfold read_is_speaking, mbind_M, gets, dd_getitem, modify, ret.
  destruct (is_speaking s !! c') as [b|] eqn:Hb; cbn [fst].
  - rewrite set_is_speaking_id. reflexivity.
  - revert s Hb. sound_updates.
Qed.

Lemma cleanup_connection_sound (c c' : conn_id) :
  preserves (sound_step c) (cleanup_connection c').
Proof.
  intros s. rewrite cleanup_connection_unfold. cbn [fst].
  unfold sound_step, flag_sound, speaking, live, drop_entries. cbn.
  assert (forall s0, is_speaking (forget_caller c' (stop_audio c' s0)) = is_speaking s0
           /\ connections (forget_caller c' (stop_audio c' s0)) = connections s0
           /\ stream_sids (forget_caller c' (stop_audio c' s0)) = stream_sids s0
           /\ output_managers (forget_caller c' (stop_audio c' s0)) = output_managers s0
           /\ audio_chunkers (forget_caller c' (stop_audio c' s0)) = audio_chunkers s0)
    as Hsame.
  { intros s0. unfold forget_caller, stop_audio.
    destruct (audio_processors s0 !! c'); cbn;
      destruct (caller_numbers s0 !! c') as [[|a rest]|]; cbn; auto. }
  destruct (Hsame s) as (-> & -> & -> & -> & ->).
  destruct (decide (c' = c)) as [->|Hne].
  - rewrite lookup_delete_eq. discriminate.
  - rewrite !lookup_delete_ne by assumption. auto.
Qed.

Lemma process_message_sound (c : conn_id) (ev : event) (c' : conn_id) :
  preserves (sound_step c) (process_message ev c').
Proof.
  unfold process_message, handle_stop, handle_start, handle_media,
    write_is_speaking, interrupt, processor_add_audio,
    store_output, store_processor.
  repeat first [apply cleanup_connection_sound | apply read_is_speaking_sound
               | preserves_step];
    sound_updates.
Qed.

Lemma deliver_sound (c : conn_id) (s : t) (i : incoming) :
  sound_step c s (deliver s i).
Proof.
  destruct i as [c' ev|c'|]; cbn [deliver]; [apply process_message_sound| |].
  - etrans; [|apply cleanup_connection_sound]. revert s. sound_updates.
  - destruct (abandoned s) as [|l later]; [reflexivity|]. revert s. sound_updates.
Qed.

Lemma await_sound (c : conn_id) : preserves (sound_step c) await.
Proof.
  intros s. unfold await. destruct (inbox s) as [|batch later]; [reflexivity|].
  cbn [fst]. etrans; [|apply (foldl_preserves (sound_step c)), deliver_sound].
  revert s. sound_updates.
Qed.

Lemma handle_connection_init_sound (c c' : conn_id) :
  preserves (sound_step c) (handle_connection_init c').
Proof.
  unfold handle_connection_init. repeat preserves_step; sound_updates.
Qed.

Section Pipeline.
Variable synthesize : string -> list bytes.
Variable lin2ulaw : bytes -> result bytes.

Lemma send_sound (c ws : conn_id) (m : out_msg) :
  preserves (sound_step c) (send ws m).
Proof.
  unfold send. repeat first [apply await_sound | preserves_step]; sound_updates.
Qed.

Lemma send_chunks_sound (c ws : conn_id) (sid : option string)
    (chunks : list bytes) :
  preserves (sound_step c) (send_chunks ws sid chunks).
Proof.
  induction chunks as [|chunk more IH]; cbn [send_chunks].
  - apply preserves_ret; typeclasses eauto.
  - repeat first [apply await_sound | apply send_sound | exact IH | preserves_step].
Qed.

Lemma speak_loop_sound (c c' ws : conn_id) (sid : option string) (om ck : loc)
    (pcm : list bytes) :
  preserves (sound_step c) (speak_loop lin2ulaw c' ws sid om ck pcm).
Proof.
  induction pcm as [|audio_chunk rest IH];
    [cbn [speak_loop]|rewrite speak_loop_cons];
    unfold store_chunker, generator_exit, set_playing, store_output, abandon;
  repeat first [apply await_sound | apply read_is_speaking_sound
               | apply send_chunks_sound | exact IH | preserves_step];
    sound_updates.
Qed.

(** The whole of [synthesize_and_send] keeps the flag sound, for its own
    connection and for every other one. *)
Lemma synthesize_and_send_sound (c c' : conn_id) (text : string) :
  preserves (sound_step c) (synthesize_and_send synthesize lin2ulaw c' text).
Proof.
  intros s. destruct (classic_live c' s) as [Hl|Hn].
  2:{ rewrite synthesize_and_send_not_live by exact Hn. reflexivity. }
  destruct Hl as ([conn Hc] & [sid Hs] & [om Ho] & [ck Hk]).
  rewrite (synthesize_and_send_live synthesize lin2ulaw c' text s conn sid om ck
             Hc Hs Ho Hk).
  set (rest := (set_playing om true;;
       modify (fun s => set_tts_requests (tts_requests s ++ [text]) s);;
       speak_loop lin2ulaw c' (websocket conn) sid om ck (synthesize text);;
       k <~ gets (chunker_at ck);
       let '(remaining, k') := AudioChunker.get_remaining k in
       store_chunker ck k';;
       match remaining with
       | [] => ret ()
       | _ :: _ => send (websocket conn) (MediaMsg sid remaining)
       end)).
  assert (preserves (sound_step c)
            (try_finally (try_except rest (fun _ => ret ()))
               (write_is_speaking c' false))) as Hrest.
  { unfold rest, set_playing, store_output, store_chunker, write_is_speaking.
    repeat first [apply speak_loop_sound | apply send_sound | preserves_step];
      sound_updates. }
  set (s1 := set_is_speaking (<[c' := true]> (is_speaking s)) s).
  assert (sound_step c s s1) as Hup.
  { unfold s1, sound_step, flag_sound, speaking, live. cbn. intros Hsound Hsp.
    destruct (decide (c' = c)) as [->|Hne].
    - rewrite Hc, Hs, Ho, Hk. eauto.
    - rewrite lookup_insert_ne in Hsp by assumption. auto. }
  etrans; [exact Hup|].
  replace ((try_finally
              (try_except (write_is_speaking c' true;; rest) (fun _ => ret ()))
              (write_is_speaking c' false) s))
    with (try_finally (try_except rest (fun _ => ret ()))
            (write_is_speaking c' false) s1); [apply Hrest|].
  reflexivity.
Qed.

End Pipeline.

End FlagSoundFacts.

(** ** The response pipeline and the generation service *)
Section PipelineFrame.
Import VoiceAgent AgentSpec.

Variable synthesize : string -> list bytes.
Variable lin2ulaw : bytes -> result bytes.

Lemma await_service : preserves (same service_view) await.
Proof.
  apply (preserves_weaken (same env_view)); [|apply await_env].
  intros s s' H. unfold same, env_view, service_view in *.
  injection H as H1 H2 H3 H4 H5. congruence.
Qed.

Lemma send_service (ws : conn_id) (m : out_msg) :
  preserves (same service_view) (send ws m).
Proof.
  unfold send. repeat first [apply await_service | preserves_step]; same_updates.
Qed.

Lemma send_chunks_service (ws : conn_id) (sid : option string)
    (chunks : list bytes) :
  preserves (same service_view) (send_chunks ws sid chunks).
Proof.
  induction chunks as [|chunk more IH]; cbn [send_chunks].
  - apply preserves_ret; typeclasses eauto.
  - repeat first [apply await_service | apply send_service | exact IH
                 | preserves_step].
Qed.

Lemma speak_loop_service (c ws : conn_id) (sid : option string) (om ck : loc)
    (pcm : list bytes) :
  preserves (same service_view) (speak_loop lin2ulaw c ws sid om ck pcm).
Proof.
  induction pcm as [|audio_chunk rest IH];
    [cbn [speak_loop]|rewrite speak_loop_cons];
    unfold store_chunker, read_is_speaking, generator_exit, set_playing,
      store_output, abandon;
  repeat first [apply await_service | apply send_chunks_service | exact IH
               | preserves_step];
    same_updates.
Qed.

Lemma service_calls (s s' : t) : same service_view s s' -> same calls_view s s'.
Proof. unfold same, service_view, calls_view. congruence. Qed.

Lemma synthesize_and_send_calls (c : conn_id) (text : string) :
  preserves (same calls_view) (synthesize_and_send synthesize lin2ulaw c text).
Proof.
  unfold synthesize_and_send, set_playing, store_output, store_chunker,
    write_is_speaking.
  repeat first
    [ apply (preserves_weaken _ _ _ service_calls), speak_loop_service
    | apply (preserves_weaken _ _ _ service_calls), send_service
    | preserves_step ];
    reflexivity.
Qed.

Lemma speak_all_calls (c : conn_id) (sentences : list string) :
  preserves (same calls_view) (speak_all synthesize lin2ulaw c sentences).
Proof.
  induction sentences as [|sentence more IH]; cbn [speak_all].
  - apply preserves_ret; typeclasses eauto.
  - repeat first [apply synthesize_and_send_calls | exact IH | preserves_step].
Qed.

Lemma await_calls : preserves (same calls_view) await.
Proof. apply (preserves_weaken _ _ _ service_calls), await_service. Qed.

Lemma consume_calls (c : conn_id) (rb : loc) (chunks : list string) :
  preserves (same calls_view) (consume synthesize lin2ulaw c rb chunks).
Proof.
  induction chunks as [|chunk more IH]; cbn [consume].
  - apply preserves_ret; typeclasses eauto.
  - unfold store_buffer.
    repeat first [apply speak_all_calls | apply await_calls | exact IH
                 | preserves_step];
      reflexivity.
Qed.

(** The generation request of [respond] is the only one the pipeline makes. *)
Lemma respond_calls (c : conn_id) (transcript caller_id : string) (rb : loc)
    (r : ConversationManager.api_reply) (s : t) :
  calls_view
    (try_except (respond synthesize lin2ulaw c transcript caller_id rb r)
       (fun _ => synthesize_and_send synthesize lin2ulaw c apology) s).1
  = calls_view s
      ++ [ConversationManager.Call
            (ConversationManager.Msg ConversationManager.System
               ConversationManager.system_prompt
             :: ConversationManager.last10
                  (ConversationManager.history (openai_client s) caller_id
                   ++ [ConversationManager.Msg ConversationManager.User
                         transcript])) true].
Proof.
  set (s1 := set_openai_client
      (ConversationManager.begin_request (openai_client s) transcript
         caller_id true).1 s).
  set (rest := (await;;
       consume synthesize lin2ulaw c rb (ConversationManager.yields true r);;
       modify (fun s =>
         set_openai_client
           (ConversationManager.finish (openai_client s) caller_id true r) s);;
       b <~ gets (buffer_at rb);
       let remaining := ResponseBuffer.get_remaining b in
       if PyStr.strip_nonempty remaining
       then synthesize_and_send synthesize lin2ulaw c remaining
       else ret ())).
  assert (preserves (same calls_view)
            (try_except rest
               (fun _ => synthesize_and_send synthesize lin2ulaw c apology)))
    as Hrest.
  { unfold rest.
    repeat first [apply await_calls | apply consume_calls
                 | apply synthesize_and_send_calls | preserves_step].
    unfold same, calls_view. cbn [openai_client set_openai_client].
    apply finish_calls. }
  change (try_except (respond synthesize lin2ulaw c transcript caller_id rb r)
            (fun _ => synthesize_and_send synthesize lin2ulaw c apology) s)
    with (try_except rest
            (fun _ => synthesize_and_send synthesize lin2ulaw c apology) s1).
  rewrite (Hrest s1). unfold s1, calls_view.
  cbn [openai_client set_openai_client]. apply begin_request_calls.
Qed.

(** On a registered session [process_with_ai] clears the pending-response
    buffer and then runs its [try] block. *)
Lemma process_with_ai_registered (c : conn_id) (transcript : string)
    (r : ConversationManager.api_reply) (s : t) (conn : connection) (rb : loc) :
  connections s !! c = Some conn ->
  response_buffers s !! c = Some rb ->
  process_with_ai synthesize lin2ulaw c transcript r s
  = try_except
      (respond synthesize lin2ulaw c transcript
         (default "unknown" (caller_numbers s !! c)) rb r)
      (fun _ => synthesize_and_send synthesize lin2ulaw c apology)
      (set_heap_buffers
         (<[rb := ResponseBuffer.clear (buffer_at rb s)]> (heap_buffers s)) s).
Proof.
  intros Hc Hrb.
  unfold process_with_ai, mbind_M at 1, gets, mem. rewrite Hc. cbn [negb].
  unfold mbind_M at 1. unfold mbind_M at 1. unfold mbind_M at 1.
  unfold lift, getitem. rewrite Hrb.
  reflexivity.
Qed.

Lemma process_with_ai_unregistered (c : conn_id) (transcript : string)
    (r : ConversationManager.api_reply) (s : t) :
  connections s !! c = None ->
  process_with_ai synthesize lin2ulaw c transcript r s = (s, Ok ()).
Proof.
  intros Hc. unfold process_with_ai, mbind_M at 1, gets, mem. rewrite Hc.
  reflexivity.
Qed.

(** C5: on a registered session, a recognition result that is not final,
    or whose transcript is empty after trimming, changes nothing at all (no
    generation request, lastTranscript untouched, nothing synthesized); a
    final result with a non-empty transcript is stored as lastTranscript,
    then the pending-response buffer of the session is emptied -- whatever
    it held, it then holds no text, and up to there no generation request
    was made and nothing was synthesized -- and then the response pipeline
    runs from that state: it makes exactly one generation request, whose
    context ends with that transcript as the user turn of the session's
    caller identity. *)
Theorem final_transcript_handling (c : conn_id)
    (result : RivaASRClient.transcript_result)
    (r : ConversationManager.api_reply) (s : t) (conn : connection) (rb : loc) :
  connections s !! c = Some conn ->
  response_buffers s !! c = Some rb ->
  let transcript := RivaASRClient.transcript result in
  let caller_id := default "unknown" (caller_numbers s !! c) in
  let out := handle_transcript synthesize lin2ulaw c result r s in
  (RivaASRClient.is_final result && PyStr.strip_nonempty transcript = false ->
   out = (s, Ok ()))
  /\ (RivaASRClient.is_final result && PyStr.strip_nonempty transcript = true ->
      let cleared :=
        set_heap_buffers
          (<[rb := ResponseBuffer.mk [] false]> (heap_buffers s))
          (set_last_transcript (<[c := transcript]> (last_transcript s)) s) in
      last_transcript cleared !! c = Some transcript
      /\ ResponseBuffer.buffer (buffer_at rb cleared) = []
      /\ ResponseBuffer.get_remaining (buffer_at rb cleared) = ""
      /\ calls_view cleared = calls_view s
      /\ tts_requests cleared = tts_requests s
      /\ out = try_except
                 (respond synthesize lin2ulaw c transcript caller_id rb r)
                 (fun _ => synthesize_and_send synthesize lin2ulaw c apology)
                 cleared
      /\ calls_view out.1
         = calls_view s
             ++ [ConversationManager.Call
                   (ConversationManager.Msg ConversationManager.System
                      ConversationManager.system_prompt
                    :: ConversationManager.last10
                         (ConversationManager.history (openai_client s) caller_id
                          ++ [ConversationManager.Msg ConversationManager.User
                                transcript])) true]).
Proof.
  intros Hc Hrb transcript caller_id out. unfold out, handle_transcript.
  fold transcript.
  destruct (RivaASRClient.is_final result && PyStr.strip_nonempty transcript).
  - split; [discriminate|]. intros _.
    set (cleared := set_heap_buffers
          (<[rb := ResponseBuffer.mk [] false]> (heap_buffers s))
          (set_last_transcript (<[c := transcript]> (last_transcript s)) s)).
    assert ((modify (fun s0 =>
               set_last_transcript (<[c := transcript]> (last_transcript s0)) s0);;
             process_with_ai synthesize lin2ulaw c transcript r) s
            = try_except
                (respond synthesize lin2ulaw c transcript caller_id rb r)
                (fun _ => synthesize_and_send synthesize lin2ulaw c apology)
                cleared) as ->.
    { unfold mbind_M at 1. cbn [modify].
      rewrite (process_with_ai_registered c transcript r _ conn rb); auto. }
    assert (buffer_at rb cleared = ResponseBuffer.mk [] false) as Hcleared.
    { unfold cleared, buffer_at. cbn.
      destruct (decide (rb < length (heap_buffers s))%nat).
      - rewrite list_lookup_insert_eq by assumption. reflexivity.
      - rewrite list_insert_ge by lia. rewrite lookup_ge_None_2 by lia.
        reflexivity. }
    split; [apply lookup_insert_eq|].
    rewrite Hcleared.
    repeat (split; [reflexivity|]).
    rewrite respond_calls. reflexivity.
  - split; [reflexivity|discriminate].
Qed.

End PipelineFrame.

(** ** Failure of the generation service *)
Section GenerationFailure.
Import VoiceAgent AgentSpec.

Variable synthesize : string -> list bytes.
Variable lin2ulaw : bytes -> result bytes.

Global Instance calm_preorder : PreOrder calm.
Proof.
  split; [intros s H; auto|].
  intros s1 s2 s3 H1 H2 Hm. destruct (H1 Hm) as [E1 Hm2].
  destruct (H2 Hm2) as [E2 Hm3]. split; [congruence|exact Hm3].
Qed.

Lemma media_message_session (p : option bytes) (c : conn_id) :
  preserves (same (fun s => (session_view s, inbox s)))
    (process_message (EvMedia p) c).
Proof.
  unfold process_message, handle_media, read_is_speaking, write_is_speaking,
    interrupt, processor_add_audio, store_output, store_processor.
  preserves_all; reflexivity.
Qed.

Lemma deliver_media_session (s : t) (i : incoming) :
  media_input i ->
  session_view (deliver s i) = session_view s /\ inbox (deliver s i) = inbox s.
Proof.
  destruct i as [c [d|p| |]|c|]; cbn [media_input deliver]; intros H;
    try (exfalso; exact H); clear H.
  - pose proof (media_message_session p c s) as H. unfold same in H.
    split; [exact (f_equal fst H)|exact (f_equal snd H)].
  - auto.
  - destruct (abandoned s); auto.
Qed.

(** While only audio arrives, a suspension leaves the sessions registered. *)
Lemma await_calm : preserves calm await.
Proof.
  intros s Hm. unfold await, media_only in *.
  destruct (inbox s) as [|batch later] eqn:Hi; [cbn; rewrite Hi; auto|].
  cbn [fst]. inversion Hm as [|? ? Hb Hl]; subst.
  assert (forall l s0, Forall media_input l ->
            session_view (foldl deliver s0 l) = session_view s0
            /\ inbox (foldl deliver s0 l) = inbox s0) as Hf.
  { intros l. induction l as [|i l IH]; intros s0 Hall; simpl; [auto|].
    inversion Hall; subst.
    destruct (IH (deliver s0 i)) as [E1 E2]; [assumption|].
    destruct (deliver_media_session s0 i) as [E3 E4]; [assumption|].
    split; congruence. }
  destruct (Hf batch (set_inbox later s) Hb) as [E1 E2].
  rewrite E1, E2. split; [reflexivity|exact Hl].
Qed.

Lemma await_buffers (s : t) : heap_buffers (await s).1 = heap_buffers s.
Proof.
  pose proof (await_env s) as H. unfold same, env_view in H.
  exact (f_equal (fun v => v.1.2) H).
Qed.

Lemma store_buffer_lookup (rb : loc) (b x : ResponseBuffer.t) (s : t) :
  heap_buffers s !! rb = Some b ->
  heap_buffers (store_buffer rb x s).1 !! rb = Some x.
Proof.
  intros H. cbn. apply list_lookup_insert_eq. eapply lookup_lt_Some, H.
Qed.

Lemma buffer_at_lookup (rb : loc) (b : ResponseBuffer.t) (s : t) :
  heap_buffers s !! rb = Some b -> buffer_at rb s = b.
Proof. intros H. unfold buffer_at. rewrite H. reflexivity. Qed.

(** One round of the token loop. *)
Lemma consume_cons (c : conn_id) (rb : loc) (chunk : string)
    (more : list string) (s : t) (b : ResponseBuffer.t) :
  heap_buffers s !! rb = Some b ->
  let b1 := ResponseBuffer.add_chunk b chunk in
  let s1 := (store_buffer rb b1 s).1 in
  consume synthesize lin2ulaw c rb (chunk :: more) s
  = match ResponseBuffer.get_complete_sentences b1 with
    | Ok _ =>
        consume synthesize lin2ulaw c rb more
          (await (store_buffer rb b1 s1).1).1
    | Raise e => (s1, Raise e)
    end.
Proof.
  intros Hb b1 s1.
  pose proof (store_buffer_lookup rb b b1 s Hb) as Hb1. fold s1 in Hb1.
  cbn [consume]. unfold mbind_M at 1. cbn [gets].
  rewrite (buffer_at_lookup rb b s Hb). fold b1.
  unfold mbind_M at 1. change (store_buffer rb b1 s) with (s1, Ok ()). cbn iota.
  unfold mbind_M at 1. cbn [gets].
  rewrite (buffer_at_lookup rb b1 s1 Hb1).
  unfold mbind_M at 1. unfold lift at 1.
  destruct (ResponseBuffer.get_complete_sentences b1) as [[ss b']|e] eqn:Hg;
    [|reflexivity].
  apply get_complete_sentences_ok in Hg as [-> ->]. cbn [fst snd].
  unfold mbind_M at 1.
  change (store_buffer rb b1 s1) with ((store_buffer rb b1 s1).1, Ok ()).
  cbn iota. cbn [speak_all]. unfold mbind_M at 1. cbn [ret].
  rewrite (bind_ok _ _ _ _ _ (await_eq _)). reflexivity.
Qed.

(** The token loop never synthesizes: it ends normally with all the tokens
    in the pending-response buffer, or it raises. *)
Lemma consume_outcome (c : conn_id) (rb : loc) (chunks : list string) :
  forall (s : t) (b : ResponseBuffer.t),
    heap_buffers s !! rb = Some b ->
    let out := consume synthesize lin2ulaw c rb chunks s in
    same service_view s out.1
    /\ calm s out.1
    /\ match out.2 with
       | Ok _ =>
           heap_buffers out.1 !! rb
           = Some (ResponseBuffer.mk (ResponseBuffer.buffer b ++ chunks)
                     (ResponseBuffer.complete b))
       | Raise _ => True
       end.
Proof.
  induction chunks as [|chunk more IH]; intros s b Hb out; subst out.
  - cbn. rewrite app_nil_r. repeat split; auto. destruct b; exact Hb.
  - rewrite (consume_cons c rb chunk more s b Hb). cbv zeta.
    set (b1 := ResponseBuffer.add_chunk b chunk).
    pose proof (store_buffer_lookup rb b b1 s Hb) as Hb1.
    set (s1 := (store_buffer rb b1 s).1) in *.
    assert (same service_view s s1 /\ calm s s1) as [Hsv1 Hcalm1].
    { unfold s1. split; [reflexivity|]. intros Hm. split; [reflexivity|exact Hm]. }
    destruct (ResponseBuffer.get_complete_sentences b1) as [p|e];
      [|cbn [fst snd]; repeat split; assumption].
    pose proof (store_buffer_lookup rb b1 b1 s1 Hb1) as Hb2.
    set (s2 := (store_buffer rb b1 s1).1) in *.
    assert (heap_buffers (await s2).1 !! rb = Some b1) as Hb3
      by (rewrite await_buffers; exact Hb2).
    destruct (IH (await s2).1 b1 Hb3) as (Hsv & Hcalm & Hres).
    assert (same service_view s1 (await s2).1 /\ calm s1 (await s2).1)
      as [Hsv2 Hcalm2].
    { split.
      - transitivity s2; [reflexivity|apply await_service].
      - transitivity s2; [|apply await_calm].
        intros Hm. split; [reflexivity|exact Hm]. }
    split; [|split].
    + etrans; [exact Hsv1|]. etrans; [exact Hsv2|exact Hsv].
    + etrans; [exact Hcalm1|]. etrans; [exact Hcalm2|exact Hcalm].
    + destruct (consume synthesize lin2ulaw c rb more (await s2).1) as [s' [u|e]];
        cbn [fst snd] in *; [|exact I].
      rewrite Hres. unfold b1. cbn. rewrite <- app_assoc. reflexivity.
Qed.

(** On a live session the text is submitted to the synthesis service exactly
    once and the function returns normally. *)
Lemma synthesize_and_send_speaks (c : conn_id) (text : string) (s : t) :
  live c s ->
  let out := synthesize_and_send synthesize lin2ulaw c text s in
  out.2 = Ok () /\ tts_requests out.1 = tts_requests s ++ [text].
Proof.
  intros ([conn Hc] & [sid Hs] & [om Ho] & [ck Hk]) out. subst out.
  rewrite (synthesize_and_send_live synthesize lin2ulaw c text s conn sid om ck
             Hc Hs Ho Hk).
  set (rest := (speak_loop lin2ulaw c (websocket conn) sid om ck (synthesize text);;
       k <~ gets (chunker_at ck);
       let '(remaining, k') := AudioChunker.get_remaining k in
       store_chunker ck k';;
       match remaining with
       | [] => ret ()
       | _ :: _ => send (websocket conn) (MediaMsg sid remaining)
       end)).
  assert (preserves (same service_view)
            (try_finally (try_except rest (fun _ => ret ()))
               (write_is_speaking c false))) as Hrest.
  { unfold rest, set_playing, store_output, store_chunker, write_is_speaking.
    repeat first [apply speak_loop_service | apply send_service | preserves_step];
      same_updates. }
  set (s3 := ((write_is_speaking c true;;
               set_playing om true;;
               modify (fun s => set_tts_requests (tts_requests s ++ [text]) s))
                s).1).
  change (try_finally
            (try_except
               (write_is_speaking c true;;
                set_playing om true;;
                modify (fun s => set_tts_requests (tts_requests s ++ [text]) s);;
                rest) (fun _ => ret ()))
            (write_is_speaking c false) s)
    with (try_finally (try_except rest (fun _ => ret ()))
            (write_is_speaking c false) s3).
  split.
  - destruct (try_finally_lowers_flag c rest s3) as [s' ->]. reflexivity.
  - pose proof (Hrest s3) as H. unfold same, service_view in H.
    apply (f_equal fst) in H. cbn [fst] in H. rewrite H. reflexivity.
Qed.


(** The [try] block of [process_with_ai], step by step. *)
Lemma respond_unfold (c : conn_id) (transcript caller_id : string) (rb : loc)
    (r : ConversationManager.api_reply) (s : t) :
  let s1 := set_openai_client
              (ConversationManager.begin_request (openai_client s) transcript
                 caller_id true).1 s in
  respond synthesize lin2ulaw c transcript caller_id rb r s
  = match consume synthesize lin2ulaw c rb (ConversationManager.yields true r)
            (await s1).1 with
    | (s3, Ok _) =>
        let s4 := set_openai_client
                    (ConversationManager.finish (openai_client s3) caller_id
                       true r) s3 in
        let remaining := ResponseBuffer.get_remaining (buffer_at rb s4) in
        if PyStr.strip_nonempty remaining
        then synthesize_and_send synthesize lin2ulaw c remaining s4
        else (s4, Ok ())
    | (s3, Raise e) => (s3, Raise e)
    end.
Proof.
  intros s1. unfold respond. unfold mbind_M at 1. cbn [modify]. fold s1.
  rewrite (bind_ok _ _ _ _ _ (await_eq s1)).
  unfold mbind_M at 1.
  destruct (consume synthesize lin2ulaw c rb (ConversationManager.yields true r)
              (await s1).1) as [s3 [u|e]]; [|reflexivity].
  unfold mbind_M. cbn [modify gets]. cbv zeta.
  destruct (PyStr.strip_nonempty _); reflexivity.
Qed.


End GenerationFailure.

(** ** The pipeline keeps the speaking flag sound *)
Section PipelineSound.
Import VoiceAgent AgentSpec.

Variable synthesize : string -> list bytes.
Variable lin2ulaw : bytes -> result bytes.

Lemma speak_all_sound (c c' : conn_id) (sentences : list string) :
  preserves (sound_step c) (speak_all synthesize lin2ulaw c' sentences).
Proof.
  induction sentences as [|sentence more IH]; cbn [speak_all].
  - apply preserves_ret; typeclasses eauto.
  - repeat first [apply synthesize_and_send_sound | exact IH | preserves_step].
Qed.

Lemma consume_sound (c c' : conn_id) (rb : loc) (chunks : list string) :
  preserves (sound_step c) (consume synthesize lin2ulaw c' rb chunks).
Proof.
  induction chunks as [|chunk more IH]; cbn [consume].
  - apply preserves_ret; typeclasses eauto.
  - unfold store_buffer.
    repeat first [apply speak_all_sound | apply await_sound | exact IH
                 | preserves_step];
      intros H; exact H.
Qed.

Lemma process_with_ai_sound (c c' : conn_id) (transcript : string)
    (r : ConversationManager.api_reply) :
  preserves (sound_step c) (process_with_ai synthesize lin2ulaw c' transcript r).
Proof.
  unfold process_with_ai, respond, store_buffer.
  repeat first [apply consume_sound | apply await_sound
               | apply synthesize_and_send_sound | preserves_step];
    intros H; exact H.
Qed.

(** Every operation of the agent keeps the speaking flag sound: the flag
    of a connection is up only while its session is live. *)
Lemma handle_transcript_sound (c c' : conn_id)
    (result : RivaASRClient.transcript_result)
    (r : ConversationManager.api_reply) :
  preserves (sound_step c) (handle_transcript synthesize lin2ulaw c' result r).
Proof.
  unfold handle_transcript.
  repeat first [apply process_with_ai_sound | preserves_step];
    intros H; exact H.
Qed.

Lemma send_greeting_sound (c c' : conn_id) :
  preserves (sound_step c) (send_greeting synthesize lin2ulaw c').
Proof.
  unfold send_greeting.
  repeat first [apply await_sound | apply synthesize_and_send_sound
               | preserves_step].
Qed.

End PipelineSound.

(** ** The statements at concrete calls *)
Section Witnesses.
Import VoiceAgent AgentSpec.

Lemma synthesize_and_send_resets_flag_witness :
  let out := synthesize_and_send Scenario.silence Scenario.encode_silence 7
               greeting Scenario.speaking_call in
  speaking 7 out.1 = false
  /\ (live 7 Scenario.speaking_call ->
      out.2 = Ok () /\ is_speaking out.1 !! 7 = Some false).
Proof.
  apply (synthesize_and_send_resets_flag Scenario.silence Scenario.encode_silence
           7 greeting Scenario.speaking_call).
  intros _. repeat split; vm_compute; eauto.
Defined.

Lemma final_transcript_handling_witness :
  let result := RivaASRClient.Transcript "What is the weather" true 0 in
  let r := ConversationManager.Reply [Some "Sunny"; Some " today"] None (Ok "") in
  let s := Scenario.pending_call in
  let out := handle_transcript Scenario.silence Scenario.encode_silence 7
               result r s in
  (RivaASRClient.is_final result
   && PyStr.strip_nonempty (RivaASRClient.transcript result) = false ->
   out = (s, Ok ()))
  /\ (RivaASRClient.is_final result
      && PyStr.strip_nonempty (RivaASRClient.transcript result) = true ->
      let cleared :=
        set_heap_buffers
          (<[0%nat := ResponseBuffer.mk [] false]> (heap_buffers s))
          (set_last_transcript
             (<[7%nat := RivaASRClient.transcript result]> (last_transcript s)) s) in
      last_transcript cleared !! 7%nat = Some (RivaASRClient.transcript result)
      /\ ResponseBuffer.buffer (buffer_at 0 cleared) = []
      /\ ResponseBuffer.get_remaining (buffer_at 0 cleared) = ""
      /\ calls_view cleared = calls_view s
      /\ tts_requests cleared = tts_requests s
      /\ out = try_except
                 (respond Scenario.silence Scenario.encode_silence 7
                    (RivaASRClient.transcript result)
                    (default "unknown" (caller_numbers s !! 7%nat)) 0 r)
                 (fun _ => synthesize_and_send Scenario.silence
                             Scenario.encode_silence 7 apology)
                 cleared
      /\ calls_view out.1
         = calls_view s
             ++ [ConversationManager.Call
                   (ConversationManager.Msg ConversationManager.System
                      ConversationManager.system_prompt
                    :: ConversationManager.last10
                         (ConversationManager.history (openai_client s)
                            (default "unknown" (caller_numbers s !! 7%nat))
                          ++ [ConversationManager.Msg ConversationManager.User
                                (RivaASRClient.transcript result)])) true]).
Proof.
  apply (final_transcript_handling Scenario.silence Scenario.encode_silence 7
           (RivaASRClient.Transcript "What is the weather" true 0)
           (ConversationManager.Reply [Some "Sunny"; Some " today"] None (Ok ""))
           Scenario.pending_call
           (Connection (Some "MZ0001") (Some "CA0001") Scenario.caller 7) 0);
    vm_compute; reflexivity.
Defined.



Lemma cleanup_idempotent_witness :
  let once := cleanup_connection 7 Scenario.two_calls in
  once.2 = Ok ()
  /\ cleanup_times 3 7 Scenario.two_calls = once
  /\ cleanup_connection 7 once.1 = (once.1, Ok ())
  /\ released 7 once.1
  /\ (forall l, audio_processors Scenario.two_calls !! 7 = Some l ->
               is_processing (processor_at l once.1) = false)
  /\ (forall a rest,
         caller_numbers Scenario.two_calls !! 7 = Some (String a rest) ->
         ConversationManager.conversations (openai_client once.1)
           !! String a rest = None)
  /\ (caller_numbers Scenario.two_calls !! 7 = Some ""
      \/ caller_numbers Scenario.two_calls !! 7 = None ->
      ConversationManager.conversations (openai_client once.1)
      = ConversationManager.conversations (openai_client Scenario.two_calls)).
Proof. apply (cleanup_idempotent 7 Scenario.two_calls 2). Defined.

Lemma cleanup_clears_caller_history_witness :
  ConversationManager.conversations
    (openai_client (cleanup_connection 7 Scenario.two_calls).1)
    !! Scenario.caller = None
  /\ ConversationManager.conversations
       (openai_client (cleanup_connection 7 Scenario.two_calls).1) !! "+15550000000"
     = ConversationManager.conversations (openai_client Scenario.two_calls)
         !! "+15550000000".
Proof.
  pose proof (cleanup_clears_caller_history 7 Scenario.two_calls "+15550000000")
    as H.
  cbv zeta in H.
  change (caller_numbers Scenario.two_calls !! 7) with (Some Scenario.caller) in H.
  destruct H as [H1 H2]. split; [exact H1|apply H2; discriminate].
Defined.

(** An interrupted fragment whose audio so far did not fill a frame: the
    loop ends at the frame check, and the residual bytes of the fragment are
    then flushed to the transport as one zero-padded frame. *)
Example interrupted_fragment_flush :
  let synthesize := fun _ : string => [replicate 160 x00; replicate 320 x00] in
  let s := set_inbox [[]; [Message 7 (EvMedia (Some Scenario.loud_frame))]]
             Scenario.one_call in
  let out := synthesize_and_send synthesize Scenario.encode_silence 7 greeting s in
  out.2 = Ok ()
  /\ sent out.1
     = [(7%nat, MediaMsg (Some "MZ0001") (replicate 80 xff ++ replicate 80 x00))]
  /\ is_speaking out.1 !! 7 = Some false.
Proof. cbv zeta. repeat split; vm_compute; reflexivity. Qed.

End Witnesses.

(** * Further properties of the code *)

(** ** AudioChunker: counting, write boundaries, flushing *)
Section ChunkerMore.
Import AudioChunker.

Lemma concat_fixed_length (size : Z) (cs : list bytes) :
  Forall (fun c => len c = size) cs ->
  Z.of_nat (length (concat cs)) = (size * Z.of_nat (length cs))%Z.
Proof.
  induction 1 as [|c cs Hc _ IH]; simpl; [lia|].
  rewrite length_app. unfold len in Hc. lia.
Qed.

(** A byte string has one framing only: whole chunks of the given size
    followed by less than one chunk. *)
Lemma framing_unique (size : Z) (cs1 : list bytes) :
  forall (cs2 : list bytes) (b1 b2 : bytes),
    (0 < size)%Z ->
    Forall (fun c => len c = size) cs1 -> Forall (fun c => len c = size) cs2 ->
    (len b1 < size)%Z -> (len b2 < size)%Z ->
    concat cs1 ++ b1 = concat cs2 ++ b2 ->
    cs1 = cs2 /\ b1 = b2.
Proof.
  unfold len. induction cs1 as [|c1 cs1 IH]; intros cs2 b1 b2 Hs H1 H2 Hb1 Hb2 He.
  - destruct cs2 as [|c2 cs2]; [simpl in He; auto|].
    exfalso. inversion H2; subst. apply (f_equal length) in He.
    simpl in He. rewrite !length_app in He. lia.
  - destruct cs2 as [|c2 cs2].
    + exfalso. inversion H1; subst. apply (f_equal length) in He.
      simpl in He. rewrite !length_app in He. lia.
    + inversion H1; subst. inversion H2; subst. simpl in He.
      rewrite <- !app_assoc in He.
      apply app_inj_1 in He as [-> He]; [|lia].
      destruct (IH cs2 b1 b2) as [-> ->]; auto.
Qed.

(** X1: for a positive chunk size, add_audio returns as many chunks as the
    buffered and new bytes together hold whole chunks, and keeps the rest:
    the count is the quotient and the residual length the remainder of the
    total length by the chunk size. *)
Theorem add_audio_counts (ck : t) (data : bytes) (fuel : nat) :
  (0 < chunk_size ck)%Z ->
  (length (buffer ck ++ data) < fuel)%nat ->
  exists (chunks : list bytes) (ck' : t),
    add_audio fuel ck data = Some (chunks, ck')
    /\ Z.of_nat (length chunks) = (len (buffer ck ++ data) / chunk_size ck)%Z
    /\ len (buffer ck') = (len (buffer ck ++ data) mod chunk_size ck)%Z.
Proof.
  intros Hsize Hfuel.
  destruct (add_audio_positive ck data fuel Hsize Hfuel)
    as (cs & ck' & He & _ & Hc & Hall & Hr).
  exists cs, ck'. split; [exact He|].
  pose proof (concat_fixed_length _ _ Hall) as Hlen.
  assert (len (buffer ck ++ data)
          = (chunk_size ck * Z.of_nat (length cs) + len (buffer ck'))%Z) as Htot.
  { unfold len. rewrite <- Hc, length_app. lia. }
  assert (0 <= len (buffer ck'))%Z as Hnn by (unfold len; lia).
  split.
  - apply (Z.div_unique_pos _ _ _ (len (buffer ck'))); [lia|exact Htot].
  - apply (Z.mod_unique_pos _ _ (Z.of_nat (length cs))); [lia|exact Htot].
Qed.

Lemma add_audio_counts_witness :
  exists (chunks : list bytes) (ck' : t),
    add_audio 6 (mk 2 [x01]) [x02; x03; x04; x05] = Some (chunks, ck')
    /\ Z.of_nat (length chunks)
       = (len (buffer (mk 2 [x01]) ++ [x02; x03; x04; x05])
          / chunk_size (mk 2 [x01]))%Z
    /\ len (buffer ck')
       = (len (buffer (mk 2 [x01]) ++ [x02; x03; x04; x05])
          mod chunk_size (mk 2 [x01]))%Z.
Proof.
  apply (add_audio_counts (mk 2 [x01]) [x02; x03; x04; x05] 6); simpl; lia.
Defined.

(** X2: framing does not depend on how the audio was cut into writes: a
    sequence of writes to a new chunker returns, in order, the same chunks
    and leaves the same residual bytes as one write of their
    concatenation. *)
Theorem chunking_ignores_write_boundaries (size : Z) (writes : list bytes)
    (fuel : nat) :
  (0 < size)%Z ->
  (length (concat writes) < fuel)%nat ->
  feed fuel (init size) writes [] = add_audio fuel (init size) (concat writes).
Proof.
  intros Hsize Hfuel.
  destruct (feed_positive writes (init size) [] fuel Hsize)
    as (cs1 & ck1 & -> & Hs1 & Hc1 & Hall1 & Hr1); [exact Hsize|exact Hfuel|].
  destruct (add_audio_positive (init size) (concat writes) fuel Hsize Hfuel)
    as (cs2 & ck2 & -> & Hs2 & Hc2 & Hall2 & Hr2).
  simpl in *.
  destruct (framing_unique size cs1 cs2 (buffer ck1) (buffer ck2))
    as [-> Hb]; auto; [congruence|].
  destruct ck1, ck2; simpl in *; subst. reflexivity.
Qed.

Lemma chunking_ignores_write_boundaries_witness :
  feed 6 (init 2) [[x01; x02; x03]; []; [x04; x05]] []
  = add_audio 6 (init 2) (concat [[x01; x02; x03]; []; [x04; x05]]).
Proof.
  apply (chunking_ignores_write_boundaries 2 [[x01; x02; x03]; []; [x04; x05]] 6);
    simpl; lia.
Defined.

(** X3: flushing empties the chunker, so a second flush returns the empty
    byte string and changes nothing; what a flush returns always starts with
    the residual bytes, and is the residual bytes alone when they already
    fill a chunk. *)
Theorem get_remaining_twice (ck : t) :
  let first := get_remaining ck in
  buffer first.2 = []
  /\ get_remaining first.2 = ([], first.2)
  /\ buffer ck `prefix_of` first.1
  /\ ((chunk_size ck <= len (buffer ck))%Z -> first.1 = buffer ck).
Proof.
  unfold get_remaining, len.
  destruct (buffer ck) as [|b bs] eqn:Hb; cbn [fst snd].
  - rewrite Hb. repeat split; auto using prefix_nil.
  - cbn [buffer]. repeat split.
    + destruct (_ <? _)%Z; [apply prefix_app_r|]; reflexivity.
    + intros Hle. destruct (Z.ltb_spec 0 (chunk_size ck - Z.of_nat (length (b :: bs))));
        [lia|reflexivity].
Qed.

(** X4: a chunker built with a chunk size that is not positive never
    finishes an add_audio call: the loop condition stays true whatever the
    number of iterations allowed. *)
Theorem add_audio_nonpositive_size_diverges (ck : t) (data : bytes)
    (fuel : nat) :
  (chunk_size ck <= 0)%Z -> add_audio fuel ck data = None.
Proof.
  intros Hsize. unfold add_audio. rewrite drain_diverges by exact Hsize.
  reflexivity.
Qed.

Lemma add_audio_nonpositive_size_diverges_witness :
  add_audio 1000 (init 0) [x01; x02] = None.
Proof. apply (add_audio_nonpositive_size_diverges (init 0) [x01; x02] 1000). simpl. lia. Defined.

End ChunkerMore.

(** ** ResponseBuffer: texts without a sentence boundary *)
Section SegmenterMore.
Import PyStr ResponseBuffer.

Lemma string_of_list_ascii_app (l : list ascii) (s : string) :
  string_of_list_ascii (l ++ list_ascii_of_string s)
  = string_of_list_ascii l +:+ s.
Proof.
  induction l as [|a l IH]; simpl.
  - apply string_of_list_ascii_of_string.
  - rewrite IH. reflexivity.
Qed.

(** Without a match the split returns the text as its only part. *)
Lemma split_go_no_match (s : string) :
  re_search s = None ->
  forall cur, split_go false cur s = [string_of_list_ascii (rev cur) +:+ s].
Proof.
  induction s as [|c rest IH]; intros Hs cur.
  - simpl. rewrite append_nil_r. reflexivity.
  - simpl in Hs |- *.
    destruct (is_end c && starts_with_space rest); [discriminate|].
    rewrite (IH Hs). simpl. f_equal.
    rewrite <- (string_of_list_ascii_app (rev cur ++ [c]) rest).
    rewrite <- (string_of_list_ascii_app (rev cur) (String c rest)).
    simpl. rewrite <- app_assoc. reflexivity.
Qed.

Lemma re_split_no_match (s : string) : re_search s = None -> re_split s = [s].
Proof. intros H. unfold re_split. rewrite (split_go_no_match s H). reflexivity. Qed.

(** A sentence boundary in a text is still one when more text follows. *)
Lemma starts_with_space_app (a b : string) :
  starts_with_space a = true -> starts_with_space (a +:+ b) = true.
Proof. destruct a as [|w a]; simpl; [discriminate|auto]. Qed.

Lemma re_search_app (a b : string) (g : string) :
  re_search a = Some g -> exists g', re_search (a +:+ b) = Some g'.
Proof.
  induction a as [|c rest IH]; simpl; [discriminate|].
  destruct (is_end c && starts_with_space rest) eqn:Hm.
  - apply andb_prop in Hm as [-> Hsp].
    rewrite (starts_with_space_app _ b Hsp). simpl. eauto.
  - intros Hs. destruct (is_end c && starts_with_space (rest +:+ b)); eauto.
Qed.

(** X5: get_complete_sentences returns normally exactly when the buffered
    text has no sentence end followed by whitespace; it then returns no
    sentence and leaves the buffer as it is. *)
Theorem get_complete_sentences_no_boundary (rb : ResponseBuffer.t) :
  (re_search (join (buffer rb)) = None
   <-> get_complete_sentences rb = Ok ([], rb))
  /\ (re_search (join (buffer rb)) = None -> re_split (join (buffer rb))
                                            = [join (buffer rb)]).
Proof.
  split; [split|apply re_split_no_match].
  - intros Hn. unfold get_complete_sentences.
    rewrite (re_split_no_match _ Hn). reflexivity.
  - intros Hok. destruct (re_search (join (buffer rb))) as [g|] eqn:Hs;
      [|reflexivity].
    rewrite (get_complete_sentences_raises rb g Hs) in Hok. discriminate.
Qed.

Lemma feed_no_boundary (incs : list string) :
  forall rb acc,
    re_search (join (buffer rb ++ incs)) = None ->
    feed rb incs acc
    = Ok (acc, ResponseBuffer.mk (buffer rb ++ incs) (complete rb)).
Proof.
  induction incs as [|chunk more IH]; intros rb acc Hn; simpl.
  - rewrite app_nil_r. destruct rb; reflexivity.
  - assert (re_search (join (buffer (add_chunk rb chunk))) = None) as Hn1.
    { destruct (re_search (join (buffer (add_chunk rb chunk)))) as [g|] eqn:Hs;
        [|reflexivity].
      destruct (re_search_app _ (join more) g Hs) as [g' Hg'].
      rewrite <- join_app in Hg'. simpl in Hg'.
      rewrite <- app_assoc in Hg'. simpl in Hg'. congruence. }
    unfold get_complete_sentences at 1.
    rewrite (re_split_no_match _ Hn1). cbn.
    rewrite app_nil_r, IH; simpl; rewrite <- app_assoc; [reflexivity|exact Hn].
Qed.

(** X6: a token stream is segmented without an exception exactly when the
    whole text has no sentence boundary; no sentence is then returned and
    the remainder requested at stream end is the whole text. *)
Theorem segment_stream_no_boundary (incs : list string) :
  re_search (join incs) = None
  <-> segment_stream incs = Ok ([], join incs).
Proof.
  split.
  - intros Hn. unfold segment_stream.
    rewrite (feed_no_boundary incs init [] Hn). reflexivity.
  - intros Hok. destruct (re_search (join incs)) as [g|] eqn:Hs; [|reflexivity].
    exfalso. revert Hok Hs. unfold segment_stream.
    assert (forall rb acc g,
              re_search (join (buffer rb ++ incs)) = Some g ->
              incs <> [] ->
              exists e, feed rb incs acc = Raise e) as Hraise.
    { clear. induction incs as [|chunk more IH]; intros rb acc g Hs Hne;
        [congruence|].
      simpl.
      destruct (get_complete_sentences (add_chunk rb chunk)) as [[ss rb2]|e] eqn:Hg;
        [|eexists; reflexivity].
      apply get_complete_sentences_ok in Hg as Hg'. destruct Hg' as [-> ->].
      simpl. destruct more as [|chunk2 more'].
      - exfalso. simpl in Hs.
        rewrite (get_complete_sentences_raises (add_chunk rb chunk) g) in Hg;
          [discriminate|exact Hs].
      - apply (IH (add_chunk rb chunk) _ g); [|discriminate].
        simpl. rewrite <- app_assoc. exact Hs. }
    intros Hok Hs. destruct incs as [|chunk more]; [simpl in Hs; discriminate|].
    destruct (Hraise init [] g Hs ltac:(discriminate)) as [e He].
    rewrite He in Hok. discriminate.
Qed.

End SegmenterMore.

(** ** ConversationManager: what a request records *)
Section ConversationMore.
Import ConversationManager ConversationSpec.

Lemma history_append_turn_other (cm : t) (a b : string) (m : message) :
  a <> b -> conversations (append_turn cm a m) !! b = conversations cm !! b.
Proof. intros Hne. unfold append_turn. simpl. apply lookup_insert_ne, Hne. Qed.

Lemma conversations_begin_request (cm : t) (text caller_id : string)
    (stream : bool) :
  conversations (begin_request cm text caller_id stream).1
  = <[caller_id := history cm caller_id ++ [Msg User text]]> (conversations cm).
Proof. reflexivity. Qed.

Lemma history_begin_request (cm : t) (text caller_id : string) (stream : bool) :
  history (begin_request cm text caller_id stream).1 caller_id
  = history cm caller_id ++ [Msg User text].
Proof.
  unfold history at 1. rewrite conversations_begin_request, lookup_insert_eq.
  reflexivity.
Qed.

(** X7: histories are kept per caller: a request or a history clearing for
    one caller identity leaves the conversation of every other caller
    identity exactly as it was. *)
Theorem conversations_isolated (cm : t) (text a b : string) (stream : bool)
    (r : api_reply) :
  a <> b ->
  conversations (get_response cm text a stream r).2 !! b = conversations cm !! b
  /\ conversations (clear_caller_history cm a) !! b = conversations cm !! b.
Proof.
  intros Hne. split.
  - unfold get_response.
    pose proof (conversations_begin_request cm text a stream) as Hb.
    destruct (begin_request cm text a stream) as [cm1 msgs]. cbn [fst snd] in *.
    assert (conversations cm1 !! b = conversations cm !! b) as H1
      by (rewrite Hb; apply lookup_insert_ne, Hne).
    unfold finish.
    destruct stream, (stream_error r), (completion r);
      rewrite ?history_append_turn_other by exact Hne; exact H1.
  - rewrite clear_caller_history_conversations. apply lookup_delete_ne, Hne.
Qed.

Lemma conversations_isolated_witness :
  conversations
    (get_response init "hi" "+15550000001" true
       (Reply [Some "Hello"] None (Ok ""))).2 !! "+15550000002"
  = conversations init !! "+15550000002"
  /\ conversations (clear_caller_history init "+15550000001") !! "+15550000002"
     = conversations init !! "+15550000002".
Proof.
  apply (conversations_isolated init "hi" "+15550000001" "+15550000002" true
           (Reply [Some "Hello"] None (Ok ""))).
  discriminate.
Defined.

Lemma get_response_history_ok (cm : t) (text caller_id : string) (r : api_reply) :
  stream_error r = None ->
  history (get_response cm text caller_id true r).2 caller_id
  = history cm caller_id
      ++ [Msg User text; Msg Assistant (PyStr.join (contents (deltas r)))].
Proof.
  intros Hok. unfold get_response.
  pose proof (history_begin_request cm text caller_id true) as Hh.
  destruct (begin_request cm text caller_id true) as [cm1 msgs]. cbn [fst snd] in *.
  unfold finish. rewrite Hok, history_append_turn, Hh, <- app_assoc. reflexivity.
Qed.





(** X10: clearing a caller's history makes the next request of that caller
    start afresh -- its context is the system prompt and the new user turn
    only -- and clearing a caller without history changes nothing. *)
Theorem clear_then_ask_is_fresh (cm : t) (text caller_id : string)
    (stream : bool) (r : api_reply) :
  (get_response (clear_caller_history cm caller_id) text caller_id stream r).1.1
  = [Msg System system_prompt; Msg User text]
  /\ (conversations cm !! caller_id = None ->
      clear_caller_history cm caller_id = cm).
Proof.
  split.
  - unfold get_response.
    pose proof (begin_request_messages (clear_caller_history cm caller_id) text
                  caller_id stream) as Hm.
    destruct (begin_request (clear_caller_history cm caller_id) text caller_id
                stream) as [cm1 msgs]. cbn [fst snd] in *.
    rewrite Hm. unfold history.
    rewrite clear_caller_history_conversations, lookup_delete_eq. reflexivity.
  - intros Hn. unfold clear_caller_history, clear_conversation.
    destruct (decide _) as [[x Hx]|_]; [congruence|reflexivity].
Qed.

Lemma serve_answered (cm : t) (caller_id : string) (q : request) :
  answered caller_id q ->
  length (history (serve cm q) caller_id)
  = (length (history cm caller_id) + 2)%nat.
Proof.
  destruct q as [text c r|c]; cbn [answered serve]; [|contradiction].
  intros [-> Hok].
  pose proof (get_response_history_ok cm text caller_id r Hok) as H.
  rewrite H, length_app. reflexivity.
Qed.

(** X11: only the context of a request is bounded, the stored history is
    not: after n answered requests of a caller the history of that caller is
    2n turns longer, without any truncation. *)
Theorem history_grows_unbounded (caller_id : string) (qs : list request) :
  forall cm : t,
    Forall (answered caller_id) qs ->
    length (history (serve_all cm qs) caller_id)
    = (length (history cm caller_id) + 2 * length qs)%nat.
Proof.
  induction qs as [|q qs IH]; intros cm Hall; simpl; [lia|].
  inversion Hall as [|? ? Hq Hqs]; subst.
  rewrite (IH (serve cm q) Hqs), (serve_answered cm caller_id q Hq). lia.
Qed.

Lemma history_grows_unbounded_witness :
  length
    (history
       (serve_all init
          (replicate 12 (Ask "again" "+15550000001"
                           (Reply [Some "Yes"] None (Ok "")))))
       "+15550000001")
  = (length (history init "+15550000001")
     + 2 * length (replicate 12 (Ask "again" "+15550000001"
                                   (Reply [Some "Yes"] None (Ok "")))))%nat.
Proof.
  apply (history_grows_unbounded "+15550000001"
           (replicate 12 (Ask "again" "+15550000001"
                            (Reply [Some "Yes"] None (Ok "")))) init).
  repeat constructor.
Defined.

End ConversationMore.

(** ** Recognition adapter: how many results, and which *)
Section RecognitionMore.
Import RivaASRClient RecognitionSpec.

Variable ratecv : bytes -> Z -> Z -> Z -> Z -> result bytes.

Lemma recognize_loop_emitted (audio_stream : list bytes) (stream_end : option exn) :
  forall audio_buffer : list bytes,
    (length audio_buffer < 50)%nat ->
    let tr := (recognize_loop ratecv audio_buffer audio_stream stream_end).1 in
    Forall (fun r => r = placeholder) (emitted tr)
    /\ (50 * length (emitted tr) <= length audio_buffer + length (pulled tr))%nat
    /\ (Forall (fun frame => exists x, resample_audio ratecv frame 8000 16000 = Ok x)
          audio_stream ->
        pulled tr = audio_stream
        /\ (length audio_buffer + length audio_stream
            < 50 * length (emitted tr) + 50)%nat).
Proof.
  induction audio_stream as [|frame rest IH]; intros buf Hlen.
  - simpl. destruct stream_end; simpl; repeat split; auto; lia.
  - rewrite recognize_loop_cons.
    destruct (resample_audio ratecv frame 8000 16000) as [x|e] eqn:Hx.
    + assert (length (buf ++ [x]) = S (length buf)) as Hlb
        by (rewrite length_app; simpl; lia).
      destruct (Nat.leb_spec 50 (length (buf ++ [x]))) as [Hfull|Hnot].
      * destruct (IH [] ltac:(simpl; lia)) as (Hp & Hle & Hex).
        destruct (recognize_loop ratecv [] rest stream_end) as [tr st].
        cbn [fst snd emitted pulled length] in *.
        split; [constructor; [reflexivity|exact Hp]|].
        split; [lia|].
        intros Hall. inversion Hall as [|? ? _ Hrest]; subst.
        destruct (Hex Hrest) as [-> Hlt]. split; [reflexivity|lia].
      * destruct (IH (buf ++ [x]) ltac:(lia)) as (Hp & Hle & Hex).
        destruct (recognize_loop ratecv (buf ++ [x]) rest stream_end) as [tr st].
        cbn [fst snd emitted pulled length] in *.
        split; [exact Hp|]. split; [lia|].
        intros Hall. inversion Hall as [|? ? _ Hrest]; subst.
        destruct (Hex Hrest) as [-> Hlt]. split; [reflexivity|lia].
    + cbn [fst snd emitted pulled length].
      split; [constructor|]. split; [lia|].
      intros Hall. inversion Hall as [|? ? [x Hx'] _]; subst. congruence.
Qed.

(** X12: every result of streaming_recognize is the non-final placeholder,
    and there is at most one per 50 frames pulled.  When no frame is
    rejected by the resampler and the stream ends normally, all frames are
    pulled and exactly one result is yielded per full batch of 50 frames:
    the frames after the last full batch are never recognized, and a stream
    of fewer than 50 frames yields nothing. *)
Theorem streaming_recognize_counts (audio_stream : list bytes)
    (stream_end : option exn) :
  let tr := (streaming_recognize ratecv audio_stream stream_end).1 in
  Forall (fun r => r = placeholder /\ is_final r = false) (emitted tr)
  /\ (length (emitted tr) <= length (pulled tr) / 50)%nat
  /\ (Forall (fun frame => exists x, resample_audio ratecv frame 8000 16000 = Ok x)
        audio_stream ->
      pulled tr = audio_stream
      /\ length (emitted tr) = (length audio_stream / 50)%nat
      /\ ((length audio_stream < 50)%nat -> emitted tr = [])).
Proof.
  unfold streaming_recognize.
  pose proof (recognize_loop_emitted audio_stream stream_end [] ltac:(simpl; lia))
    as (Hp & Hle & Hex).
  destruct (recognize_loop ratecv [] audio_stream stream_end) as [tr st].
  cbn [fst snd length] in *.
  split; [|split].
  - eapply Forall_impl; [exact Hp|]. intros r ->. split; reflexivity.
  - apply Nat.div_le_lower_bound; lia.
  - intros Hall. destruct (Hex Hall) as [Hpull Hlt]. rewrite Hpull in *.
    assert (length (emitted tr) = (length audio_stream / 50)%nat) as Hcount.
    { apply (Nat.div_unique _ 50 _ (length audio_stream - 50 * length (emitted tr)));
        lia. }
    split; [reflexivity|split; [exact Hcount|]].
    intros Hshort. rewrite Nat.div_small in Hcount by exact Hshort.
    destruct (emitted tr); [reflexivity|discriminate].
Qed.

End RecognitionMore.

(** ** Placeholder synthesis *)
Section SynthesisMore.
Import RivaTTSClient.

(** Slicing a byte string in steps of [k] loses nothing. *)
Lemma slices_concat (k : nat) (m : nat) :
  forall b : bytes,
    (length b <= m * k)%nat ->
    concat (map (fun i => take k (drop i b)) (map (fun j => j * k)%nat (seq 0 m)))
    = b.
Proof.
  induction m as [|m IH]; intros b Hlen.
  - simpl in *. destruct b; [reflexivity|simpl in Hlen; lia].
  - cbn [seq map concat]. rewrite <- seq_shift, !map_map.
    simpl Nat.mul. rewrite drop_0.
    transitivity (take k b ++ drop k b); [|apply take_drop].
    f_equal.
    transitivity (concat (map (fun i => take k (drop i (drop k b)))
                            (map (fun j => j * k)%nat (seq 0 m)))).
    + f_equal. rewrite map_map. apply map_ext. intros j.
      rewrite drop_drop. reflexivity.
    + apply IH. rewrite length_drop. lia.
Qed.

(** X13: the placeholder synthesis yields exactly the announced silence:
    the chunks concatenate to [2 * sample_count] zero bytes; there are as
    many chunks as 320-byte slices are needed; every chunk is non-empty, at
    most 320 bytes long and a whole number of 16-bit samples, and every
    chunk but the last has exactly 320 bytes. *)
Theorem synthesize_silence (sample_count : nat) :
  let chunks := synthesize sample_count in
  concat chunks = replicate (2 * sample_count) x00
  /\ length chunks = ((2 * sample_count + 319) / 320)%nat
  /\ (forall (i : nat) (c : bytes), chunks !! i = Some c ->
        (0 < length c <= 320)%nat
        /\ (exists samples, length c = 2 * samples)%nat
        /\ (S i < length chunks -> length c = 320%nat)).
Proof.
  cbv zeta. unfold synthesize, py_range.
  rewrite length_replicate.
  replace (sample_count * 2)%nat with (2 * sample_count)%nat by lia.
  replace (2 * sample_count + 320 - 1)%nat with (2 * sample_count + 319)%nat by lia.
  set (n := (2 * sample_count)%nat).
  set (m := ((n + 319) / 320)%nat).
  assert (320 * m <= n + 319)%nat as Hm1 by (apply Nat.Div0.mul_div_le).
  assert (n + 319 < 320 * m + 320)%nat as Hm2.
  { pose proof (Nat.div_mod (n + 319) 320 ltac:(lia)) as Hd.
    pose proof (Nat.mod_upper_bound (n + 319) 320 ltac:(lia)). fold m in Hd. lia. }
  split; [|split].
  - apply slices_concat. rewrite length_replicate. lia.
  - rewrite !length_map, length_seq. reflexivity.
  - intros i c Hc. rewrite !length_map, length_seq.
    rewrite !list_lookup_fmap in Hc.
    destruct (seq 0 m !! i) as [j|] eqn:Hj; [|discriminate].
    apply lookup_seq in Hj as [-> Hi]. simpl in Hc. injection Hc as <-.
    rewrite length_take, length_drop, length_replicate.
    split; [lia|]. split; [|lia].
    exists (Nat.min 160 (sample_count - i * 160)). unfold n. lia.
Qed.

End SynthesisMore.

(** ** The agent: inbound transport messages *)
Section InboundMore.
Import VoiceAgent AgentSpec AgentMore.

Lemma process_message_ok (ev : event) (c : conn_id) (s : t) :
  (process_message ev c s).2 = Ok ().
Proof.
  unfold process_message, try_except.
  destruct (match ev with
            | EvStart d => handle_start d c
            | EvMedia payload => handle_media payload c
            | EvStop => handle_stop c
            | EvOther => ret ()
            end s) as [s' [[]|e]]; reflexivity.
Qed.

(** X14: handling an inbound transport message never raises to the
    connection loop, never writes to the transport and never calls the
    synthesis or the generation service, whatever the message and the
    state. *)
Theorem inbound_messages_are_passive (ev : event) (c : conn_id) (s : t) :
  let out := process_message ev c s in
  out.2 = Ok ()
  /\ sent out.1 = sent s
  /\ tts_requests out.1 = tts_requests s
  /\ ConversationManager.api_calls (openai_client out.1)
     = ConversationManager.api_calls (openai_client s)
  /\ inbox out.1 = inbox s.
Proof.
  cbv zeta. split; [apply process_message_ok|].
  pose proof (process_message_env ev c s) as H. unfold same, env_view in H.
  injection H as H1 H2 H3 H4 H5 H6 H7. auto.
Qed.

(** What the media handler does when the connection has its resources:
    the audio is appended to the recognition queue. *)
Lemma handle_media_forwards (c : conn_id) (payload : bytes) (s : t)
    (l om : loc) :
  audio_processors s !! c = Some l ->
  output_managers s !! c = Some om ->
  let s' := (process_message (EvMedia (Some payload)) c s).1 in
  heap_processors s'
  = <[l := Processor (queue_at l s ++ [Audioop.ulaw2lin payload])
             (is_processing (processor_at l s))]> (heap_processors s)
  /\ audio_processors s' = audio_processors s
  /\ output_managers s' = output_managers s.
Proof.
  intros Hap Hom.
  unfold process_message, try_except, handle_media, mbind_M, gets, mem,
    read_is_speaking, dd_getitem, mbind_M, gets, modify, ret, lift, getitem,
    interrupt, store_output, write_is_speaking, processor_add_audio,
    store_processor, modify, mbind_M, gets, queue_at.
  rewrite Hap.
  destruct (is_speaking s !! c) as [[|]|]; cbn;
    try destruct (500 <? Audioop.rms (Audioop.ulaw2lin payload))%Z; cbn;
    rewrite ?Hom; cbn; auto.
Qed.

(** X15: a media message for a session that is not speaking, or whose
    decoded audio has RMS energy of at most 500, interrupts nothing: the
    speaking flag reads as before, no output manager is touched, nothing is
    sent, and the decoded audio is appended to the recognition queue. *)
Theorem media_without_interruption (c : conn_id) (payload : bytes) (s : t)
    (l : loc) :
  audio_processors s !! c = Some l ->
  speaking c s = false \/ (Audioop.rms (Audioop.ulaw2lin payload) <= 500)%Z ->
  let s' := (process_message (EvMedia (Some payload)) c s).1 in
  speaking c s' = speaking c s
  /\ heap_outputs s' = heap_outputs s
  /\ sent s' = sent s
  /\ heap_processors s'
     = <[l := Processor (queue_at l s ++ [Audioop.ulaw2lin payload])
                (is_processing (processor_at l s))]> (heap_processors s).
Proof.
  intros Hap Hquiet.
  unfold process_message, try_except, handle_media, mbind_M, gets, mem,
    read_is_speaking, dd_getitem, mbind_M, gets, modify, ret, lift, getitem,
    interrupt, store_output, write_is_speaking, processor_add_audio,
    store_processor, modify, mbind_M, gets, queue_at, speaking in *.
  rewrite Hap.
  destruct (is_speaking s !! c) as [[|]|] eqn:Hsp; cbn.
  - destruct Hquiet as [Hf|Hle]; [discriminate|].
    destruct (Z.ltb_spec 500 (Audioop.rms (Audioop.ulaw2lin payload))); [lia|].
    cbn. rewrite Hsp. auto.
  - rewrite Hsp. auto.
  - rewrite lookup_insert_eq. auto.
Qed.

Lemma media_without_interruption_witness :
  let s' := (process_message (EvMedia (Some (replicate 160 xff))) 7
               Scenario.speaking_call).1 in
  speaking 7 s' = speaking 7 Scenario.speaking_call
  /\ heap_outputs s' = heap_outputs Scenario.speaking_call
  /\ sent s' = sent Scenario.speaking_call
  /\ heap_processors s'
     = <[0%nat := Processor (queue_at 0 Scenario.speaking_call
                             ++ [Audioop.ulaw2lin (replicate 160 xff)])
                (is_processing (processor_at 0 Scenario.speaking_call))]>
         (heap_processors Scenario.speaking_call).
Proof.
  apply (media_without_interruption 7 (replicate 160 xff) Scenario.speaking_call 0).
  - vm_compute; reflexivity.
  - right. vm_compute. discriminate.
Defined.

Lemma queue_at_insert (l : loc) (p : AudioProcessor) (s : t) :
  (l < length (heap_processors s))%nat ->
  queue_at l (set_heap_processors (<[l := p]> (heap_processors s)) s)
  = audio_queue p.
Proof.
  intros Hl. unfold queue_at, processor_at. cbn.
  rewrite list_lookup_insert_eq by exact Hl. reflexivity.
Qed.

Lemma media_batch_forwards (c : conn_id) (l om : loc) (payloads : list bytes) :
  forall s : t,
    audio_processors s !! c = Some l ->
    output_managers s !! c = Some om ->
    (l < length (heap_processors s))%nat ->
    let s' := foldl deliver s (media_batch c payloads) in
    queue_at l s' = queue_at l s ++ map Audioop.ulaw2lin payloads
    /\ audio_processors s' !! c = Some l.
Proof.
  induction payloads as [|p ps IH]; intros s Hap Hom Hl; cbn zeta.
  - simpl. rewrite app_nil_r. auto.
  - cbn [media_batch map foldl deliver].
    destruct (handle_media_forwards c p s l om Hap Hom) as (Hh & Ha & Ho).
    set (s1 := (process_message (EvMedia (Some p)) c s).1) in *.
    destruct (IH s1) as [Hq Hap'].
    + rewrite Ha. exact Hap.
    + rewrite Ho. exact Hom.
    + rewrite Hh, length_insert. exact Hl.
    + fold (media_batch c ps). split; [|exact Hap'].
      rewrite Hq. unfold queue_at at 1, processor_at. rewrite Hh.
      rewrite list_lookup_insert_eq by exact Hl. cbn.
      rewrite <- app_assoc. reflexivity.
Qed.

(** X16: media messages reach the recognition queue in arrival order: after
    any sequence of media messages of a connection that has its resources,
    the queue of its audio processor is the old queue followed by the
    decoded payloads, one per message and in the order received, whether or
    not the session was speaking or interrupted meanwhile. *)
Theorem media_forwarded_in_order (c : conn_id) (l om : loc)
    (payloads : list bytes) (s : t) :
  audio_processors s !! c = Some l ->
  output_managers s !! c = Some om ->
  (l < length (heap_processors s))%nat ->
  queue_at l (foldl deliver s (media_batch c payloads))
  = queue_at l s ++ map Audioop.ulaw2lin payloads.
Proof.
  intros Hap Hom Hl.
  apply (media_batch_forwards c l om payloads s Hap Hom Hl).
Qed.

Lemma media_forwarded_in_order_witness :
  queue_at 0
    (foldl deliver Scenario.speaking_call
       (media_batch 7 [Scenario.loud_frame; [x01; x02]; [xff]]))
  = queue_at 0 Scenario.speaking_call
      ++ map Audioop.ulaw2lin [Scenario.loud_frame; [x01; x02]; [xff]].
Proof.
  apply (media_forwarded_in_order 7 0 0 [Scenario.loud_frame; [x01; x02]; [xff]]
           Scenario.speaking_call); vm_compute; reflexivity.
Defined.

(** X17: a media message without payload, or for a connection that has no
    audio processor, changes nothing; in particular, once a connection was
    cleaned up, further media, stop and unknown messages for it leave the
    state exactly as the cleanup left it. *)
Theorem messages_after_cleanup_ignored (c : conn_id) (s : t) (ev : event) :
  (forall c', process_message (EvMedia None) c' s = (s, Ok ()))
  /\ (forall payload, audio_processors s !! c = None ->
        process_message (EvMedia payload) c s = (s, Ok ()))
  /\ let s' := (cleanup_connection c s).1 in
     match ev with
     | EvStart _ => True
     | _ => process_message ev c s' = (s', Ok ())
     end.
Proof.
  split; [|split].
  - intros c'. reflexivity.
  - intros payload Hn.
    unfold process_message, try_except, handle_media, mbind_M, gets, mem.
    rewrite Hn. destruct payload; reflexivity.
  - cbv zeta. pose proof (cleanup_connection_released c s) as Hrel.
    destruct ev as [d|payload| |]; [exact I| | |reflexivity].
    + unfold process_message, try_except, handle_media, mbind_M, gets, mem.
      destruct Hrel as (-> & _). destruct payload; reflexivity.
    + unfold process_message, try_except, handle_stop.
      rewrite (cleanup_connection_noop c _ Hrel). reflexivity.
Qed.

End InboundMore.

(** ** The agent: sessions do not interfere *)
Section IsolationMore.
Import VoiceAgent AgentSpec AgentMore.

Lemma entries_stop_audio (c c' : conn_id) (s : t) :
  c <> c' -> entries c' (stop_audio c s) = entries c' s.
Proof.
  intros Hne. unfold stop_audio, entries.
  destruct (audio_processors s !! c); cbn; [|reflexivity].
  rewrite lookup_delete_ne by exact Hne. reflexivity.
Qed.

Lemma entries_forget_caller (c c' : conn_id) (s : t) :
  entries c' (forget_caller c s) = entries c' s.
Proof.
  unfold forget_caller. destruct (caller_numbers s !! c) as [[|a rest]|];
    reflexivity.
Qed.

Lemma cleanup_connection_entries (c c' : conn_id) :
  c <> c' -> preserves (same (entries c')) (cleanup_connection c).
Proof.
  intros Hne s. unfold same. rewrite cleanup_connection_unfold. cbn [fst].
  rewrite <- (entries_stop_audio c c' s Hne).
  rewrite <- (entries_forget_caller c c' (stop_audio c s)).
  unfold entries, drop_entries. cbn.
  rewrite !lookup_delete_ne by exact Hne. reflexivity.
Qed.

Lemma read_is_speaking_entries (c c' : conn_id) :
  c <> c' -> preserves (same (entries c')) (read_is_speaking c).
Proof.
  intros Hne s. unfold read_is_speaking, mbind_M, gets, dd_getitem, modify, ret, same.
  destruct (is_speaking s !! c) as [b|] eqn:Hb; cbn [fst].
  - rewrite set_is_speaking_id. reflexivity.
  - unfold entries. cbn. rewrite lookup_insert_ne by exact Hne. reflexivity.
Qed.

(** X18: handling a transport message of one connection leaves the entries
    of every other connection, in all eleven dictionaries of the agent,
    exactly as they were. *)
Theorem sessions_isolated (ev : event) (c c' : conn_id) (s : t) :
  c <> c' ->
  entries c' (process_message ev c s).1 = entries c' s.
Proof.
  intros Hne. revert s.
  change (preserves (same (entries c')) (process_message ev c)).
  unfold process_message, handle_stop, handle_start, handle_media,
    write_is_speaking, interrupt, processor_add_audio,
    store_output, store_processor.
  repeat first [apply (cleanup_connection_entries c c' Hne)
               | apply (read_is_speaking_entries c c' Hne)
               | preserves_step];
    unfold same, entries; cbn; rewrite ?lookup_insert_ne by exact Hne;
    reflexivity.
Qed.

Lemma sessions_isolated_witness :
  entries 8 (process_message EvStop 7 Scenario.two_calls).1
  = entries 8 Scenario.two_calls.
Proof. apply (sessions_isolated EvStop 7 8 Scenario.two_calls). lia. Defined.

End IsolationMore.

(** ** The agent: edges of the session life cycle *)
Section LifeCycleMore.
Import VoiceAgent AgentSpec AgentMore.

Variable synthesize : string -> list bytes.
Variable lin2ulaw : bytes -> result bytes.

Lemma handle_start_state (d : start_data) (c : conn_id) (s : t) :
  let s1 := (process_message (EvStart d) c s).1 in
  connections s1 !! c
  = Some (Connection (sd_streamSid d) (sd_callSid d)
            (default "Unknown" (sd_from d)) c)
  /\ stream_sids s1 !! c = Some (sd_streamSid d)
  /\ caller_numbers s1 !! c = Some (default "Unknown" (sd_from d))
  /\ output_managers s1 = output_managers s
  /\ response_buffers s1 = response_buffers s
  /\ tasks s1 = tasks s ++ [AsrTask c; GreetingTask c].
Proof.
  cbn. rewrite !lookup_insert_eq, <- app_assoc. repeat split.
Qed.

(** X19: a start message on a connection whose resources are gone (after a
    stop) registers the session again without resources; the greeting and
    the response pipeline then stop with KeyError before their try blocks,
    raising to their callers, and they change nothing. *)
Theorem start_after_stop_raises (d : start_data) (c : conn_id) (s : t)
    (text transcript : string) (r : ConversationManager.api_reply) :
  released c s ->
  let s1 := (process_message (EvStart d) c s).1 in
  is_Some (connections s1 !! c)
  /\ tasks s1 = tasks s ++ [AsrTask c; GreetingTask c]
  /\ synthesize_and_send synthesize lin2ulaw c text s1 = (s1, Raise KeyError)
  /\ process_with_ai synthesize lin2ulaw c transcript r s1 = (s1, Raise KeyError).
Proof.
  intros (_ & _ & _ & _ & _ & _ & Hom & _ & Hrb & _) s1.
  destruct (handle_start_state d c s) as (Hc & Hs & _ & Ho & Hr & Ht).
  fold s1 in Hc, Hs, Ho, Hr, Ht.
  split; [rewrite Hc; eauto|]. split; [exact Ht|]. split.
  - unfold synthesize_and_send, mbind_M at 1, gets, mem. rewrite Hc. cbn [negb].
    unfold mbind_M at 1, lift, getitem. rewrite Hc.
    unfold mbind_M at 1. unfold mbind_M at 1. rewrite Hs.
    unfold mbind_M at 1. unfold mbind_M at 1. rewrite Ho, Hom. reflexivity.
  - unfold process_with_ai, mbind_M at 1, gets, mem. rewrite Hc. cbn [negb].
    unfold mbind_M at 1. unfold mbind_M at 1. unfold mbind_M at 1.
    unfold lift, getitem. rewrite Hr, Hrb. reflexivity.
Qed.

(** X20: a final, non-blank transcript for a connection that is not
    registered (before its start message, or after its cleanup) starts no
    generation and synthesizes nothing, but it is still stored: the
    last_transcript entry of the connection is written, and nothing else
    changes. *)
Theorem transcript_without_session (c : conn_id)
    (result : RivaASRClient.transcript_result)
    (r : ConversationManager.api_reply) (s : t) :
  connections s !! c = None ->
  RivaASRClient.is_final result = true ->
  PyStr.strip_nonempty (RivaASRClient.transcript result) = true ->
  handle_transcript synthesize lin2ulaw c result r s
  = (set_last_transcript
       (<[c := RivaASRClient.transcript result]> (last_transcript s)) s,
     Ok ()).
Proof.
  intros Hc Hf Hn. unfold handle_transcript. rewrite Hf, Hn. cbn [andb].
  unfold mbind_M at 1. cbn [modify].
  apply process_with_ai_unregistered. exact Hc.
Qed.

Lemma streaming_recognize_placeholders
    (ratecv : bytes -> Z -> Z -> Z -> Z -> result bytes)
    (audio_stream : list bytes) (stream_end : option exn) :
  Forall (fun r => RivaASRClient.is_final r = false)
    (RecognitionSpec.emitted
       (RivaASRClient.streaming_recognize ratecv audio_stream stream_end).1).
Proof.
  unfold RivaASRClient.streaming_recognize.
  pose proof (recognize_loop_emitted ratecv audio_stream stream_end []
                ltac:(simpl; lia)) as (Hp & _).
  destruct (RivaASRClient.recognize_loop ratecv [] audio_stream stream_end)
    as [tr st].
  cbn [fst] in *. eapply Forall_impl; [exact Hp|]. intros r ->. reflexivity.
Qed.

Lemma transcripts_not_final (c : conn_id)
    (results : list (RivaASRClient.transcript_result
                     * ConversationManager.api_reply)) (s : t) :
  Forall (fun p => RivaASRClient.is_final p.1 = false) results ->
  transcripts synthesize lin2ulaw c results s = (s, Ok ()).
Proof.
  induction 1 as [|[result r] rest Hnf _ IH]; [reflexivity|].
  cbn [transcripts]. unfold mbind_M at 1, handle_transcript.
  cbn [fst] in Hnf. rewrite Hnf. cbn. exact IH.
Qed.

Lemma processor_at_stored (l : loc) (q : list bytes) (s : t) :
  is_processing
    (processor_at l
       (set_heap_processors (<[l := Processor q false]> (heap_processors s)) s))
  = false.
Proof.
  unfold processor_at. cbn.
  destruct (decide (l < length (heap_processors s))%nat).
  - rewrite list_lookup_insert_eq by assumption. reflexivity.
  - rewrite list_insert_ge by lia. rewrite lookup_ge_None_2 by lia. reflexivity.
Qed.

Lemma start_asr_processing_unfold (c : conn_id)
    (results : list (RivaASRClient.transcript_result
                     * ConversationManager.api_reply)) (s : t) :
  start_asr_processing synthesize lin2ulaw c results s
  = match audio_processors s !! c with
    | None => (s, Ok ())
    | Some l =>
        try_finally
          (try_except (transcripts synthesize lin2ulaw c results)
             (fun _ => ret ()))
          (p' <~ gets (processor_at l);
           store_processor l (Processor (audio_queue p') false))
          (set_heap_processors
             (<[l := Processor (queue_at l s) true]> (heap_processors s)) s)
    end.
Proof.
  unfold start_asr_processing, mbind_M at 1, gets at 1, mem.
  destruct (audio_processors s !! c) as [l|] eqn:Hap; [|reflexivity].
  cbn [negb]. unfold mbind_M at 1, lift, getitem. rewrite Hap.
  reflexivity.
Qed.

(** X21: start_asr_processing returns normally whatever the transcript
    callbacks do, even when one raises, and leaves the audio processor of
    the connection not processing; for a connection without audio processor
    it does nothing. *)
Theorem start_asr_processing_resets_flag (c : conn_id)
    (results : list (RivaASRClient.transcript_result
                     * ConversationManager.api_reply)) (s : t) :
  let out := start_asr_processing synthesize lin2ulaw c results s in
  out.2 = Ok ()
  /\ match audio_processors s !! c with
     | Some l => is_processing (processor_at l out.1) = false
     | None => out.1 = s
     end.
Proof.
  cbv zeta. rewrite start_asr_processing_unfold.
  destruct (audio_processors s !! c) as [l|] eqn:Hap; [|split; reflexivity].
  unfold try_finally, try_except.
  destruct (transcripts synthesize lin2ulaw c results _) as [s' [[]|e]];
    unfold mbind_M, gets, store_processor, modify; cbn [fst snd];
    (split; [reflexivity|apply processor_at_stored]).
Qed.

(** With results that are all non-final the processing task only raises
    and lowers the processing flag. *)
Lemma start_asr_processing_idle (c : conn_id)
    (results : list (RivaASRClient.transcript_result
                     * ConversationManager.api_reply)) (s : t) :
  Forall (fun p => RivaASRClient.is_final p.1 = false) results ->
  start_asr_processing synthesize lin2ulaw c results s
  = match audio_processors s !! c with
    | Some l =>
        (set_heap_processors
           (<[l := Processor (queue_at l s) false]> (heap_processors s)) s,
         Ok ())
    | None => (s, Ok ())
    end.
Proof.
  intros Hnf. rewrite start_asr_processing_unfold.
  destruct (audio_processors s !! c) as [l|] eqn:Hap; [|reflexivity].
  unfold try_finally, try_except.
  rewrite (transcripts_not_final c _ _ Hnf).
  unfold mbind_M, gets, store_processor, modify, queue_at, processor_at. cbn.
  rewrite list_insert_insert_eq.
  destruct (decide (l < length (heap_processors s))%nat).
  - rewrite list_lookup_insert_eq by assumption. reflexivity.
  - rewrite !(list_insert_ge (heap_processors s) l) by lia. reflexivity.
Qed.

(** X22: with the recognizer as it is written every result is the
    non-final placeholder, so the transcript callbacks never act: whatever
    audio was recognized, start_asr_processing returns normally, makes no
    generation request, synthesizes and sends nothing, stores no transcript
    and leaves the registry and the conversations as they are. *)
Theorem stub_recognizer_never_triggers
    (ratecv : bytes -> Z -> Z -> Z -> Z -> result bytes)
    (audio_stream : list bytes) (stream_end : option exn)
    (replies : list ConversationManager.api_reply) (c : conn_id) (s : t) :
  let results :=
    zip (RecognitionSpec.emitted
           (RivaASRClient.streaming_recognize ratecv audio_stream stream_end).1)
        replies in
  let out := start_asr_processing synthesize lin2ulaw c results s in
  out.2 = Ok ()
  /\ sent out.1 = sent s
  /\ tts_requests out.1 = tts_requests s
  /\ openai_client out.1 = openai_client s
  /\ last_transcript out.1 = last_transcript s
  /\ entries c out.1 = entries c s.
Proof.
  cbv zeta.
  pose proof (streaming_recognize_placeholders ratecv audio_stream stream_end) as Hp.
  set (rs := RecognitionSpec.emitted
               (RivaASRClient.streaming_recognize ratecv audio_stream stream_end).1)
    in *.
  assert (Forall (fun p => RivaASRClient.is_final p.1 = false) (zip rs replies))
    as Hnf.
  { clear -Hp. revert replies. induction Hp as [|x rs' Hx _ IH]; intros replies.
    - constructor.
    - destruct replies as [|y replies]; [constructor|].
      cbn [zip zip_with]. constructor; [exact Hx|apply IH]. }
  rewrite (start_asr_processing_idle c _ s Hnf).
  destruct (audio_processors s !! c) as [l|]; repeat split; reflexivity.
Qed.

End LifeCycleMore.

(** ** The agent: what synthesize_and_send writes to the transport *)
Section OutboundMore.
Import VoiceAgent AgentSpec AgentMore.

Variable synthesize : string -> list bytes.
Variable lin2ulaw : bytes -> result bytes.

Global Instance emits_frames_preorder (ws : conn_id) (sid : option string)
    (ck : loc) : PreOrder (emits_frames ws sid ck).
Proof.
  split.
  - intros s H. split; [exact H|]. exists []. rewrite app_nil_r. auto.
  - intros s1 s2 s3 H12 H23 H1.
    destruct (H12 H1) as (H2 & l1 & E1 & F1).
    destruct (H23 H2) as (H3 & l2 & E2 & F2).
    split; [exact H3|]. exists (l1 ++ l2).
    rewrite E2, E1, <- app_assoc. split; [reflexivity|].
    apply Forall_app; auto.
Qed.

Global Instance stays_settled_preorder (om : loc) : PreOrder (stays_settled om).
Proof.
  split; [intros s H; exact H|].
  intros s1 s2 s3 H12 H23 H. apply H23, H12, H.
Qed.

Lemma same_env_frames (ws : conn_id) (sid : option string) (ck : loc) (s s' : t) :
  same env_view s s' -> emits_frames ws sid ck s s'.
Proof.
  unfold same, env_view. intros E Hres.
  injection E as E1 _ _ _ E5. unfold residual in *. rewrite E5.
  split; [exact Hres|]. exists []. rewrite app_nil_r, E1. auto.
Qed.

Lemma same_out_frames (ws : conn_id) (sid : option string) (ck : loc) (s s' : t) :
  sent s' = sent s -> heap_chunkers s' = heap_chunkers s ->
  emits_frames ws sid ck s s'.
Proof.
  intros E1 E2 Hres. unfold residual in *. rewrite E2.
  split; [exact Hres|]. exists []. rewrite app_nil_r, E1. auto.
Qed.

Lemma await_frames (ws : conn_id) (sid : option string) (ck : loc) :
  preserves (emits_frames ws sid ck) await.
Proof. intros s. apply same_env_frames, await_env. Qed.

Lemma send_frame (ws : conn_id) (sid : option string) (ck : loc)
    (payload : bytes) :
  length payload = 160%nat ->
  preserves (emits_frames ws sid ck) (send ws (MediaMsg sid payload)).
Proof.
  intros Hlen. unfold send.
  repeat first [apply await_frames | preserves_step].
  intros Hres. split; [exact Hres|].
  exists [(ws, MediaMsg sid payload)]. split; [reflexivity|].
  constructor; [|constructor]. exists payload. auto.
Qed.

Lemma send_chunks_frames (ws : conn_id) (sid : option string) (ck : loc)
    (chunks : list bytes) :
  Forall (fun c => length c = 160%nat) chunks ->
  preserves (emits_frames ws sid ck) (send_chunks ws sid chunks).
Proof.
  induction 1 as [|chunk more Hc _ IH]; cbn [send_chunks].
  - apply preserves_ret; typeclasses eauto.
  - repeat first [apply await_frames | apply (send_frame _ _ _ _ Hc) | exact IH
                 | preserves_step].
Qed.

Lemma store_chunker_frames (ws : conn_id) (sid : option string) (ck : loc)
    (k : AudioChunker.t) :
  (length (AudioChunker.buffer k) < 160)%nat ->
  preserves (emits_frames ws sid ck) (store_chunker ck k).
Proof.
  intros Hk s _. unfold store_chunker, residual. cbn.
  split; [|exists []; rewrite app_nil_r; auto].
  destruct (decide (ck < length (heap_chunkers s))%nat).
  - rewrite list_lookup_insert_eq by assumption. exact Hk.
  - rewrite lookup_ge_None_2; [simpl; lia|]. rewrite length_insert.
    apply Nat.nlt_ge. exact n.
Qed.

(** Framing with the default chunk size. *)
Lemma add_audio_total_frames (k : AudioChunker.t) (data : bytes) :
  AudioChunker.chunk_size k = 160%Z ->
  let out := AudioChunker.add_audio_total k data in
  Forall (fun c => length c = 160%nat) out.1
  /\ (length (AudioChunker.buffer out.2) < 160)%nat.
Proof.
  intros Hsize.
  pose proof (add_audio_total_spec k data ltac:(lia)) as Hspec.
  destruct (add_audio_positive k data
              (S (length (AudioChunker.buffer k ++ data))) ltac:(lia) ltac:(lia))
    as (cs & k' & He & _ & _ & Hall & Hr).
  rewrite He in Hspec. injection Hspec as <-. cbn [fst snd].
  unfold AudioChunker.len in *. rewrite Hsize in *. split; [|lia].
  eapply Forall_impl; [exact Hall|]. cbn. intros c Hc. lia.
Qed.

Lemma read_is_speaking_frames (ws c : conn_id) (sid : option string) (ck : loc) :
  preserves (emits_frames ws sid ck) (read_is_speaking c).
Proof.
  intros s. apply same_env_frames.
  unfold read_is_speaking, mbind_M, gets, modify, ret.
  destruct (dd_getitem false c (is_speaking s)); reflexivity.
Qed.

Lemma generator_exit_frames (ws : conn_id) (sid : option string) (om ck : loc) :
  preserves (emits_frames ws sid ck) (generator_exit om).
Proof. intros s. apply same_out_frames; reflexivity. Qed.

Lemma abandon_frames (ws : conn_id) (sid : option string) (om ck : loc) :
  preserves (emits_frames ws sid ck) (abandon om).
Proof. intros s. apply same_out_frames; reflexivity. Qed.

Lemma speak_loop_frames (c ws : conn_id) (sid : option string) (om ck : loc)
    (pcm : list bytes) :
  preserves (emits_frames ws sid ck) (speak_loop lin2ulaw c ws sid om ck pcm).
Proof.
  induction pcm as [|audio_chunk rest IH].
  { cbn [speak_loop].
    repeat first [apply await_frames | apply generator_exit_frames
                 | preserves_step]. }
  rewrite speak_loop_cons.
  repeat first [apply await_frames | apply read_is_speaking_frames
               | apply generator_exit_frames | apply abandon_frames
               | lazymatch goal with
                 | |- preserves _ (mbind_M (gets (chunker_at _)) _) => fail
                 | _ => preserves_step
                 end].
  intros s. unfold mbind_M at 1. cbn [gets].
  lazymatch goal with
  | |- context [AudioChunker.add_audio_total (chunker_at ck s) ?u] =>
      pose proof (add_audio_total_frames (chunker_at ck s) u eq_refl)
        as [Hall Hk];
      destruct (AudioChunker.add_audio_total (chunker_at ck s) u)
        as [chunks k']
  end.
  cbn [fst snd] in *.
  revert s.
  change (preserves (emits_frames ws sid ck)
            (store_chunker ck k';;
             try_except (send_chunks ws sid chunks)
               (fun e => abandon om;; raise e);;
             speak_loop lin2ulaw c ws sid om ck rest)).
  repeat first [apply (store_chunker_frames _ _ _ _ Hk)
               | apply (send_chunks_frames _ _ _ _ Hall) | exact IH
               | apply abandon_frames | preserves_step].
Qed.

Lemma flush_frames (ws : conn_id) (sid : option string) (ck : loc) :
  preserves (emits_frames ws sid ck)
    (k <~ gets (chunker_at ck);
     let '(remaining, k') := AudioChunker.get_remaining k in
     store_chunker ck k';;
     match remaining with
     | [] => ret ()
     | _ :: _ => send ws (MediaMsg sid remaining)
     end).
Proof.
  intros s. unfold mbind_M at 1. cbn [gets]. intros Hres.
  destruct (get_remaining_pads (chunker_at ck s)) as (pad & _ & _ & Hlen & Hb).
  { unfold chunker_at, AudioChunker.len. cbn. unfold residual in Hres. lia. }
  destruct (AudioChunker.get_remaining (chunker_at ck s)) as [remaining k'].
  cbn [fst snd] in *.
  assert (preserves (emits_frames ws sid ck)
            (store_chunker ck k';;
             match remaining with
             | [] => ret ()
             | _ :: _ => send ws (MediaMsg sid remaining)
             end)) as Hp.
  { apply preserves_bind; [typeclasses eauto| |intros _].
    - apply store_chunker_frames. rewrite Hb. simpl. lia.
    - destruct Hlen as [->|Hlen].
      + apply preserves_ret; typeclasses eauto.
      + destruct remaining as [|x xs] eqn:Hr;
          [apply preserves_ret; typeclasses eauto|].
        apply send_frame. unfold AudioChunker.len in Hlen.
        change (AudioChunker.chunk_size (chunker_at ck s)) with 160%Z in Hlen. lia. }
  apply (Hp s Hres).
Qed.

(** X23: every message synthesize_and_send writes to the transport is a
    media message for the session's own websocket and stream, carrying
    exactly 160 bytes; this holds whatever the synthesis service delivers
    and whatever arrives meanwhile, provided the chunker held less than one
    frame at the start, which is again the case at the end. *)
Theorem outbound_frames_are_whole (c : conn_id) (text : string) (s : t)
    (conn : connection) (sid : option string) (om ck : loc) :
  connections s !! c = Some conn ->
  stream_sids s !! c = Some sid ->
  output_managers s !! c = Some om ->
  audio_chunkers s !! c = Some ck ->
  (length (residual ck s) < 160)%nat ->
  let out := synthesize_and_send synthesize lin2ulaw c text s in
  (length (residual ck out.1) < 160)%nat
  /\ exists frames,
       sent out.1 = sent s ++ frames
       /\ Forall (frame_for (websocket conn) sid) frames.
Proof.
  intros Hc Hs Ho Hk Hres out. subst out.
  rewrite (synthesize_and_send_live synthesize lin2ulaw c text s conn sid om ck
             Hc Hs Ho Hk).
  assert (preserves (emits_frames (websocket conn) sid ck)
    (try_finally
      (try_except
         (write_is_speaking c true;;
          set_playing om true;;
          modify (fun s => set_tts_requests (tts_requests s ++ [text]) s);;
          speak_loop lin2ulaw c (websocket conn) sid om ck (synthesize text);;
          k <~ gets (chunker_at ck);
          let '(remaining, k') := AudioChunker.get_remaining k in
          store_chunker ck k';;
          match remaining with
          | [] => ret ()
          | _ :: _ => send (websocket conn) (MediaMsg sid remaining)
          end)
         (fun _ => ret ()))
      (write_is_speaking c false))) as Hp.
  { unfold write_is_speaking, set_playing, store_output.
    repeat first [apply speak_loop_frames | apply flush_frames
                 | lazymatch goal with
                   | |- preserves _ (mbind_M (gets (chunker_at _)) _) => fail
                   | _ => preserves_step
                   end];
      apply same_out_frames; reflexivity. }
  apply (Hp s Hres).
Qed.

End OutboundMore.

(** ** The agent: the output manager after a fragment *)
Section PlaybackMore.
Import VoiceAgent AgentSpec AgentMore.

Variable synthesize : string -> list bytes.
Variable lin2ulaw : bytes -> result bytes.












(** The two ways playback is settled, at concrete calls.  On a call whose
    websocket the peer has closed, the first frame cannot be sent: the loop
    is left by the exception, synthesize_and_send returns normally with the
    output manager still playing and its generator abandoned, and the
    manager stops playing when the event loop closes the generator.  On a
    call that is played to its end the manager is not playing at the
    return and no generator is abandoned. *)
Lemma abandoned_generator_left_playing :
  let out := synthesize_and_send Scenario.silence Scenario.encode_silence 7
               greeting ScenarioMore.hung_up_call in
  let played := synthesize_and_send Scenario.silence Scenario.encode_silence 7
                  greeting Scenario.one_call in
  out.2 = Ok ()
  /\ is_playing (output_at 0 out.1) = true
  /\ abandoned out.1 = [0%nat]
  /\ is_playing (output_at 0 (deliver out.1 Finalize)) = false
  /\ abandoned (deliver out.1 Finalize) = []
  /\ played.2 = Ok ()
  /\ is_playing (output_at 0 played.1) = false
  /\ abandoned played.1 = [].
Proof. cbv zeta. repeat split; vm_compute; reflexivity. Qed.

Lemma batch_media_session (batch : list incoming) :
  forall s : t,
    Forall media_input batch ->
    session_view (foldl deliver s batch) = session_view s.
Proof.
  induction batch as [|i batch IH]; intros s Hall; simpl; [reflexivity|].
  inversion Hall; subst. rewrite IH by assumption.
  apply deliver_media_session. assumption.
Qed.

(** X25: the greeting task synthesizes the greeting exactly once and
    returns normally when the session is live after its initial sleep; it
    is live then when it was live before and no start, stop or close of a
    connection was handled during that sleep, whatever happens later; when
    the connection is not registered after the sleep, the task synthesizes
    and sends nothing. *)
Theorem send_greeting_speaks_once (c : conn_id) (s : t) :
  let out := send_greeting synthesize lin2ulaw c s in
  (live c (await s).1 ->
   out.2 = Ok () /\ tts_requests out.1 = tts_requests s ++ [greeting])
  /\ (live c s -> Forall media_input (hd [] (inbox s)) -> live c (await s).1)
  /\ (connections (await s).1 !! c = None -> out = ((await s).1, Ok ())).
Proof.
  cbv zeta. unfold send_greeting.
  rewrite (bind_ok _ _ _ _ _ (await_eq s)). split; [|split].
  - intros Hlive'.
    destruct (synthesize_and_send_speaks synthesize lin2ulaw c greeting (await s).1
                Hlive') as [Hok Htts].
    split; [exact Hok|]. rewrite Htts.
    pose proof (await_service s) as H. unfold same, service_view in H.
    apply (f_equal fst) in H. cbn [fst] in H. rewrite H. reflexivity.
  - intros Hlive Hm. unfold await.
    destruct (inbox s) as [|batch later]; [exact Hlive|].
    cbn [hd fst] in *.
    pose proof (batch_media_session batch (set_inbox later s) Hm) as Hsess.
    unfold live, session_view in *. cbn in Hsess.
    injection Hsess as -> -> -> -> _ _. exact Hlive.
  - intros Hn.
    unfold synthesize_and_send, mbind_M at 1, gets, mem. rewrite Hn. reflexivity.
Qed.

End PlaybackMore.

(** ** The agent: the response pipeline when the generation succeeds *)
Section ResponseMore.
Import VoiceAgent AgentSpec AgentMore.

Variable synthesize : string -> list bytes.
Variable lin2ulaw : bytes -> result bytes.

Global Instance steady_preorder : PreOrder steady.
Proof.
  split; [intros s Hm; auto|].
  intros s1 s2 s3 H12 H23 Hm.
  destruct (H12 Hm) as (E1 & C1 & Hm2). destruct (H23 Hm2) as (E2 & C2 & Hm3).
  split; [congruence|]. split; [congruence|exact Hm3].
Qed.

Lemma kept_steady (s s' : t) :
  session_view s' = session_view s -> openai_client s' = openai_client s ->
  inbox s' = inbox s -> steady s s'.
Proof.
  intros E1 E2 E3 Hm. unfold media_only in *. rewrite E3. auto.
Qed.

Lemma media_message_steady (p : option bytes) (c : conn_id) :
  preserves (same (fun s => (session_view s, openai_client s, inbox s)))
    (process_message (EvMedia p) c).
Proof.
  unfold process_message, handle_media, read_is_speaking, write_is_speaking,
    interrupt, processor_add_audio, store_output, store_processor.
  preserves_all; reflexivity.
Qed.

Lemma deliver_media_steady (s : t) (i : incoming) :
  media_input i ->
  session_view (deliver s i) = session_view s
  /\ openai_client (deliver s i) = openai_client s
  /\ inbox (deliver s i) = inbox s.
Proof.
  destruct i as [c [d|p| |]|c|]; cbn [media_input deliver]; intros H;
    try (exfalso; exact H); clear H.
  - pose proof (media_message_steady p c s) as H. unfold same in H.
    split; [exact (f_equal (fun v => v.1.1) H)|].
    split; [exact (f_equal (fun v => v.1.2) H)|exact (f_equal snd H)].
  - auto.
  - destruct (abandoned s); auto.
Qed.

(** While only audio arrives, a suspension leaves the sessions and the
    conversations as they are. *)
Lemma await_steady : preserves steady await.
Proof.
  intros s Hm. unfold await, media_only in *.
  destruct (inbox s) as [|batch later] eqn:Hi; [cbn; rewrite Hi; auto|].
  cbn [fst]. inversion Hm as [|? ? Hb Hl]; subst.
  assert (forall l s0, Forall media_input l ->
            session_view (foldl deliver s0 l) = session_view s0
            /\ openai_client (foldl deliver s0 l) = openai_client s0
            /\ inbox (foldl deliver s0 l) = inbox s0) as Hf.
  { intros l. induction l as [|i l IH]; intros s0 Hall; simpl; [auto|].
    inversion Hall; subst.
    destruct (IH (deliver s0 i)) as (E1 & E2 & E3); [assumption|].
    destruct (deliver_media_steady s0 i) as (E4 & E5 & E6); [assumption|].
    repeat split; congruence. }
  destruct (Hf batch (set_inbox later s) Hb) as (E1 & E2 & E3).
  rewrite E1, E2, E3. repeat split. exact Hl.
Qed.

Lemma send_steady (ws : conn_id) (m : out_msg) : preserves steady (send ws m).
Proof.
  unfold send. repeat first [apply await_steady | preserves_step].
  apply kept_steady; reflexivity.
Qed.

Lemma send_chunks_steady (ws : conn_id) (sid : option string)
    (chunks : list bytes) :
  preserves steady (send_chunks ws sid chunks).
Proof.
  induction chunks as [|chunk more IH]; cbn [send_chunks].
  - apply preserves_ret; typeclasses eauto.
  - repeat first [apply await_steady | apply send_steady | exact IH
                 | preserves_step].
Qed.

Lemma speak_loop_steady (c ws : conn_id) (sid : option string) (om ck : loc)
    (pcm : list bytes) :
  preserves steady (speak_loop lin2ulaw c ws sid om ck pcm).
Proof.
  induction pcm as [|audio_chunk rest IH];
    [cbn [speak_loop]|rewrite speak_loop_cons];
    unfold store_chunker, read_is_speaking, generator_exit, set_playing,
      store_output, abandon;
  repeat first [apply await_steady | apply send_chunks_steady | exact IH
               | preserves_step];
    apply kept_steady; reflexivity.
Qed.

Lemma synthesize_and_send_steady (c : conn_id) (text : string) :
  preserves steady (synthesize_and_send synthesize lin2ulaw c text).
Proof.
  unfold synthesize_and_send, set_playing, store_output, store_chunker,
    write_is_speaking.
  repeat first [apply speak_loop_steady | apply send_steady | preserves_step];
    apply kept_steady; reflexivity.
Qed.

Lemma speak_all_steady (c : conn_id) (sentences : list string) :
  preserves steady (speak_all synthesize lin2ulaw c sentences).
Proof.
  induction sentences as [|sentence more IH]; cbn [speak_all].
  - apply preserves_ret; typeclasses eauto.
  - repeat first [apply synthesize_and_send_steady | exact IH | preserves_step].
Qed.

Lemma consume_steady (c : conn_id) (rb : loc) (chunks : list string) :
  preserves steady (consume synthesize lin2ulaw c rb chunks).
Proof.
  induction chunks as [|chunk more IH]; cbn [consume].
  - apply preserves_ret; typeclasses eauto.
  - unfold store_buffer.
    repeat first [apply speak_all_steady | apply await_steady | exact IH
                 | preserves_step];
      apply kept_steady; reflexivity.
Qed.

Lemma get_complete_sentences_quiet (rb : ResponseBuffer.t) :
  PyStr.re_search (PyStr.join (ResponseBuffer.buffer rb)) = None ->
  ResponseBuffer.get_complete_sentences rb = Ok ([], rb).
Proof.
  intros Hn. unfold ResponseBuffer.get_complete_sentences.
  rewrite (re_split_no_match _ Hn). reflexivity.
Qed.

(** A boundary in the text buffered so far is still there once more tokens
    have arrived. *)
Lemma boundary_stays (l more : list string) :
  PyStr.re_search (PyStr.join (l ++ more)) = None ->
  PyStr.re_search (PyStr.join l) = None.
Proof.
  intros Hn. destruct (PyStr.re_search (PyStr.join l)) as [g|] eqn:Hs;
    [|reflexivity].
  destruct (re_search_app _ (PyStr.join more) g Hs) as [g' Hg'].
  rewrite <- join_app in Hg'. congruence.
Qed.

(** Without a sentence boundary the token loop ends normally. *)
Lemma consume_completes (c : conn_id) (rb : loc) (chunks : list string) :
  forall (s : t) (b : ResponseBuffer.t),
    heap_buffers s !! rb = Some b ->
    PyStr.re_search (PyStr.join (ResponseBuffer.buffer b ++ chunks)) = None ->
    (consume synthesize lin2ulaw c rb chunks s).2 = Ok ().
Proof.
  induction chunks as [|chunk more IH]; intros s b Hb Hn; [reflexivity|].
  rewrite (consume_cons synthesize lin2ulaw c rb chunk more s b Hb). cbv zeta.
  set (b1 := ResponseBuffer.add_chunk b chunk).
  pose proof (store_buffer_lookup rb b b1 s Hb) as Hb1.
  set (s1 := (store_buffer rb b1 s).1) in *.
  assert (PyStr.re_search
            (PyStr.join (ResponseBuffer.buffer b1 ++ more)) = None) as Hn1.
  { unfold b1. cbn [ResponseBuffer.add_chunk ResponseBuffer.buffer].
    rewrite <- app_assoc. exact Hn. }
  rewrite (get_complete_sentences_quiet b1 (boundary_stays _ _ Hn1)).
  pose proof (store_buffer_lookup rb b1 b1 s1 Hb1) as Hb2.
  apply (IH _ b1); [|exact Hn1].
  rewrite await_buffers. exact Hb2.
Qed.

(** With a sentence boundary in the text the token loop raises. *)
Lemma consume_raises (c : conn_id) (rb : loc) (chunks : list string) :
  forall (s : t) (b : ResponseBuffer.t) (g : string),
    heap_buffers s !! rb = Some b ->
    PyStr.re_search (PyStr.join (ResponseBuffer.buffer b ++ chunks)) = Some g ->
    chunks <> [] ->
    (consume synthesize lin2ulaw c rb chunks s).2 = Raise TypeError.
Proof.
  induction chunks as [|chunk more IH]; intros s b g Hb Hs Hne; [congruence|].
  rewrite (consume_cons synthesize lin2ulaw c rb chunk more s b Hb). cbv zeta.
  set (b1 := ResponseBuffer.add_chunk b chunk).
  pose proof (store_buffer_lookup rb b b1 s Hb) as Hb1.
  set (s1 := (store_buffer rb b1 s).1) in *.
  assert (PyStr.re_search
            (PyStr.join (ResponseBuffer.buffer b1 ++ more)) = Some g) as Hs1.
  { unfold b1. cbn [ResponseBuffer.add_chunk ResponseBuffer.buffer].
    rewrite <- app_assoc. exact Hs. }
  destruct (PyStr.re_search (PyStr.join (ResponseBuffer.buffer b1))) as [g1|]
    eqn:Hs0.
  - rewrite (get_complete_sentences_raises b1 g1 Hs0). reflexivity.
  - rewrite (get_complete_sentences_quiet b1 Hs0).
    pose proof (store_buffer_lookup rb b1 b1 s1 Hb1) as Hb2.
    apply (IH _ b1 g); [rewrite await_buffers; exact Hb2|exact Hs1|].
    intros ->. rewrite app_nil_r in Hs1. congruence.
Qed.

Lemma session_view_live (c : conn_id) (s s' : t) :
  session_view s' = session_view s -> live c s -> live c s'.
Proof.
  unfold live, session_view. intros E Hl.
  injection E as -> -> -> -> _ _. exact Hl.
Qed.

(** X26: on a live session, while only audio arrives from the transport,
    a generation that ends without error and whose text has no sentence end
    followed by whitespace is spoken as one utterance, the whole text, after
    the stream has ended (nothing is spoken when the text is blank); the
    pipeline returns normally and the conversation holds the exchange as
    get_response records it. *)
Theorem process_with_ai_answers (c : conn_id) (transcript : string)
    (ds : list (option string)) (completion : result string)
    (s : t) (rb : loc) (b : ResponseBuffer.t) :
  live c s ->
  response_buffers s !! c = Some rb ->
  heap_buffers s !! rb = Some b ->
  media_only s ->
  PyStr.re_search (PyStr.join (ConversationManager.contents ds)) = None ->
  let text := PyStr.join (ConversationManager.contents ds) in
  let r := ConversationManager.Reply ds None completion in
  let out := process_with_ai synthesize lin2ulaw c transcript r s in
  out.2 = Ok ()
  /\ tts_requests out.1
     = tts_requests s ++ (if PyStr.strip_nonempty text then [text] else [])
  /\ openai_client out.1
     = (ConversationManager.get_response (openai_client s) transcript
          (default "unknown" (caller_numbers s !! c)) true r).2.
Proof.
  intros Hlive Hrb Hb Hm Hn text r out. subst out.
  pose proof Hlive as ([conn Hc] & _).
  rewrite (process_with_ai_registered synthesize lin2ulaw c transcript _ s conn rb
             Hc Hrb).
  set (caller_id := default "unknown" (caller_numbers s !! c)).
  set (s0 := set_heap_buffers
               (<[rb := ResponseBuffer.clear (buffer_at rb s)]> (heap_buffers s)) s).
  unfold try_except. rewrite respond_unfold. cbv zeta.
  set (s1 := set_openai_client
               (ConversationManager.begin_request (openai_client s0) transcript
                  caller_id true).1 s0).
  assert (ConversationManager.yields true r = ConversationManager.contents ds)
    as Hys by reflexivity.
  rewrite Hys.
  assert (heap_buffers (await s1).1 !! rb = Some (ResponseBuffer.mk [] false))
    as Hb2.
  { rewrite await_buffers. unfold s1, s0. cbn.
    apply list_lookup_insert_eq. eapply lookup_lt_Some, Hb. }
  destruct (await_steady s1 Hm) as (Hsess2 & Hcm2 & Hm2).
  assert (tts_requests (await s1).1 = tts_requests s) as Htts2.
  { pose proof (await_service s1) as H. unfold same, service_view in H.
    apply (f_equal fst) in H. exact H. }
  destruct (consume_outcome synthesize lin2ulaw c rb (ConversationManager.contents ds)
              (await s1).1 _ Hb2) as (Hsv & _ & Hres).
  destruct (consume_steady c rb (ConversationManager.contents ds) (await s1).1 Hm2)
    as (Hsess3 & Hcm3 & Hm3).
  pose proof (consume_completes c rb (ConversationManager.contents ds)
                (await s1).1 _ Hb2 Hn) as Hok.
  assert (tts_requests
            (consume synthesize lin2ulaw c rb (ConversationManager.contents ds)
               (await s1).1).1
          = tts_requests s) as Htts3.
  { unfold same, service_view in Hsv. apply (f_equal fst) in Hsv.
    cbn [fst] in Hsv. rewrite Hsv. exact Htts2. }
  destruct (consume synthesize lin2ulaw c rb (ConversationManager.contents ds)
              (await s1).1) as [s3 [u|e']];
    cbn [fst snd] in *; [|discriminate].
  set (s4 := set_openai_client
               (ConversationManager.finish (openai_client s3) caller_id true r)
               s3).
  assert (ResponseBuffer.get_remaining (buffer_at rb s4) = text) as Hrem.
  { unfold buffer_at, s4. cbn [heap_buffers set_openai_client].
    rewrite Hres. reflexivity. }
  assert (openai_client s4
          = (ConversationManager.get_response (openai_client s) transcript
               caller_id true r).2) as Hcm4.
  { unfold s4. cbn [openai_client set_openai_client].
    rewrite Hcm3, Hcm2. unfold ConversationManager.get_response.
    unfold s1, s0. cbn [openai_client set_openai_client set_heap_buffers].
    destruct (ConversationManager.begin_request (openai_client s) transcript
                caller_id true) as [cm1 messages].
    reflexivity. }
  assert (media_only s4) as Hm4 by exact Hm3.
  assert (live c s4) as Hlive4.
  { apply (session_view_live c s); [|exact Hlive].
    transitivity (session_view s3); [reflexivity|].
    rewrite Hsess3, Hsess2. reflexivity. }
  rewrite Hrem.
  destruct (PyStr.strip_nonempty text).
  - destruct (synthesize_and_send_speaks synthesize lin2ulaw c text s4 Hlive4)
      as [Hok4 Htts4].
    destruct (synthesize_and_send_steady c text s4 Hm4) as (_ & Hcm5 & _).
    destruct (synthesize_and_send synthesize lin2ulaw c text s4) as [s5 r5].
    cbn [fst snd] in *. subst r5. cbn [fst snd].
    split; [reflexivity|]. split; [|rewrite Hcm5; exact Hcm4].
    rewrite Htts4. unfold s4. cbn [tts_requests set_openai_client].
    rewrite Htts3. reflexivity.
  - cbn [fst snd]. split; [reflexivity|]. split; [|exact Hcm4].
    unfold s4. cbn [tts_requests set_openai_client].
    rewrite Htts3, app_nil_r. reflexivity.
Qed.

(** X27: on a live session, while only audio arrives from the transport, a
    generation whose text contains a sentence end followed by whitespace is
    never spoken: the sentence extraction raises inside the token loop, the
    pipeline speaks its own fixed apology once and returns normally, and the
    conversation is left with the user turn only, the generator never
    reaching the point where it records the reply. *)
Theorem process_with_ai_sentence_apologizes (c : conn_id) (transcript : string)
    (r : ConversationManager.api_reply) (g : string)
    (s : t) (rb : loc) (b : ResponseBuffer.t) :
  live c s ->
  response_buffers s !! c = Some rb ->
  heap_buffers s !! rb = Some b ->
  media_only s ->
  PyStr.re_search
    (PyStr.join (ConversationManager.contents (ConversationManager.deltas r)))
  = Some g ->
  let out := process_with_ai synthesize lin2ulaw c transcript r s in
  out.2 = Ok ()
  /\ tts_requests out.1 = tts_requests s ++ [apology]
  /\ openai_client out.1
     = (ConversationManager.begin_request (openai_client s) transcript
          (default "unknown" (caller_numbers s !! c)) true).1.
Proof.
  intros Hlive Hrb Hb Hm Hs out. subst out.
  pose proof Hlive as ([conn Hc] & _).
  rewrite (process_with_ai_registered synthesize lin2ulaw c transcript _ s conn rb
             Hc Hrb).
  set (caller_id := default "unknown" (caller_numbers s !! c)).
  set (s0 := set_heap_buffers
               (<[rb := ResponseBuffer.clear (buffer_at rb s)]> (heap_buffers s)) s).
  unfold try_except. rewrite respond_unfold. cbv zeta.
  set (s1 := set_openai_client
               (ConversationManager.begin_request (openai_client s0) transcript
                  caller_id true).1 s0).
  set (ys := ConversationManager.yields true r).
  assert (exists g', PyStr.re_search (PyStr.join ys) = Some g') as [g' Hys].
  { unfold ys, ConversationManager.yields.
    destruct (ConversationManager.stream_error r); [|eauto].
    rewrite join_app. eapply re_search_app, Hs. }
  assert (ys <> []) as Hne.
  { intros E. rewrite E in Hys. discriminate. }
  assert (heap_buffers (await s1).1 !! rb = Some (ResponseBuffer.mk [] false))
    as Hb2.
  { rewrite await_buffers. unfold s1, s0. cbn.
    apply list_lookup_insert_eq. eapply lookup_lt_Some, Hb. }
  destruct (await_steady s1 Hm) as (Hsess2 & Hcm2 & Hm2).
  assert (tts_requests (await s1).1 = tts_requests s) as Htts2.
  { pose proof (await_service s1) as H. unfold same, service_view in H.
    apply (f_equal fst) in H. exact H. }
  destruct (consume_outcome synthesize lin2ulaw c rb ys (await s1).1 _ Hb2)
    as (Hsv & _ & _).
  destruct (consume_steady c rb ys (await s1).1 Hm2) as (Hsess3 & Hcm3 & Hm3).
  pose proof (consume_raises c rb ys (await s1).1 _ g' Hb2 Hys Hne) as Hraise.
  assert (tts_requests (consume synthesize lin2ulaw c rb ys (await s1).1).1
          = tts_requests s) as Htts3.
  { unfold same, service_view in Hsv. apply (f_equal fst) in Hsv.
    cbn [fst] in Hsv. rewrite Hsv. exact Htts2. }
  destruct (consume synthesize lin2ulaw c rb ys (await s1).1) as [s3 [u|e']];
    cbn [fst snd] in *; [discriminate|].
  assert (live c s3) as Hlive3.
  { apply (session_view_live c s); [|exact Hlive].
    rewrite Hsess3, Hsess2. reflexivity. }
  destruct (synthesize_and_send_speaks synthesize lin2ulaw c apology s3 Hlive3)
    as [Hok4 Htts4].
  destruct (synthesize_and_send_steady c apology s3 Hm3) as (_ & Hcm5 & _).
  split; [exact Hok4|]. split; [rewrite Htts4, Htts3; reflexivity|].
  rewrite Hcm5, Hcm3, Hcm2. reflexivity.
Qed.

End ResponseMore.

(** ** The further statements at concrete calls *)
Section WitnessesMore.
Import VoiceAgent AgentSpec AgentMore.

Lemma start_after_stop_raises_witness :
  let s1 := (process_message
               (EvStart (StartData (Some "MZ0002") (Some "CA0002") None)) 7
               ScenarioMore.stopped_call).1 in
  is_Some (connections s1 !! 7)
  /\ tasks s1 = tasks ScenarioMore.stopped_call ++ [AsrTask 7; GreetingTask 7]
  /\ synthesize_and_send Scenario.silence Scenario.encode_silence 7 greeting s1 = (s1, Raise KeyError)
  /\ process_with_ai Scenario.silence Scenario.encode_silence 7 "hi"
       (ConversationManager.Reply [Some "Hello"] None (Ok "")) s1
     = (s1, Raise KeyError).
Proof.
  apply (start_after_stop_raises Scenario.silence Scenario.encode_silence
           (StartData (Some "MZ0002") (Some "CA0002") None) 7
           ScenarioMore.stopped_call greeting "hi"
           (ConversationManager.Reply [Some "Hello"] None (Ok ""))).
  apply cleanup_connection_released.
Defined.

Lemma transcript_without_session_witness :
  handle_transcript Scenario.silence Scenario.encode_silence 7
    (RivaASRClient.Transcript "What is the weather" true 0)
    (ConversationManager.Reply [Some "Sunny"] None (Ok ""))
    (cleanup_connection 7 Scenario.one_call).1
  = (set_last_transcript
       (<[7%nat := "What is the weather"]>
          (last_transcript (cleanup_connection 7 Scenario.one_call).1))
       (cleanup_connection 7 Scenario.one_call).1,
     Ok ()).
Proof.
  apply (transcript_without_session Scenario.silence Scenario.encode_silence 7
           (RivaASRClient.Transcript "What is the weather" true 0)
           (ConversationManager.Reply [Some "Sunny"] None (Ok ""))
           (cleanup_connection 7 Scenario.one_call).1); vm_compute; reflexivity.
Defined.

Lemma outbound_frames_are_whole_witness :
  let out := synthesize_and_send Scenario.silence Scenario.encode_silence 7
               greeting Scenario.one_call in
  (length (residual 0 out.1) < 160)%nat
  /\ exists frames,
       sent out.1 = sent Scenario.one_call ++ frames
       /\ Forall (frame_for
                    (websocket (Connection (Some "MZ0001") (Some "CA0001")
                                  Scenario.caller 7))
                    (Some "MZ0001")) frames.
Proof.
  apply (outbound_frames_are_whole Scenario.silence Scenario.encode_silence 7 greeting Scenario.one_call
           (Connection (Some "MZ0001") (Some "CA0001") Scenario.caller 7)
           (Some "MZ0001") 0 0);
    first [reflexivity | vm_compute; lia].
Defined.


Lemma send_greeting_speaks_once_witness :
  let out := send_greeting Scenario.silence Scenario.encode_silence 7
               ScenarioMore.greeted_call in
  out.2 = Ok ()
  /\ tts_requests out.1 = tts_requests ScenarioMore.greeted_call ++ [greeting].
Proof.
  destruct (send_greeting_speaks_once Scenario.silence Scenario.encode_silence 7
              ScenarioMore.greeted_call) as (Hspeaks & Hlive & _).
  apply Hspeaks, Hlive.
  - repeat split; vm_compute; eauto.
  - vm_compute. repeat constructor.
Defined.

Lemma process_with_ai_answers_witness :
  let text := PyStr.join (ConversationManager.contents [Some "It is "; None; Some "sunny"]) in
  let r := ConversationManager.Reply [Some "It is "; None; Some "sunny"] None (Ok "") in
  let out := process_with_ai Scenario.silence Scenario.encode_silence 7
               "What is the weather" r Scenario.one_call in
  out.2 = Ok ()
  /\ tts_requests out.1
     = tts_requests Scenario.one_call
       ++ (if PyStr.strip_nonempty text then [text] else [])
  /\ openai_client out.1
     = (ConversationManager.get_response (openai_client Scenario.one_call)
          "What is the weather"
          (default "unknown" (caller_numbers Scenario.one_call !! 7%nat)) true r).2.
Proof.
  apply (process_with_ai_answers Scenario.silence Scenario.encode_silence 7
           "What is the weather" [Some "It is "; None; Some "sunny"] (Ok "")
           Scenario.one_call 0 ResponseBuffer.init).
  - repeat split; vm_compute; eauto.
  - vm_compute; reflexivity.
  - vm_compute; reflexivity.
  - unfold media_only. vm_compute. constructor.
  - vm_compute; reflexivity.
Defined.

Lemma process_with_ai_sentence_apologizes_witness :
  let out := process_with_ai Scenario.silence Scenario.encode_silence 7
               "What is the weather"
               (ConversationManager.Reply [Some "It is sunny. "; Some "Enjoy"]
                  None (Ok ""))
               Scenario.one_call in
  out.2 = Ok ()
  /\ tts_requests out.1 = tts_requests Scenario.one_call ++ [apology]
  /\ openai_client out.1
     = (ConversationManager.begin_request (openai_client Scenario.one_call)
          "What is the weather"
          (default "unknown" (caller_numbers Scenario.one_call !! 7%nat)) true).1.
Proof.
  apply (process_with_ai_sentence_apologizes Scenario.silence
           Scenario.encode_silence 7 "What is the weather"
           (ConversationManager.Reply [Some "It is sunny. "; Some "Enjoy"]
              None (Ok ""))
           ". " Scenario.one_call 0 ResponseBuffer.init).
  - repeat split; vm_compute; eauto.
  - vm_compute; reflexivity.
  - vm_compute; reflexivity.
  - unfold media_only. vm_compute. constructor.
  - vm_compute; reflexivity.
Defined.

End WitnessesMore.
